(* ===== verification/_CoqProject ===== *)
-Q . S2P
Prelude.v
JsString.v
JsRegex.v
SimpleMinify.v
Sitemap.v
NodeFs.v
SimpleBuild.v
DirSize.v
SimpleMain.v
FullBuild.v
FullExclude.v
Frontend.v
