(* ===== verification/Prelude.v ===== *)
(** * ExcelAcademy build pipeline: a verification library

    The repository is a static web site with two Node.js build scripts and
    one browser script:
    - [src/build-simple.js]: creates [dist], cleans it ([build], lines
      186-190), walks the source tree ['.'] ([copyFiles], lines 26-79),
      copies every file that is not excluded, minifies HTML, CSS and JS in
      place with three regular-expression pipelines ([minifyFile], lines
      82-129), writes [sitemap.xml] and [robots.txt] (lines 132-178) and
      sums the size of [dist] ([getDirectorySize], lines 215-235);
    - [src/build.js]: the same walk with other exclusion rules, external
      minifiers, gzip and brotli sidecars and a service worker;
    - [src/assets/js/main.js]: menu, anchors, active link, gallery filter,
      contact form and FAQ accordion of the pages.
    The scripts talk to each other only through the file system: one store,
    threaded through every call.

    ** Files
    - [Prelude] (this file): the scope [xa_scope], the error monad [res]
      ([Ok]/[Err], with stdpp's [≫=]) in which a thrown exception is an
      [Err], [res_foldl] for the [for] loops and [reduce], string
      positions ([sdrop], [stake], [sget]), unions of a family of maps
      ([union_family]), the hint database [xa] and the tactic [decide_it].
    - [JsString]: the JavaScript string functions the scripts use, on
      8-bit code units ([\s], [trim], [includes], [endsWith],
      [toLowerCase], [split], [indexOf]).
    - [JsRegex]: [s.replace(/re/g, rep)] as a scan [gsub] over a matcher
      (Section [Gsub]) with its induction principle along the scan, and
      the lemmas that carry a predicate on every character
      ([gsub_from_all_chars]) or on every pair of neighbours
      ([gsub_from_adj_all], under [keeps_adj]) through a scan; the class
      [Shrinking] is the interface between an expression and the scan.
    - [SimpleMinify]: every expression of lines 91-116 as a matcher, the
      three pipelines and [minify_by_type] (the [switch] of lines 87-119);
      the class [FromInput] for expressions whose replacement is made of
      the characters they matched.
    - [Sitemap]: the text of [sitemap.xml], [robots.txt] and [sw.js], and a
      reader of the sitemap format.
    - [NodeFs]: the environment. The file system is a [gmap] from paths
      (lists of segments, ['.'] is [[]]) to entries (a file's text or a
      directory); [existsSync], [mkdirSync] (recursive), [readdirSync]
      (byte order), [lstatSync], [readFileSync], [writeFileSync],
      [copyFileSync], [rmSync] (recursive) and [path.basename], [dirname],
      [extname] are functions of the store that return Node's error codes.
      [fs_wf]: the root is a directory and the parent of every entry is a
      directory (decidable).
    - [SimpleBuild]: the configuration record and Section [Script], one
      definition per function of build-simple.js ([minifyFile],
      [copyFiles], [generateSitemap], [generateRobotsTxt],
      [getDirectorySize], [clean], [build], [main], [exit_code]); Section
      [Walk] states what the walk writes ([walk_out]) and proves that
      [copyFiles] writes exactly that ([copyFiles_walk]) from an invariant
      ([walk_inv]) kept across the loop over a directory's entries.
    - [DirSize]: the size of a tree as a fold over the store and the proof
      that [getDirectorySize] computes it.
    - [SimpleMain]: the run of [main] with the script's own configuration:
      its result ([build_output]), what lies outside [dist], idempotence,
      and an error path.
    - [FullBuild]: build.js. The npm packages are the class [Toolchain]
      (every theorem holds for every instance); [copyFilesFull] is its
      walk with the skip test [full_excluded] and the sidecars
      [write_sidecars]; [buildFull] and [mainFull] the orchestration.
    - [FullExclude]: what one walk of build.js may change
      ([walk_touch], [copyFilesFull_touch], with [changes_within] of
      [NodeFs]) and what it leaves out.
    - [Frontend]: main.js, one Module per feature ([Menu], [Nav],
      [Gallery], [Contact], [Faq]): the DOM state each handler reads and
      writes as a record (class lists as [gset string]), each handler as a
      function, the user's clicks as a step relation.

    ** Theorems
    - The run of build-simple.js (C1-C4): on a well-formed tree the script
      returns, [dist] holds exactly the shown source entries (minified
      text when shorter) and the two generated files, nothing else is
      touched, a second run gives the same store, a directory named
      [sitemap.xml] aborts the build.
    - The minifiers (C5, C6, C8-C11), each for every input: never longer;
      no double whitespace in HTML; the comment rule of line 112 deletes
      the character before [//]; JS and CSS come out on one line (so
      statements that relied on a line break run together); no whitespace
      is left next to an operator in JS or next to [{ } | : ; ,] in CSS,
      string literals and selectors included.
    - The sitemap (C7): reading the document back gives one entry per page.
    - build.js (C12-C15): the run never completes (the walk descends into
      [dist/dist/...]); an HTML page gets sidecars exactly above 1024; a
      file under a directory whose name contains [node_modules] or [.git]
      gets nothing in the build directory; every directory is mirrored.
    - main.js (C16-C23): [aria-expanded] follows the menu; the empty page
      name test is dead; the active link marks; exactly one active filter;
      "load more" progresses, and keeps the gallery filtered only when it
      reveals items of the filter; the form object keeps the last value of
      a name; the FAQ shows at most one answer.

    ** Fuel
    [copyFiles] and [getDirectorySize] recurse on the tree with fuel: the
    theorems assume every source path has fewer segments than the fuel (and
    fuel at least 2, for [dist/sitemap.xml]); one unit is spent per level,
    so this is enough ([copyFiles_walk], [getDirectorySize_spec]). A second
    run needs one more unit: [dist] is one level deeper than the source.
    [gsub] runs with fuel [length s + 1], proved enough by [gsub_go_fuel].
    [copyFilesFull] has fuel too: C12 holds for every fuel, and the other
    theorems of build.js assume a run that returns or give the fuel their
    witness needs.

    ** Not modelled
    Console output; the decoding of UTF-8 (a string is its bytes, so
    [.length] counts bytes, which is what the scripts count on ASCII text);
    symbolic links ([lstat] sees files and directories only); the clock
    (the ISO date is an input); what the npm packages compute (abstract in
    [Toolchain]); in main.js, scrolling, selector syntax and the errors of
    pages lacking an element; the Tailwind configuration, which has no
    behaviour. *)

From Stdlib Require Import Ascii String.
From stdpp Require Export base list gmap strings sorting.
From Stdlib Require Export Lia.

Declare Scope xa_scope.
Delimit Scope xa_scope with xa.
Open Scope stdpp_scope.

Create HintDb xa.
Create Rewrite HintDb xa.

Open Scope xa_scope.

(** Prove a decidable proposition about closed terms by evaluation. *)
Ltac decide_it := apply (bool_decide_unpack _); vm_compute; reflexivity.

(** ** Prefix and suffix of a string by position *)

Fixpoint sdrop (n : nat) (s : string) : string :=
  match n, s with
  | 0, _ => s
  | S n', String _ t => sdrop n' t
  | S _, EmptyString => EmptyString
  end.

Fixpoint stake (n : nat) (s : string) : string :=
  match n, s with
  | 0, _ => EmptyString
  | S n', String c t => String c (stake n' t)
  | S _, EmptyString => EmptyString
  end.

(** The character at a position, [s.charAt(n)] when it exists. *)
Fixpoint sget (n : nat) (s : string) : option ascii :=
  match s with
  | EmptyString => None
  | String c t => match n with 0 => Some c | S n' => sget n' t end
  end.

Lemma sapp_cons (c : ascii) (s t : string) : String c s +:+ t = String c (s +:+ t).
Proof. done. Qed.

Lemma sapp_nil_l (s : string) : "" +:+ s = s.
Proof. done. Qed.

Lemma slen_app (s t : string) :
  String.length (s +:+ t) = String.length s + String.length t.
Proof. induction s as [|c s IH]; [done|]. rewrite sapp_cons; simpl; by rewrite IH. Qed.

Lemma sapp_nil_r (s : string) : s +:+ "" = s.
Proof. induction s as [|c s IH]; [done|]. rewrite sapp_cons; by rewrite IH. Qed.

Lemma sapp_assoc (s t u : string) : s +:+ (t +:+ u) = (s +:+ t) +:+ u.
Proof. induction s as [|c s IH]; [done|]. rewrite !sapp_cons; by rewrite IH. Qed.

Lemma sdrop_length (n : nat) (s : string) :
  String.length (sdrop n s) = String.length s - n.
Proof. revert s; induction n as [|n IH]; intros [|c s]; simpl; auto with lia. Qed.

Lemma stake_length (n : nat) (s : string) :
  String.length (stake n s) = min n (String.length s).
Proof. revert s; induction n as [|n IH]; intros [|c s]; simpl; auto. Qed.

Lemma stake_sdrop (n : nat) (s : string) : stake n s +:+ sdrop n s = s.
Proof.
  revert s; induction n as [|n IH]; intros [|c s]; simpl; auto.
  rewrite sapp_cons. by rewrite IH.
Qed.

Lemma sdrop_app (s t : string) : sdrop (String.length s) (s +:+ t) = t.
Proof. induction s; [done|]. rewrite sapp_cons; simpl; auto. Qed.

Lemma sdrop_all (s : string) : sdrop (String.length s) s = EmptyString.
Proof. induction s; simpl; auto. Qed.

Lemma sdrop_S_cons (n : nat) (c : ascii) (s : string) :
  sdrop (S n) (String c s) = sdrop n s.
Proof. done. Qed.

Lemma sget_sdrop (n m : nat) (s : string) : sget m (sdrop n s) = sget (n + m) s.
Proof. revert s; induction n as [|n IH]; intros [|c s]; simpl; auto. by destruct m. Qed.

Lemma sget_lt (n : nat) (s : string) : n < String.length s -> exists c, sget n s = Some c.
Proof.
  revert n; induction s as [|c s IH]; intros [|n]; simpl; [lia | lia | by eauto |].
  intros ?. apply IH. lia.
Qed.

#[export] Hint Rewrite sapp_cons sapp_nil_l slen_app sdrop_length stake_length sdrop_app : xa.

(** Close a goal about string lengths. *)
Ltac slen := simpl in *; autorewrite with xa in *; simpl in *; lia.

(** ** The error monad of the scripts

    Node's synchronous [fs] calls throw; the scripts either catch the
    exception or let it reach [build]'s [try]. [Err e] is a thrown
    exception, [Ok a] a normal return. *)

Inductive res (E A : Type) : Type :=
| Ok (a : A)
| Err (e : E).
Arguments Ok {E A} a.
Arguments Err {E A} e.

#[export] Instance res_ret {E} : MRet (res E) := fun A a => Ok a.
#[export] Instance res_bind {E} : MBind (res E) :=
  fun A B f m => match m with Ok a => f a | Err e => Err e end.

Lemma res_bind_Ok {E A B} (m : res E A) (f : A -> res E B) (b : B) :
  (m ≫= f) = Ok b <-> exists a, m = Ok a /\ f a = Ok b.
Proof. destruct m; simpl; split; [eauto | intros (?&?&?); congruence | done | intros (?&?&?); done]. Qed.

Lemma res_bind_Ok_l {E A B} (a : A) (f : A -> res E B) : (Ok a ≫= f) = f a.
Proof. done. Qed.

Lemma res_bind_Err_l {E A B} (e : E) (f : A -> res E B) : (Err e ≫= f) = Err e.
Proof. done. Qed.

#[export] Hint Rewrite @res_bind_Ok_l @res_bind_Err_l : xa.

(** Take apart a chain of binds that returned: one hypothesis [E : m = Ok
    x] per step. *)
Ltac res_inv H :=
  repeat match type of H with
  | (_ ≫= _) = Ok _ =>
      let x := fresh "x" in let E := fresh "E" in apply res_bind_Ok in H as (x & E & H)
  end.

(** Left fold of a fallible step over a list: [for (const x of xs) s = f(s, x)]
    where a throw aborts the loop. *)
Fixpoint res_foldl {E A B} (f : A -> B -> res E A) (a : A) (xs : list B) : res E A :=
  match xs with
  | [] => Ok a
  | x :: xs' => f a x ≫= fun a' => res_foldl f a' xs'
  end.

Lemma res_foldl_app {E A B} (f : A -> B -> res E A) a xs ys :
  res_foldl f a (xs ++ ys) = res_foldl f a xs ≫= fun a' => res_foldl f a' ys.
Proof.
  revert a; induction xs as [|x xs IH]; intros a; simpl; [done|].
  destruct (f a x); simpl; auto.
Qed.

Lemma Some_pair_inj {A B} (a c : A) (b d : B) : Some (a, b) = Some (c, d) -> a = c /\ b = d.
Proof. by intros [= -> ->]. Qed.

Lemma res_foldl_preserves {E A B} (P : A -> Prop) (step : A -> B -> res E A) (a a' : A) (xs : list B) :
  (forall a x a', P a -> step a x = Ok a' -> P a') ->
  P a -> res_foldl step a xs = Ok a' -> P a'.
Proof.
  intros Hstep. revert a; induction xs as [|x xs IH]; intros a Ha; simpl; [by intros [= <-]|].
  destruct (step a x) as [a1|] eqn:Hs; [|done]. simpl. apply IH. by eapply Hstep.
Qed.

(** ** Unions of a family of maps indexed by a list

    A directory's contents is the union, over its entries, of what lies at
    and below each entry; these are the lookups in such a union. *)

Section union_family.
Context {K A : Type} `{Countable K}.

Definition union_family {I : Type} (F : I -> gmap K A) (l : list I) : gmap K A :=
  foldr (fun x acc => F x ∪ acc) ∅ l.

Lemma union_family_lookup_None {I : Type} (F : I -> gmap K A) (l : list I) (k : K) :
  (forall x, x ∈ l -> F x !! k = None) -> union_family F l !! k = None.
Proof.
  induction l as [|x l IH]; intros Hk; simpl; [apply lookup_empty|].
  apply lookup_union_None. split; [apply Hk; by left|]. apply IH. intros y Hy. apply Hk. by right.
Qed.

Lemma union_family_lookup_in {I : Type} `{EqDecision I} (F : I -> gmap K A) (l : list I) (x : I) (k : K) :
  x ∈ l -> (forall y, y ∈ l -> y <> x -> F y !! k = None) ->
  union_family F l !! k = F x !! k.
Proof.
  induction l as [|y l IH]; intros Hx Hoth; [by apply elem_of_nil in Hx|]. simpl.
  destruct (decide (y = x)) as [->|Hyx].
  - destruct (F x !! k) eqn:E; [rewrite lookup_union_l'; [done | by rewrite E]|].
    rewrite lookup_union_r by done. apply union_family_lookup_None.
    intros z Hz. destruct (decide (z = x)) as [->|Hzx]; [done|]. apply Hoth; [by right|done].
  - rewrite lookup_union_r by (apply Hoth; [by left|done]).
    apply elem_of_cons in Hx as [->|Hx]; [done|]. apply IH; [done|].
    intros z Hz. apply Hoth. by right.
Qed.

Lemma union_family_disjoint {I : Type} (F : I -> gmap K A) (l : list I) (x : I) :
  (forall y, y ∈ l -> F x ##ₘ F y) -> F x ##ₘ union_family F l.
Proof.
  induction l as [|y l IH]; intros Hd; simpl; [apply map_disjoint_empty_r|].
  apply map_disjoint_union_r_2; [apply Hd; by left|]. apply IH. intros z Hz. apply Hd. by right.
Qed.
End union_family.

(** A fold that returns went through every element: for an invariant [P]
    of the steps, some state satisfying [P] made the step on [x]. *)
Lemma res_foldl_Ok_elem {E A B} (P : A -> Prop) (step : A -> B -> res E A) (a b : A) (xs : list B) (x : B) :
  (forall a x a', P a -> step a x = Ok a' -> P a') ->
  P a -> res_foldl step a xs = Ok b -> x ∈ xs ->
  exists a1 a2, P a1 /\ step a1 x = Ok a2.
Proof.
  intros Hstep. revert a; induction xs as [|y xs IH]; intros a Ha; simpl; [by intros _ ?%elem_of_nil|].
  destruct (step a y) as [a1|] eqn:Hs; [|done]. simpl. intros Hf [->|Hx]%elem_of_cons.
  - by exists a, a1.
  - apply (IH a1); [by eapply Hstep | done | done].
Qed.

Lemma sapp_inv_l (s a b : string) : s +:+ a = s +:+ b -> a = b.
Proof. induction s as [|c s IH]; [done|]. rewrite !sapp_cons. intros [= H]. by apply IH. Qed.
