(* ===== verification/JsString.v ===== *)
(** * JavaScript string primitives used by the scripts

    The scripts call [String.prototype.trim], [includes], [endsWith],
    [toLowerCase], [split] and the regular-expression classes [\s] and
    [.]. JavaScript strings are sequences of UTF-16 code units; the model
    reads a file as a sequence of 8-bit code units (Rocq [ascii]), so the
    definitions below are the JavaScript ones restricted to code units
    0..255. In that range [\s] and the [trim] set are
    TAB, LF, VT, FF, CR, SPACE and NO-BREAK SPACE (0xA0), and the line
    terminators are LF and CR. *)

From S2P Require Import Prelude.
From Stdlib Require Import Ascii String.

(** ** Character classes *)

(** [\s]: WhiteSpace and LineTerminator code points below 256. *)
Definition is_ws (c : ascii) : bool :=
  match nat_of_ascii c with
  | 9 | 10 | 11 | 12 | 13 | 32 | 160 => true
  | _ => false
  end.

(** LineTerminator below 256: the characters [.] does not match and before
    which [$] matches in multiline mode. *)
Definition is_line_terminator (c : ascii) : bool :=
  match nat_of_ascii c with
  | 10 | 13 => true
  | _ => false
  end.

Lemma is_line_terminator_ws (c : ascii) : is_line_terminator c = true -> is_ws c = true.
Proof. unfold is_line_terminator, is_ws. repeat (case_match; try done). Qed.

(** Membership of a character in a bracket class written as a string. *)
Fixpoint in_class (cls : string) (c : ascii) : bool :=
  match cls with
  | EmptyString => false
  | String d rest => if ascii_dec c d then true else in_class rest c
  end.

Lemma in_class_cons (d : ascii) (cls : string) (c : ascii) :
  in_class (String d cls) c = if ascii_dec c d then true else in_class cls c.
Proof. done. Qed.

(** ** Scanning helpers *)

(** Length of the longest prefix of whitespace: what a greedy [\s*] eats. *)
Fixpoint ws_prefix_len (s : string) : nat :=
  match s with
  | String c t => if is_ws c then S (ws_prefix_len t) else 0
  | EmptyString => 0
  end.

(** Length of the longest prefix without a line terminator: what a greedy
    [.*] eats. *)
Fixpoint line_prefix_len (s : string) : nat :=
  match s with
  | String c t => if is_line_terminator c then 0 else S (line_prefix_len t)
  | EmptyString => 0
  end.

Lemma ws_prefix_len_le (s : string) : ws_prefix_len s <= String.length s.
Proof. induction s as [|c s IH]; simpl; [lia|]. case_match; lia. Qed.

Lemma line_prefix_len_le (s : string) : line_prefix_len s <= String.length s.
Proof. induction s as [|c s IH]; simpl; [lia|]. case_match; lia. Qed.

(** The character that ends a whitespace run is not whitespace. *)
Lemma ws_prefix_len_stop (s : string) (c : ascii) :
  sget (ws_prefix_len s) s = Some c -> is_ws c = false.
Proof.
  induction s as [|d s IH]; simpl; [done|].
  destruct (is_ws d) eqn:E; simpl; [apply IH|]. by intros [= <-].
Qed.

(** Every character of a whitespace run is whitespace. *)
Lemma ws_prefix_len_ws (s : string) (i : nat) (c : ascii) :
  i < ws_prefix_len s -> sget i s = Some c -> is_ws c = true.
Proof.
  revert i; induction s as [|d s IH]; intros i; simpl; [lia|].
  destruct (is_ws d) eqn:E; simpl; [|lia].
  destruct i; [by intros _ [= <-]|]. intros ?. apply IH. lia.
Qed.

Lemma prefix_empty (s : string) : String.prefix "" s = true.
Proof. by destruct s. Qed.

Lemma sprefix_length (p s : string) :
  String.prefix p s = true -> String.length p <= String.length s.
Proof.
  revert s; induction p as [|c p IH]; intros [|d s]; simpl; try done; [lia|].
  destruct (ascii_dec c d); [|done]. intros H. specialize (IH s H). lia.
Qed.

Lemma sprefix_app_inv (p s : string) : String.prefix p s = true -> exists t, s = p +:+ t.
Proof.
  revert s; induction p as [|c p IH]; intros [|d s]; simpl; try done; [by eauto | by eauto |].
  destruct (ascii_dec c d) as [<-|]; [|done]. intros (t & ->)%IH. by exists t.
Qed.

Lemma sprefix_app (lit s : string) : String.prefix lit (lit +:+ s) = true.
Proof.
  induction lit as [|c lit IH]; [apply prefix_empty|]. rewrite sapp_cons. simpl.
  destruct (ascii_dec c c); [apply IH | done].
Qed.

(** First position of [pat] in [s]: [s.indexOf(pat)] when it is not [-1]. *)
Fixpoint index_of (pat s : string) : option nat :=
  if String.prefix pat s then Some 0
  else match s with
       | EmptyString => None
       | String _ t => S <$> index_of pat t
       end.

Lemma index_of_bound (pat s : string) (i : nat) :
  index_of pat s = Some i -> i + String.length pat <= String.length s.
Proof.
  revert i; induction s as [|c s IH]; intros i; cbn [index_of].
  - destruct pat; simpl; [intros [= <-]; lia | done].
  - destruct (String.prefix pat (String c s)) eqn:Hp.
    + intros [= <-]. apply sprefix_length in Hp. simpl in *. lia.
    + destruct (index_of pat s) as [j|] eqn:Hj; simpl; [|done].
      intros [= <-]. specialize (IH j eq_refl). lia.
Qed.

(** ** [String.prototype] methods *)

(** [s.trimStart()] *)
Fixpoint trim_start (s : string) : string :=
  match s with
  | String c t => if is_ws c then trim_start t else s
  | EmptyString => EmptyString
  end.

(** [s.trimEnd()] *)
Fixpoint trim_end (s : string) : string :=
  match s with
  | EmptyString => EmptyString
  | String c t =>
      let t' := trim_end t in
      if is_ws c && String.eqb t' "" then EmptyString else String c t'
  end.

(** [s.trim()] *)
Definition trim (s : string) : string := trim_end (trim_start s).

Lemma trim_start_length (s : string) : String.length (trim_start s) <= String.length s.
Proof. induction s as [|c s IH]; simpl; [lia|]. case_match; simpl; lia. Qed.

Lemma trim_end_length (s : string) : String.length (trim_end s) <= String.length s.
Proof. induction s as [|c s IH]; simpl; [lia|]. case_match; simpl; lia. Qed.

Lemma trim_length (s : string) : String.length (trim s) <= String.length s.
Proof. unfold trim. etrans; [apply trim_end_length | apply trim_start_length]. Qed.

Lemma trim_length_le (s : string) (n : nat) :
  String.length s <= n -> String.length (trim s) <= n.
Proof. pose proof (trim_length s). lia. Qed.

(** [s.includes(pat)] *)
Definition includes (s pat : string) : bool :=
  match index_of pat s with Some _ => true | None => false end.

Lemma index_of_prefix (pat s : string) : String.prefix pat s = true -> index_of pat s = Some 0.
Proof. destruct s; cbn [index_of]; by intros ->. Qed.

(** [includes s pat] exactly when [pat] occurs in [s]. *)
Lemma includes_intro (a pat b : string) : includes (a +:+ pat +:+ b) pat = true.
Proof.
  unfold includes. induction a as [|c a IH].
  - by rewrite sapp_nil_l, index_of_prefix by apply sprefix_app.
  - rewrite sapp_cons. cbn [index_of]. destruct (String.prefix pat _); [done|].
    by destruct (index_of pat (a +:+ pat +:+ b)).
Qed.

Lemma includes_elim (s pat : string) : includes s pat = true -> exists a b, s = a +:+ pat +:+ b.
Proof.
  unfold includes. induction s as [|c s IH]; cbn [index_of].
  - destruct (String.prefix pat "") eqn:Hp; [|done]. intros _.
    destruct (sprefix_app_inv _ _ Hp) as [b Hb]. by exists "", b.
  - destruct (String.prefix pat (String c s)) eqn:Hp.
    + intros _. destruct (sprefix_app_inv _ _ Hp) as [b Hb]. by exists "", b.
    + destruct (index_of pat s) eqn:E; [|done]. intros _.
      destruct IH as (a & b & ->); [done|]. by exists (String c a), b.
Qed.

(** [s.endsWith(suf)] *)
Definition ends_with (s suf : string) : bool :=
  (String.length suf <=? String.length s) &&
  String.eqb (sdrop (String.length s - String.length suf) s) suf.

(** [s.toLowerCase()] on code units below 256: A-Z and U+00C0-U+00DE
    (except U+00D7) move up by 32. *)
Definition to_lower_char (c : ascii) : ascii :=
  let n := nat_of_ascii c in
  if ((65 <=? n) && (n <=? 90)) || ((192 <=? n) && (n <=? 222) && negb (n =? 215))
  then ascii_of_nat (n + 32) else c.

Fixpoint to_lower (s : string) : string :=
  match s with
  | EmptyString => EmptyString
  | String c t => String (to_lower_char c) (to_lower t)
  end.

(** [s.split(sep)] for a one-character separator: always at least one
    piece, empty pieces kept. *)
Fixpoint split_on (sep : ascii) (s : string) : list string :=
  match s with
  | EmptyString => [EmptyString]
  | String c t =>
      let parts := split_on sep t in
      if ascii_dec c sep then EmptyString :: parts
      else match parts with
           | p :: ps => String c p :: ps
           | [] => [String c EmptyString]
           end
  end.

Lemma split_on_nonempty (sep : ascii) (s : string) : split_on sep s <> [].
Proof.
  induction s as [|c s IH]; simpl; [done|].
  case_match; [done|]. by destruct (split_on sep s).
Qed.

Lemma sget_Some_lt (n : nat) (s : string) (c : ascii) :
  sget n s = Some c -> n < String.length s.
Proof. revert n; induction s as [|d s IH]; intros [|n]; simpl; try done; [lia|]. intros H; specialize (IH n H); lia. Qed.

(** Collect the length facts of the scanning helpers that occur in the goal
    and the hypotheses, then let [lia] conclude. *)
Ltac scan_lengths :=
  repeat match goal with
  | H : _ && _ = true |- _ => apply andb_prop in H as [? ?]
  | H : bool_decide _ = true |- _ => apply bool_decide_eq_true in H
  | H : (_ <? _) = true |- _ => apply Nat.ltb_lt in H
  | H : index_of _ _ = Some _ |- _ => apply index_of_bound in H
  | H : String.prefix _ _ = true |- _ => apply sprefix_length in H
  | H : sget _ _ = Some _ |- _ => apply sget_Some_lt in H
  | |- context [ws_prefix_len ?t] =>
      lazymatch goal with
      | _ : ws_prefix_len t <= _ |- _ => fail
      | _ => pose proof (ws_prefix_len_le t)
      end
  | _ : context [ws_prefix_len ?t] |- _ =>
      lazymatch goal with
      | _ : ws_prefix_len t <= _ |- _ => fail
      | _ => pose proof (ws_prefix_len_le t)
      end
  | |- context [line_prefix_len ?t] =>
      lazymatch goal with
      | _ : line_prefix_len t <= _ |- _ => fail
      | _ => pose proof (line_prefix_len_le t)
      end
  end;
  rewrite ?sdrop_length in *; cbn [String.length] in *; lia.

Lemma sdrop_sget (n : nat) (s t : string) (c : ascii) :
  sdrop n s = String c t -> sget n s = Some c.
Proof. revert s; induction n as [|n IH]; intros [|d s]; simpl; try done; [by intros [= -> _] | apply IH]. Qed.

Lemma sdrop_sdrop (n k : nat) (s : string) : sdrop n (sdrop k s) = sdrop (k + n) s.
Proof. revert s; induction k as [|k IH]; intros [|c s]; simpl; auto. by destruct n. Qed.

(** ** Predicates on every character and on every pair of neighbours *)

(** [all_chars P s]: every character of [s] satisfies [P]. *)
Fixpoint all_chars (P : ascii -> bool) (s : string) : bool :=
  match s with
  | EmptyString => true
  | String c t => P c && all_chars P t
  end.

(** [adj_all R s]: every character of [s] is related by [R] to the one
    after it. *)
Fixpoint adj_all (R : ascii -> ascii -> bool) (s : string) : bool :=
  match s with
  | String c ((String d _) as t) => R c d && adj_all R t
  | _ => true
  end.

(** [c] is related to the first character of [t], if there is one. *)
Definition head_rel (R : ascii -> ascii -> bool) (c : ascii) (t : string) : bool :=
  match t with String d _ => R c d | EmptyString => true end.

(** No two adjacent characters are both whitespace. *)
Abbreviation no_ws_pair := (adj_all (fun a b => negb (is_ws a && is_ws b))).

(** No line terminator: the whole string is one line. *)
Abbreviation one_line := (all_chars (fun c => negb (is_line_terminator c))).

(** Every character is one of [cls]. *)
Abbreviation all_in cls := (all_chars (in_class cls)).

Lemma adj_all_cons (R : ascii -> ascii -> bool) (c : ascii) (t : string) :
  adj_all R (String c t) = head_rel R c t && adj_all R t.
Proof. by destruct t. Qed.

Lemma head_rel_sget (R : ascii -> ascii -> bool) (c : ascii) (x y : string) :
  sget 0 x = sget 0 y -> head_rel R c x = head_rel R c y.
Proof. destruct x, y; simpl; congruence. Qed.

Lemma head_rel_sget0 (R : ascii -> ascii -> bool) (c : ascii) (x : string) :
  head_rel R c x = match sget 0 x with Some d => R c d | None => true end.
Proof. by destruct x. Qed.

(** A step that keeps the first character [c] of [String c t] and goes on
    with [t]: it keeps [R] between [c] and what follows, and with what
    precedes. *)
Lemma adj_all_keep (R : ascii -> ascii -> bool) (c : ascii) (t x : string) :
  adj_all R (String c t) = true ->
  (forall u, head_rel R u t = true -> head_rel R u x = true) -> adj_all R x = true ->
  adj_all R (String c "" +:+ x) = true /\
  (forall u, head_rel R u (String c t) = true -> head_rel R u (String c "" +:+ x) = true).
Proof.
  rewrite adj_all_cons. intros [Hc _]%andb_prop Hx Hax.
  rewrite sapp_cons, sapp_nil_l, adj_all_cons, Hax, (Hx c Hc). split; [done|]. by intros u Hu.
Qed.

Lemma adj_all_sdrop (R : ascii -> ascii -> bool) (n : nat) (s : string) :
  adj_all R s = true -> adj_all R (sdrop n s) = true.
Proof.
  revert s; induction n as [|n IH]; intros [|c s] H; simpl; auto.
  apply IH. rewrite adj_all_cons in H. by apply andb_prop in H as [_ ?].
Qed.

(** Two neighbours of a string related everywhere are related. *)
Lemma adj_all_sget (R : ascii -> ascii -> bool) (s : string) (i : nat) (a b : ascii) :
  adj_all R s = true -> sget i s = Some a -> sget (S i) s = Some b -> R a b = true.
Proof.
  revert i; induction s as [|c s IH]; intros i; [done|]. rewrite adj_all_cons.
  intros [Hh Hs]%andb_prop. destruct i as [|i]; simpl.
  - intros [= <-]. destruct s; [done|]. by intros [= <-].
  - by apply IH.
Qed.

Lemma all_chars_sget (P : ascii -> bool) (s : string) (i : nat) (c : ascii) :
  all_chars P s = true -> sget i s = Some c -> P c = true.
Proof.
  revert i; induction s as [|d s IH]; intros [|i]; simpl; try done.
  - by intros [? _]%andb_prop [= <-].
  - intros [_ ?]%andb_prop. by apply IH.
Qed.

(** Every character of a class [cls] satisfies what [cls] satisfies. *)
Lemma in_class_all_chars (P : ascii -> bool) (cls : string) (c : ascii) :
  all_chars P cls = true -> in_class cls c = true -> P c = true.
Proof.
  induction cls as [|d cls IH]; simpl; [done|].
  intros [Hd Hcls]%andb_prop. destruct (ascii_dec c d) as [->|]; [done|]. by apply IH.
Qed.

Lemma all_chars_app (P : ascii -> bool) (s t : string) :
  all_chars P (s +:+ t) = all_chars P s && all_chars P t.
Proof. induction s as [|c s IH]; [done|]. rewrite sapp_cons. simpl. by rewrite IH, andb_assoc. Qed.

Lemma all_chars_sdrop (P : ascii -> bool) (n : nat) (s : string) :
  all_chars P s = true -> all_chars P (sdrop n s) = true.
Proof.
  revert s; induction n as [|n IH]; intros [|c s]; simpl; try done.
  intros (_ & Hs)%andb_prop. by apply IH.
Qed.

(** [trim] keeps a middle part of the string: what holds of every
    character, or of every pair of neighbours, still holds after it. *)
Lemma all_chars_trim (P : ascii -> bool) (s : string) :
  all_chars P s = true -> all_chars P (trim s) = true.
Proof.
  unfold trim. intros Hs.
  assert (all_chars P (trim_start s) = true) as Ht.
  { induction s as [|c s IH]; simpl in *; [done|].
    apply andb_prop in Hs as [Hc Hs']. case_match; [by apply IH | simpl; by rewrite Hc]. }
  clear Hs. induction (trim_start s) as [|c t IH]; [done|].
  simpl in Ht |- *. apply andb_prop in Ht as [Hc Ht].
  case_match; [done|]. simpl. by rewrite Hc, IH.
Qed.

Lemma trim_end_head_rel (R : ascii -> ascii -> bool) (c : ascii) (t : string) :
  head_rel R c t = true -> head_rel R c (trim_end t) = true.
Proof. destruct t as [|d t]; simpl; [done|]. by case_match. Qed.

Lemma adj_all_trim (R : ascii -> ascii -> bool) (s : string) :
  adj_all R s = true -> adj_all R (trim s) = true.
Proof.
  unfold trim. intros Hs.
  assert (adj_all R (trim_start s) = true) as Ht.
  { induction s as [|c s IH]; [done|]. simpl trim_start. case_match; [|done].
    apply IH, (adj_all_sdrop R 1 (String c s) Hs). }
  clear Hs. induction (trim_start s) as [|c t IH]; [done|].
  rewrite adj_all_cons in Ht. apply andb_prop in Ht as [Hc Ht].
  simpl. case_match; [done|]. rewrite adj_all_cons, IH, andb_true_r by done.
  by apply trim_end_head_rel.
Qed.

Lemma line_prefix_len_one_line (s : string) :
  one_line s = true -> line_prefix_len s = String.length s.
Proof.
  induction s as [|c s IH]; simpl; [done|].
  intros [Hc%negb_true_iff Hs]%andb_prop. rewrite Hc. by rewrite IH.
Qed.

Lemma in_class_app (s t : string) (c : ascii) :
  in_class (s +:+ t) c = in_class s c || in_class t c.
Proof.
  induction s as [|d s IH]; [done|]. rewrite sapp_cons. simpl.
  destruct (ascii_dec c d); [done|]. apply IH.
Qed.


(** ** A string found inside another

    A string found inside [s], at its start or at its end, satisfies
    every character predicate [s] satisfies: a pattern with a character
    outside it is not found. *)
Lemma prefix_all_chars (P : ascii -> bool) (pat s : string) :
  String.prefix pat s = true -> all_chars P s = true -> all_chars P pat = true.
Proof.
  revert s; induction pat as [|c pat IH]; intros [|d s]; simpl; try done.
  destruct (ascii_dec c d) as [<-|]; [|done].
  intros Hp (Hc & Hs)%andb_prop. rewrite Hc. by apply (IH s).
Qed.

Lemma includes_all_chars (P : ascii -> bool) (s pat : string) :
  includes s pat = true -> all_chars P s = true -> all_chars P pat = true.
Proof.
  unfold includes. induction s as [|c s IH]; cbn [index_of].
  - destruct (String.prefix pat "") eqn:Hp; [|done]. intros _. by apply prefix_all_chars.
  - destruct (String.prefix pat (String c s)) eqn:Hp; [intros _; by apply prefix_all_chars|].
    simpl. destruct (index_of pat s); simpl; [|done].
    intros _ (_ & Hs)%andb_prop. by apply IH.
Qed.

Lemma ends_with_all_chars (P : ascii -> bool) (s suf : string) :
  ends_with s suf = true -> all_chars P s = true -> all_chars P suf = true.
Proof.
  unfold ends_with. intros (_ & Heq%String.eqb_eq)%andb_prop Hs. rewrite <- Heq.
  by apply all_chars_sdrop.
Qed.
