(* ===== verification/JsRegex.v ===== *)
(** * Global regular-expression replacement: [s.replace(/re/g, rep)]

    ECMAScript's [String.prototype.replace] with a global expression scans
    the input from the left: at each position it tries the expression; on a
    match it appends the replacement and resumes after the matched text, on
    a failure it copies one character and moves on. The model takes the
    expression as a [matcher]: [m prev s] tries the expression at the start
    of [s], where [prev] is the input character just before that position
    ([None] at the start of the input, which is what [^] and a negated class
    before [//] look at). It returns the replacement text (with [$1]
    already substituted) and the number of characters matched.

    None of the expressions of the scripts matches the empty string, so a
    match of length 0 never occurs; the engine treats it as a failure. The
    scan is bounded by fuel [length s + 1], which [gsub_go_fuel] shows to be
    enough: every step consumes at least one character. *)

From S2P Require Import Prelude JsString.
From Stdlib Require Import Ascii String.

Definition matcher := option ascii -> string -> option (string * nat).

Section Gsub.
Variable m : matcher.

Fixpoint gsub_go (fuel : nat) (prev : option ascii) (s : string) : string :=
  match fuel with
  | 0 => s
  | S fuel' =>
      match m prev s with
      | Some (r, S k) => r +:+ gsub_go fuel' (sget k s) (sdrop (S k) s)
      | _ =>
          match s with
          | EmptyString => EmptyString
          | String c t => String c (gsub_go fuel' (Some c) t)
          end
      end
  end.

(** The replacement scan from a position whose previous character is
    [prev]. *)
Definition gsub_from (prev : option ascii) (s : string) : string :=
  gsub_go (S (String.length s)) prev s.

(** [s.replace(re, rep)] on a whole string. *)
Definition gsub (s : string) : string := gsub_from None s.

(** A match never claims more characters than the input has. *)
Hypothesis m_bound : forall p s r n, m p s = Some (r, n) -> n <= String.length s.

Lemma gsub_go_fuel (f1 f2 : nat) (p : option ascii) (s : string) :
  String.length s < f1 -> String.length s < f2 -> gsub_go f1 p s = gsub_go f2 p s.
Proof.
  revert f2 p s; induction f1 as [|f1 IH]; intros f2 p s H1 H2; [lia|].
  destruct f2 as [|f2]; [lia|]. cbn [gsub_go].
  destruct (m p s) as [[r [|k]]|] eqn:Hm.
  - destruct s as [|c t]; [done|]. simpl in *. f_equal. apply IH; lia.
  - apply m_bound in Hm. f_equal. apply IH; rewrite sdrop_length; lia.
  - destruct s as [|c t]; [done|]. simpl in *. f_equal. apply IH; lia.
Qed.

(** The defining equations of the scan, free of fuel. *)
Lemma gsub_from_match (p : option ascii) (s r : string) (k : nat) :
  m p s = Some (r, S k) ->
  gsub_from p s = r +:+ gsub_from (sget k s) (sdrop (S k) s).
Proof.
  intros Hm. unfold gsub_from at 1. cbn [gsub_go]. rewrite Hm. f_equal.
  unfold gsub_from. apply gsub_go_fuel; apply m_bound in Hm; rewrite sdrop_length; lia.
Qed.

Lemma gsub_from_skip (p : option ascii) (c : ascii) (t : string) :
  (forall r k, m p (String c t) <> Some (r, S k)) ->
  gsub_from p (String c t) = String c (gsub_from (Some c) t).
Proof.
  intros Hm. unfold gsub_from at 1. cbn [gsub_go].
  destruct (m p (String c t)) as [[r [|k]]|] eqn:E; [done| |done].
  exfalso; by eapply Hm.
Qed.

Lemma gsub_from_nil (p : option ascii) : gsub_from p EmptyString = EmptyString.
Proof.
  unfold gsub_from. cbn [gsub_go].
  destruct (m p EmptyString) as [[r [|k]]|] eqn:E; [done| |done].
  apply m_bound in E. simpl in E. lia.
Qed.

(** Induction along the scan: a property of [(prev, s)] pairs proved for
    the empty input, for a match and for a skipped character holds for
    every input. *)
Lemma gsub_from_ind (P : option ascii -> string -> Prop) :
  (forall p, P p EmptyString) ->
  (forall p s r k, m p s = Some (r, S k) -> P (sget k s) (sdrop (S k) s) -> P p s) ->
  (forall p c t, (forall r k, m p (String c t) <> Some (r, S k)) -> P (Some c) t ->
     P p (String c t)) ->
  forall p s, P p s.
Proof.
  intros Hnil Hmatch Hskip p s.
  remember (String.length s) as n eqn:Hn.
  revert p s Hn; induction n as [n IH] using lt_wf_ind; intros p s Hn.
  destruct (m p s) as [[r [|k]]|] eqn:Hm.
  - destruct s as [|c t]; [apply Hnil|].
    apply Hskip; [intros r' k'; rewrite Hm; congruence|].
    eapply IH; [|done]. simpl in Hn; lia.
  - eapply Hmatch; [done|]. eapply IH; [|done].
    apply m_bound in Hm. rewrite sdrop_length. destruct s; simpl in *; lia.
  - destruct s as [|c t]; [apply Hnil|].
    apply Hskip; [intros r' k'; rewrite Hm; congruence|].
    eapply IH; [|done]. simpl in Hn; lia.
Qed.

(** A character predicate the input satisfies, the output satisfies,
    when every replacement is made of characters that satisfy it. *)
Lemma gsub_from_all_chars (P : ascii -> bool) :
  (forall p s r n, m p s = Some (r, n) -> all_chars P s = true -> all_chars P r = true) ->
  forall p s, all_chars P s = true -> all_chars P (gsub_from p s) = true.
Proof.
  intros Hr. apply (gsub_from_ind (fun p s => all_chars P s = true -> all_chars P (gsub_from p s) = true)).
  - intros p _. by rewrite gsub_from_nil.
  - intros p s r k Hm IH Hs. rewrite (gsub_from_match _ _ _ _ Hm), all_chars_app.
    rewrite (Hr _ _ _ _ Hm Hs), IH; [done|]. by apply all_chars_sdrop.
  - intros p c t Hm IH Hs. rewrite (gsub_from_skip _ _ _ Hm). simpl in *.
    apply andb_prop in Hs as [-> Ht]. by apply IH.
Qed.

(** A neighbour relation [R] of the input survives the scan when every
    replacement, put before any text whose first character stands to the
    left neighbours as the rest of the input did, keeps [R] inside and
    with the character before it. *)
Definition keeps_adj (R : ascii -> ascii -> bool) : Prop :=
  forall p s r k, m p s = Some (r, S k) -> adj_all R s = true ->
    forall x, (forall u, head_rel R u (sdrop (S k) s) = true -> head_rel R u x = true) ->
      adj_all R x = true ->
      adj_all R (r +:+ x) = true /\
      (forall u, head_rel R u s = true -> head_rel R u (r +:+ x) = true).

(** An expression that finds nothing in a string related by [R]. *)
Lemma keeps_adj_never (R : ascii -> ascii -> bool) :
  (forall p s r n, adj_all R s = true -> m p s = Some (r, n) -> False) -> keeps_adj R.
Proof. intros Hn p s r k Hm Hs. by destruct (Hn p s r (S k) Hs Hm). Qed.

Lemma gsub_from_adj_all (R : ascii -> ascii -> bool) :
  keeps_adj R ->
  forall p s, adj_all R s = true ->
    adj_all R (gsub_from p s) = true /\
    (forall u, head_rel R u s = true -> head_rel R u (gsub_from p s) = true).
Proof.
  intros Hr.
  apply (gsub_from_ind (fun p s => adj_all R s = true ->
    adj_all R (gsub_from p s) = true /\
    (forall u, head_rel R u s = true -> head_rel R u (gsub_from p s) = true))).
  - intros p _. by rewrite gsub_from_nil.
  - intros p s r k Hm IH Hs. rewrite (gsub_from_match _ _ _ _ Hm).
    destruct (IH (adj_all_sdrop _ _ _ Hs)) as [Hx Hhx]. by apply (Hr _ _ _ _ Hm Hs).
  - intros p c t Hm IH Hs. rewrite (gsub_from_skip _ _ _ Hm).
    rewrite adj_all_cons in Hs. apply andb_prop in Hs as [Hc Ht].
    destruct (IH Ht) as [Hx Hhx]. rewrite adj_all_cons, Hx, Hhx by done.
    split; [done|]. by intros u Hu.
Qed.

(** A replacement never longer than the text it replaces never makes the
    string longer. *)
Hypothesis m_shrink : forall p s r n, m p s = Some (r, n) -> String.length r <= n.

Lemma gsub_from_length (p : option ascii) (s : string) :
  String.length (gsub_from p s) <= String.length s.
Proof.
  revert p s. apply gsub_from_ind.
  - intros p. by rewrite gsub_from_nil.
  - intros p s r k Hm IH. rewrite (gsub_from_match _ _ _ _ Hm), slen_app.
    pose proof (m_shrink _ _ _ _ Hm). pose proof (m_bound _ _ _ _ Hm).
    rewrite sdrop_length in IH. lia.
  - intros p c t Hm IH. rewrite (gsub_from_skip _ _ _ Hm). simpl. lia.
Qed.

Lemma gsub_length (s : string) : String.length (gsub s) <= String.length s.
Proof. apply gsub_from_length. Qed.
End Gsub.

Arguments gsub_from_match {m} m_bound p s r k.
Arguments gsub_from_skip {m} p c t.

(** ** Matchers whose replacement is never longer than the match

    The interface between an expression and the scan: an instance gives the
    two facts [gsub_length] needs, so the length theorem of each pipeline is
    a composition of instances. *)
Class Shrinking (m : matcher) : Prop := {
  shrinking_bound : forall p s r n, m p s = Some (r, n) -> n <= String.length s;
  shrinking_le : forall p s r n, m p s = Some (r, n) -> String.length r <= n
}.

Lemma gsub_shrinks (m : matcher) `{Hm : !Shrinking m} (s : string) :
  String.length (gsub m s) <= String.length s.
Proof. apply gsub_length; apply Hm. Qed.

Lemma gsub_shrinks_le (m : matcher) `{!Shrinking m} (s : string) (n : nat) :
  String.length s <= n -> String.length (gsub m s) <= n.
Proof. pose proof (gsub_shrinks m s). lia. Qed.

(** Induction along the scan of a shrinking expression, for a goal
    [forall p s, P p s]. *)
Ltac gsub_induction m :=
  match goal with
  | |- forall p s, @?P p s => apply (gsub_from_ind m (@shrinking_bound m _) P)
  end; cbv beta.
