(* ===== verification/SimpleMinify.v ===== *)
(** * The regular-expression minifiers of [src/build-simple.js]

    [minifyFile] (lines 82-129) rewrites an HTML, CSS or JS file with a
    chain of [String.prototype.replace] calls. Each regular expression is a
    [matcher] (see [JsRegex]); each chain is the composition of [gsub]s in
    the order of the source, ending in [trim] for CSS and JS. The write
    guard of [minifyFile] and the file access are in [SimpleBuild].

    Theorems, each for every input: every pipeline never lengthens its
    input; the HTML pipeline leaves no two adjacent whitespace characters;
    the JS comment rule deletes the character before [//]; the JS and CSS
    pipelines put the text on one line; no whitespace is left next to a JS
    operator or a CSS syntax character. The last three are proved by
    carrying a predicate through the chain: the first rule that
    establishes it ([/\s+/g], line 101's or line 114's rule) and the
    lemmas of [JsRegex] for the steps that keep it. Three runs on text of
    the site close the file. *)

From S2P Require Import Prelude JsString JsRegex.
From Stdlib Require Import Ascii String.

(** ** The expressions *)

(** [/<!--[\s\S]*?-->/] (line 91): the shortest text from [<!--] to the
    first [-->] after it. *)
Definition m_html_comment : matcher := fun _ s =>
  if String.prefix "<!--" s then
    match index_of "-->" (sdrop 4 s) with
    | Some i => Some (EmptyString, 4 + i + 3)
    | None => None
    end
  else None.

(** [/\s+/] replaced by one space (lines 92, 100, 113). *)
Definition m_ws_run : matcher := fun _ s =>
  match ws_prefix_len s with
  | 0 => None
  | n => Some (" ", n)
  end.

(** [/>\s+</] replaced by [><] (line 93). *)
Definition m_tag_gap : matcher := fun _ s =>
  match s with
  | String c t =>
      let n := ws_prefix_len t in
      if Ascii.eqb c ">" && (0 <? n) && bool_decide (sget n t = Some "<"%char)
      then Some ("><", n + 2) else None
  | EmptyString => None
  end.

(** [/\/\*[\s\S]*?\*\//] (lines 99 and 112). *)
Definition m_block_comment : matcher := fun _ s =>
  if String.prefix "/*" s then
    match index_of "*/" (sdrop 2 s) with
    | Some i => Some (EmptyString, 2 + i + 2)
    | None => None
    end
  else None.

(** [/\s*([cls])\s*/] replaced by [$1] (lines 101, 104, 105, 114): the
    whitespace on both sides of one character of the class. *)
Definition m_spaced_punct (cls : string) : matcher := fun _ s =>
  let k := ws_prefix_len s in
  match sget k s with
  | Some c =>
      if in_class cls c
      then Some (String c EmptyString, k + 1 + ws_prefix_len (sdrop (S k) s))
      else None
  | None => None
  end.

(** A literal [lit] replaced by [rep]: [/;}/] to [}] (line 102). *)
Definition m_literal (lit rep : string) : matcher := fun _ s =>
  if String.prefix lit s then Some (rep, String.length lit) else None.

(** [/\s*lit/] replaced by [lit]: [/\s*!important/] (line 103). *)
Definition m_ws_then (lit : string) : matcher := fun _ s =>
  let k := ws_prefix_len s in
  if String.prefix lit (sdrop k s) then Some (lit, k + String.length lit) else None.

(** [/([cls])\s+/] replaced by [$1] (line 115). *)
Definition m_punct_then_ws (cls : string) : matcher := fun _ s =>
  match s with
  | String c t =>
      if in_class cls c then
        match ws_prefix_len t with
        | 0 => None
        | k => Some (String c EmptyString, 1 + k)
        end
      else None
  | EmptyString => None
  end.

(** [/\s+([cls])/] replaced by [$1] (line 116). *)
Definition m_ws_then_punct (cls : string) : matcher := fun _ s =>
  match ws_prefix_len s with
  | 0 => None
  | k =>
      match sget k s with
      | Some c => if in_class cls c then Some (String c EmptyString, k + 1) else None
      | None => None
      end
  end.

(** [^] in multiline mode: the start of the input or just after a line
    terminator. *)
Definition at_line_start (prev : option ascii) : bool :=
  match prev with
  | None => true
  | Some c => is_line_terminator c
  end.

(** [/\/\*[\s\S]*?\*\/|([^\\:]|^)\/\/.*$/gm] replaced by the empty string
    (line 112). The first alternative is a block comment. The second is a
    line comment preceded either by one character other than [\] and [:],
    which is part of the match and so is deleted too, or by the start of a
    line; [.*$] runs to the end of the line. *)
Definition m_js_comment : matcher := fun prev s =>
  match m_block_comment prev s with
  | Some r => Some r
  | None =>
      match s with
      | String c t =>
          if negb (in_class "\:" c) && String.prefix "//" t
          then Some (EmptyString, 3 + line_prefix_len (sdrop 2 t))
          else if at_line_start prev && String.prefix "//" s
          then Some (EmptyString, 2 + line_prefix_len (sdrop 2 s))
          else None
      | EmptyString => None
      end
  end.

(** The operator class of line 114 and the syntax class of lines 115-116. *)
Definition js_ops : string := "=+-*/%!&|^~<>?;:,{}()[]".
Definition js_syntax : string := ";{}[](),".
Definition css_syntax : string := "{}|:;,".

(** ** The pipelines of [minifyFile] *)

(** Lines 89-94. *)
Definition minify_html (content : string) : string :=
  gsub m_tag_gap (gsub m_ws_run (gsub m_html_comment content)).

(** Lines 97-107. *)
Definition minify_css (content : string) : string :=
  trim
    (gsub (m_spaced_punct "}")
      (gsub (m_spaced_punct "{")
        (gsub (m_ws_then "!important")
          (gsub (m_literal ";}" "}")
            (gsub (m_spaced_punct css_syntax)
              (gsub m_ws_run
                (gsub m_block_comment content))))))).

(** Lines 110-118. *)
Definition minify_js (content : string) : string :=
  trim
    (gsub (m_ws_then_punct js_syntax)
      (gsub (m_punct_then_ws js_syntax)
        (gsub (m_spaced_punct js_ops)
          (gsub m_ws_run
            (gsub m_js_comment content))))).

(** The [switch (type)] of lines 87-119: [minified] starts as [content] and
    an unknown type leaves it so. *)
Definition minify_by_type (type content : string) : string :=
  if String.eqb type "html" then minify_html content
  else if String.eqb type "css" then minify_css content
  else if String.eqb type "js" then minify_js content
  else content.

(** ** Every expression replaces a match by text no longer than it *)

(** Case on every test of a matcher, then conclude from the scan lengths. *)
Ltac matcher_shrinks :=
  split; intros p s r n; cbv zeta;
  repeat (case_match; try discriminate);
  try match goal with |- Some ?x = _ -> _ => is_var x; destruct x end;
  let Heq := fresh in intros Heq; apply Some_pair_inj in Heq as [<- <-];
  repeat match goal with H : Some (_, _) = Some (_, _) |- _ =>
    apply Some_pair_inj in H as [<- <-] end;
  scan_lengths.

#[export] Instance m_html_comment_shrinking : Shrinking m_html_comment.
Proof. unfold m_html_comment; matcher_shrinks. Qed.
#[export] Instance m_ws_run_shrinking : Shrinking m_ws_run.
Proof. unfold m_ws_run; matcher_shrinks. Qed.
#[export] Instance m_tag_gap_shrinking : Shrinking m_tag_gap.
Proof. unfold m_tag_gap; matcher_shrinks. Qed.
#[export] Instance m_block_comment_shrinking : Shrinking m_block_comment.
Proof. unfold m_block_comment; matcher_shrinks. Qed.
#[export] Instance m_spaced_punct_shrinking cls : Shrinking (m_spaced_punct cls).
Proof. unfold m_spaced_punct; matcher_shrinks. Qed.
#[export] Instance m_literal_shrinking lit rep :
  TCEq (String.length rep <=? String.length lit) true -> Shrinking (m_literal lit rep).
Proof. intros Hle%TCEq_eq%Nat.leb_le. unfold m_literal; matcher_shrinks. Qed.
#[export] Instance m_ws_then_shrinking lit : Shrinking (m_ws_then lit).
Proof. unfold m_ws_then; matcher_shrinks. Qed.
#[export] Instance m_punct_then_ws_shrinking cls : Shrinking (m_punct_then_ws cls).
Proof. unfold m_punct_then_ws; matcher_shrinks. Qed.
#[export] Instance m_ws_then_punct_shrinking cls : Shrinking (m_ws_then_punct cls).
Proof. unfold m_ws_then_punct; matcher_shrinks. Qed.
#[export] Instance m_js_comment_shrinking : Shrinking m_js_comment.
Proof. unfold m_js_comment, m_block_comment; matcher_shrinks. Qed.

(** ** Length *)

(** Each step of a chain is a [gsub] of a shrinking expression or [trim]. *)
Ltac chain_shrinks :=
  repeat first [apply gsub_shrinks_le; [tc_solve|] | apply trim_length_le]; done.

Lemma minify_html_length (content : string) :
  String.length (minify_html content) <= String.length content.
Proof. unfold minify_html. chain_shrinks. Qed.

Lemma minify_css_length (content : string) :
  String.length (minify_css content) <= String.length content.
Proof. unfold minify_css. chain_shrinks. Qed.

Lemma minify_js_length (content : string) :
  String.length (minify_js content) <= String.length content.
Proof. unfold minify_js. chain_shrinks. Qed.

(** C5: whatever the file type, the text [minifyFile] computes is never
    longer than the file it read. *)
Theorem minify_by_type_length (type content : string) :
  String.length (minify_by_type type content) <= String.length content.
Proof.
  unfold minify_by_type.
  repeat case_match; auto using minify_html_length, minify_css_length, minify_js_length.
Qed.

(** ** Whitespace runs *)

(** A character the scan of [/\s+/g] copies is not whitespace. *)
Lemma m_ws_run_skip (p : option ascii) (c : ascii) (t : string) :
  (forall r k, m_ws_run p (String c t) <> Some (r, S k)) -> is_ws c = false.
Proof.
  intros Hm. destruct (is_ws c) eqn:E; [|done]. exfalso.
  apply (Hm " " (ws_prefix_len t)). unfold m_ws_run. simpl. by rewrite E.
Qed.

(** After [/\s+/g] to [' '], no two adjacent characters are whitespace, and
    an input that starts with a non-whitespace character still starts with
    it. *)
Lemma gsub_ws_run_no_pair (p : option ascii) (s : string) :
  no_ws_pair (gsub_from m_ws_run p s) = true /\
  (forall c t, s = String c t -> is_ws c = false ->
     exists u, gsub_from m_ws_run p s = String c u).
Proof.
  revert p s. gsub_induction m_ws_run.
  - intros p. rewrite gsub_from_nil by apply (@shrinking_bound m_ws_run _). done.
  - intros p s r k Hm [IHpair IHhead].
    rewrite (gsub_from_match (@shrinking_bound m_ws_run _) _ _ _ _ Hm).
    unfold m_ws_run in Hm. destruct (ws_prefix_len s) as [|n] eqn:Hn; [done|].
    apply Some_pair_inj in Hm as [<- [= ->]].
    split.
    + rewrite sapp_cons, sapp_nil_l, adj_all_cons, IHpair, andb_true_r.
      destruct (sdrop (S k) s) as [|d t] eqn:Hd.
      * by rewrite gsub_from_nil by apply (@shrinking_bound m_ws_run _).
      * assert (is_ws d = false) as Hd'.
        { apply (ws_prefix_len_stop s). rewrite Hn. by eapply sdrop_sget. }
        destruct (IHhead d t eq_refl Hd') as [u ->]. simpl. by rewrite Hd'.
    + intros c t -> Hc. simpl in Hn. by rewrite Hc in Hn.
  - intros p c t Hm [IHpair _]. rewrite (gsub_from_skip p c t Hm).
    pose proof (m_ws_run_skip p c t Hm) as Hc.
    split; [|by intros ?? [= <- <-] _; eauto].
    rewrite adj_all_cons, IHpair, andb_true_r.
    destruct (gsub_from _ _ _); simpl; [done|]. by rewrite Hc.
Qed.

(** [/>\s+</g] to ['><'] deletes whitespace between two non-whitespace
    characters, so it keeps a string free of whitespace pairs and keeps its
    first character. *)
Lemma gsub_tag_gap_no_pair (p : option ascii) (s : string) :
  no_ws_pair s = true ->
  no_ws_pair (gsub_from m_tag_gap p s) = true /\
  sget 0 (gsub_from m_tag_gap p s) = sget 0 s.
Proof.
  revert p s. gsub_induction m_tag_gap.
  - intros p Hs. by rewrite gsub_from_nil by apply (@shrinking_bound m_tag_gap _).
  - intros p s r k Hm IH Hs.
    rewrite (gsub_from_match (@shrinking_bound m_tag_gap _) _ _ _ _ Hm).
    destruct (IH (adj_all_sdrop _ _ _ Hs)) as [IHpair _].
    unfold m_tag_gap in Hm. destruct s as [|c t]; [done|].
    destruct (Ascii.eqb c ">" && _ && _) eqn:Hc; [|done].
    apply Some_pair_inj in Hm as [<- _].
    apply andb_prop in Hc as [[Hc%Ascii.eqb_eq _]%andb_prop _]. subst c.
    split; [|done].
    rewrite !sapp_cons, sapp_nil_l, !adj_all_cons, IHpair, andb_true_r. simpl.
    by destruct (gsub_from _ _ _).
  - intros p c t Hm IH Hs.
    rewrite (gsub_from_skip p c t Hm).
    destruct (IH (adj_all_sdrop _ 1 _ Hs)) as [IHpair IHhead].
    split; [|done].
    rewrite adj_all_cons, IHpair, (head_rel_sget _ _ _ _ IHhead), andb_true_r.
    rewrite adj_all_cons in Hs. by apply andb_prop in Hs as [-> _].
Qed.

(** C6: the HTML minifier leaves no two adjacent whitespace characters:
    every run of whitespace of the page is at most one character. *)
Theorem minify_html_no_ws_pair (content : string) :
  no_ws_pair (minify_html content) = true.
Proof.
  unfold minify_html, gsub.
  apply gsub_tag_gap_no_pair, gsub_ws_run_no_pair.
Qed.

(** ** Where the textual minifiers change the program *)

(** C8: the comment rule of the JS minifier (line 112) deletes, together with
    a [//] comment, the character just before it when that character is not
    [\] or [:]: [([^\\:]|^)] is part of the match and the replacement is
    empty, not [$1]. *)
Theorem js_comment_eats_previous_char (c : ascii) (comment : string) :
  in_class "\:" c = false -> one_line comment = true ->
  gsub m_js_comment (String c ("//" +:+ comment)) = EmptyString.
Proof.
  intros Hc Hl. unfold gsub.
  change ("//" +:+ comment) with (String "/" (String "/" comment)).
  assert (m_js_comment None (String c (String "/" (String "/" comment))) =
          Some (EmptyString, 3 + String.length comment)) as Hm.
  { unfold m_js_comment, m_block_comment. rewrite Hc.
    assert (String.prefix "/*" (String c (String "/" (String "/" comment))) = false) as ->.
    { simpl. repeat case_match; congruence. }
    simpl. rewrite prefix_empty. by rewrite line_prefix_len_one_line. }
  rewrite (gsub_from_match (@shrinking_bound m_js_comment _) _ _ _ _ Hm).
  simpl. rewrite sdrop_all.
  by rewrite gsub_from_nil by apply (@shrinking_bound m_js_comment _).
Qed.

Lemma js_comment_eats_previous_char_witness :
  in_class "\:" ";" = false /\ one_line " done" = true /\
  gsub m_js_comment (String ";" ("//" +:+ " done")) = EmptyString.
Proof.
  split; [reflexivity|]. split; [reflexivity|].
  apply js_comment_eats_previous_char; reflexivity.
Defined.

(** ** One line *)

(** After [/\s+/g] to [' '] no line terminator is left. *)
Lemma gsub_ws_run_one_line (p : option ascii) (s : string) :
  one_line (gsub_from m_ws_run p s) = true.
Proof.
  revert p s. gsub_induction m_ws_run.
  - intros p. by rewrite gsub_from_nil by apply (@shrinking_bound m_ws_run _).
  - intros p s r k Hm IH.
    rewrite (gsub_from_match (@shrinking_bound m_ws_run _) _ _ _ _ Hm), all_chars_app, IH.
    unfold m_ws_run in Hm. destruct (ws_prefix_len s); [done|].
    by apply Some_pair_inj in Hm as [<- _].
  - intros p c t Hm IH. rewrite (gsub_from_skip p c t Hm). simpl. rewrite IH, andb_true_r.
    apply negb_true_iff. destruct (is_line_terminator c) eqn:E; [|done].
    apply is_line_terminator_ws in E. by rewrite (m_ws_run_skip p c t Hm) in E.
Qed.

(** The replacement of every match is made of characters of the input:
    the [$1] of a class, or the literal the expression found. *)
Class FromInput (m : matcher) : Prop :=
  from_input : forall p s r n (P : ascii -> bool),
    m p s = Some (r, n) -> all_chars P s = true -> all_chars P r = true.

#[export] Instance m_spaced_punct_from_input cls : FromInput (m_spaced_punct cls).
Proof.
  intros p s r n P. unfold m_spaced_punct. cbv zeta.
  destruct (sget _ s) as [c|] eqn:E; [|done]. case_match; [|done].
  intros [= <- _] Hs. simpl. by rewrite (all_chars_sget P s _ c Hs E).
Qed.

#[export] Instance m_punct_then_ws_from_input cls : FromInput (m_punct_then_ws cls).
Proof.
  intros p [|c t] r n P; [done|]. unfold m_punct_then_ws.
  repeat (case_match; try done). intros [= <- _]. simpl. by intros [-> _]%andb_prop.
Qed.

#[export] Instance m_ws_then_punct_from_input cls : FromInput (m_ws_then_punct cls).
Proof.
  intros p s r n P. unfold m_ws_then_punct.
  repeat (case_match; try done). intros [= <- _] Hs. simpl. rewrite andb_true_r.
  eapply all_chars_sget; eassumption.
Qed.

#[export] Instance m_ws_then_from_input lit : FromInput (m_ws_then lit).
Proof.
  intros p s r n P. unfold m_ws_then. cbv zeta. case_match eqn:E; [|done].
  intros [= <- _] Hs. apply (prefix_all_chars P lit _ E). by apply all_chars_sdrop.
Qed.

Lemma gsub_all_chars (m : matcher) `{!Shrinking m, !FromInput m} (P : ascii -> bool) (s : string) :
  all_chars P s = true -> all_chars P (gsub m s) = true.
Proof.
  intros Hs. unfold gsub. apply (gsub_from_all_chars m (@shrinking_bound m _) P); [|done].
  intros ????. by apply from_input.
Qed.

Lemma gsub_literal_all_chars (lit rep : string) (P : ascii -> bool) (s : string) :
  all_chars P rep = true -> all_chars P s = true -> all_chars P (gsub (m_literal lit rep) s) = true.
Proof.
  intros Hrep Hs. unfold gsub. apply (gsub_from_all_chars (m_literal lit rep)); [| |done].
  - intros p t r n. unfold m_literal. case_match eqn:E; [|done]. intros [= _ <-]. by apply sprefix_length.
  - intros p t r n. unfold m_literal. case_match; [|done]. by intros [= <- _].
Qed.

(** Carry a character predicate back through the steps of a chain that
    only keep or reorder what they found. *)
Ltac chain_chars :=
  repeat first [ apply all_chars_trim
               | apply gsub_all_chars; [tc_solve | tc_solve |]
               | apply gsub_literal_all_chars; [reflexivity|] ].

(** C9: the JS and the CSS minifiers put the whole file on one line:
    [/\s+/g] (lines 100 and 113) turns every line break into a space and
    no later rule brings one back. A JS statement that ends at a line
    break without a [;] (automatic semicolon insertion) runs into the next
    one: [let x = 1] newline [let y = 2] becomes [let x=1 let y=2], which
    does not parse. *)
Theorem minify_single_line (content : string) :
  one_line (minify_js content) = true /\ one_line (minify_css content) = true.
Proof.
  split; [unfold minify_js | unfold minify_css]; chain_chars; apply gsub_ws_run_one_line.
Qed.

(** ** No whitespace next to a syntax character *)

(** [a] then [b] is not whitespace next to a character of [cls]. *)
Definition ws_apart (cls : string) (a b : ascii) : bool :=
  negb (is_ws a && in_class cls b) && negb (in_class cls a && is_ws b).

Lemma ws_apart_non_ws (cls : string) (a b : ascii) :
  is_ws a = false -> is_ws b = false -> ws_apart cls a b = true.
Proof. intros Ha Hb. unfold ws_apart. by rewrite Ha, Hb, andb_false_r. Qed.

Section Apart.
Variable cls : string.
Hypothesis cls_no_ws : all_chars (fun c => negb (is_ws c)) cls = true.

Lemma cls_not_ws (c : ascii) : in_class cls c = true -> is_ws c = false.
Proof. intros Hc. apply negb_true_iff. exact (in_class_all_chars _ _ _ cls_no_ws Hc). Qed.

Lemma ws_not_cls (c : ascii) : is_ws c = true -> in_class cls c = false.
Proof. intros Hc. destruct (in_class cls c) eqn:E; [|done]. by rewrite (cls_not_ws c E) in Hc. Qed.

(** The first character the scan of [/\s*([cls])\s*/g] writes: the kept
    character of a match at the start, or else the first input
    character. *)
Definition spaced_head (s : string) : option ascii :=
  match m_spaced_punct cls None s with Some (r, _) => sget 0 r | None => sget 0 s end.

Lemma spaced_head_not_ws (s : string) (d : ascii) :
  (forall e, sget 0 s = Some e -> is_ws e = false) -> spaced_head s = Some d -> is_ws d = false.
Proof.
  intros Hs. unfold spaced_head, m_spaced_punct. cbv zeta.
  destruct (sget (ws_prefix_len s) s) as [c|]; [|apply Hs].
  destruct (in_class cls c) eqn:E; [|apply Hs]. intros [= <-]. by apply cls_not_ws.
Qed.

Lemma spaced_punct_none (p : option ascii) (s : string) :
  (forall r k, m_spaced_punct cls p s <> Some (r, S k)) -> m_spaced_punct cls p s = None.
Proof.
  unfold m_spaced_punct. cbv zeta. intros Hm.
  destruct (sget _ s) as [c|]; [|done]. case_match; [|done]. exfalso.
  apply (Hm (String c "") (ws_prefix_len s + ws_prefix_len (sdrop (S (ws_prefix_len s)) s))).
  by rewrite Nat.add_1_r.
Qed.

Lemma spaced_punct_inv (p : option ascii) (s r : string) (n : nat) :
  m_spaced_punct cls p s = Some (r, n) ->
  exists c, sget (ws_prefix_len s) s = Some c /\ in_class cls c = true /\ r = String c "" /\
    n = S (ws_prefix_len s) + ws_prefix_len (sdrop (S (ws_prefix_len s)) s).
Proof.
  unfold m_spaced_punct. cbv zeta. destruct (sget _ s) as [c|]; [|done].
  destruct (in_class cls c) eqn:E; [|done].
  intros H. apply Some_pair_inj in H as [<- <-]. exists c. split_and!; [done..|]. lia.
Qed.

(** Line 101's scan leaves no whitespace next to a character of [cls],
    whatever its input: the run before such a character belongs to the
    match, the run after it too, and a whitespace character is copied
    only when its run ends before a character outside [cls]. *)
Lemma gsub_spaced_punct_apart (p : option ascii) (s : string) :
  adj_all (ws_apart cls) (gsub_from (m_spaced_punct cls) p s) = true /\
  sget 0 (gsub_from (m_spaced_punct cls) p s) = spaced_head s.
Proof.
  revert p s. gsub_induction (m_spaced_punct cls).
  - intros p. rewrite gsub_from_nil by apply (@shrinking_bound (m_spaced_punct cls) _).
    split; reflexivity.
  - intros p s r k Hm [IHadj IHhead].
    rewrite (gsub_from_match (@shrinking_bound (m_spaced_punct cls) _) _ _ _ _ Hm).
    assert (spaced_head s = sget 0 r) as Hh.
    { unfold spaced_head. change (m_spaced_punct cls None s) with (m_spaced_punct cls p s).
      by rewrite Hm. }
    destruct (spaced_punct_inv _ _ _ _ Hm) as (c & Hc & Hcls & -> & Hk).
    rewrite Hh. split; [|done].
    rewrite sapp_cons, sapp_nil_l, adj_all_cons, IHadj, andb_true_r, head_rel_sget0, IHhead.
    destruct (spaced_head _) as [d|] eqn:Hd; [|done].
    apply ws_apart_non_ws; [by apply cls_not_ws|].
    apply (spaced_head_not_ws (sdrop (S k) s) d); [|exact Hd]. intros e He.
    rewrite Hk, <- sdrop_sdrop, sget_sdrop, Nat.add_0_r in He.
    by apply (ws_prefix_len_stop _ _ He).
  - intros p c t Hm [IHadj IHhead]. rewrite (gsub_from_skip p c t Hm).
    pose proof (spaced_punct_none p _ Hm) as Hn.
    assert (spaced_head (String c t) = Some c) as ->.
    { unfold spaced_head.
      change (m_spaced_punct cls None (String c t)) with (m_spaced_punct cls p (String c t)).
      by rewrite Hn. }
    split; [|done].
    rewrite adj_all_cons, IHadj, andb_true_r, head_rel_sget0, IHhead.
    unfold m_spaced_punct in Hn. cbv zeta in Hn. cbn [ws_prefix_len] in Hn.
    destruct (is_ws c) eqn:Ec.
    + cbn [sget] in Hn. unfold spaced_head, m_spaced_punct. cbv zeta.
      destruct (sget (ws_prefix_len t) t) as [e|] eqn:Ee.
      * destruct (in_class cls e) eqn:Ece; [done|].
        destruct t as [|d t]; [done|]. cbn [sget]. unfold ws_apart.
        rewrite Ec, (ws_not_cls c Ec). cbn [ws_prefix_len] in Ee.
        destruct (is_ws d) eqn:Ed; [by rewrite (ws_not_cls d Ed)|].
        injection Ee as ->. by rewrite Ece.
      * destruct t as [|d t]; [done|]. cbn [ws_prefix_len] in Ee.
        destruct (is_ws d) eqn:Ed; [|done]. cbn [sget]. unfold ws_apart.
        by rewrite Ec, (ws_not_cls c Ec), (ws_not_cls d Ed).
    + cbn [sget] in Hn. destruct (in_class cls c) eqn:Ecc; [done|].
      destruct (spaced_head t); [|done]. unfold ws_apart. by rewrite Ec, Ecc.
Qed.

End Apart.

(** ** The steps after lines 101 and 114 keep the syntax characters apart *)

(** A replacement none of whose characters is whitespace or of [cls]
    stands apart from anything. *)
Lemma neutral_apart (cls r x : string) :
  r <> EmptyString -> all_chars (fun a => negb (is_ws a) && negb (in_class cls a)) r = true ->
  adj_all (ws_apart cls) x = true ->
  adj_all (ws_apart cls) (r +:+ x) = true /\ (forall u, head_rel (ws_apart cls) u (r +:+ x) = true).
Proof.
  intros Hr Hn Hx. induction r as [|a r IH]; [done|]. clear Hr.
  cbn [all_chars] in Hn. apply andb_prop in Hn as [Ha Hn].
  apply andb_prop in Ha as [Hw%negb_true_iff Hc%negb_true_iff].
  rewrite sapp_cons, adj_all_cons. split.
  - destruct r as [|b r].
    + rewrite sapp_nil_l, Hx, andb_true_r. destruct x as [|b x]; [done|].
      unfold head_rel, ws_apart. by rewrite Hw, Hc.
    + destruct IH as [IH1 IH2]; [done | done |]. by rewrite IH1, IH2.
  - intros u. unfold head_rel, ws_apart. by rewrite Hw, Hc, !andb_false_r.
Qed.

(** [/\s*([small])\s*/g] on a string where no whitespace is next to a
    character of [big] (a class containing [small]) only matches single
    characters, which it keeps. *)
Lemma spaced_punct_keeps (small big : string) :
  all_in big small = true -> keeps_adj (m_spaced_punct small) (ws_apart big).
Proof.
  intros Hsub p s r k Hm Hs.
  destruct (spaced_punct_inv small _ _ _ _ Hm) as (c & Hc & Hsc & -> & Hk).
  pose proof (in_class_all_chars _ _ _ Hsub Hsc) as Hbc.
  destruct (ws_prefix_len s) as [|w] eqn:Hw; rewrite ?Hw in Hc, Hk.
  - destruct s as [|c' t]; [done|]. injection Hc as ->.
    destruct t as [|d t]; cbn [sdrop ws_prefix_len] in Hk.
    + assert (k = 0) as -> by lia. intros x Hx Hax. by apply adj_all_keep.
    + destruct (is_ws d) eqn:Hd.
      * exfalso. rewrite adj_all_cons in Hs. apply andb_prop in Hs as [Hs _].
        unfold head_rel, ws_apart in Hs. by rewrite Hbc, Hd, andb_false_r in Hs.
      * assert (k = 0) as -> by lia. intros x Hx Hax. by apply adj_all_keep.
  - exfalso. destruct (sget_lt w s) as [a Ha]; [pose proof (ws_prefix_len_le s); lia|].
    assert (is_ws a = true) as Hwa by (apply (ws_prefix_len_ws s w a); [lia | done]).
    pose proof (adj_all_sget _ s w a c Hs Ha Hc) as H. unfold ws_apart in H.
    by rewrite Hwa, Hbc in H.
Qed.

(** [/;}/g] to ['}'] (line 102) keeps [css_syntax] characters apart. *)
Lemma literal_semi_brace_keeps : keeps_adj (m_literal ";}" "}") (ws_apart css_syntax).
Proof.
  intros p s r k Hm Hs x Hx Hax. unfold m_literal in Hm.
  destruct (String.prefix ";}" s) eqn:Hp; [|done]. apply Some_pair_inj in Hm as [<- [= <-]].
  destruct (sprefix_app_inv _ _ Hp) as [t ->]. change (";}" +:+ t) with (String ";" (String "}" t)) in *.
  rewrite (adj_all_cons _ ";") in Hs. apply andb_prop in Hs as [_ Hs].
  rewrite adj_all_cons in Hs. apply andb_prop in Hs as [Hb _].
  rewrite sapp_cons, sapp_nil_l, adj_all_cons, Hax, (Hx _ Hb). split; [done|].
  intros u Hu. exact Hu.
Qed.

(** [/\s*!important/g] to ['!important'] (line 103): no character of
    [!important] is whitespace or of [css_syntax]. *)
Lemma important_keeps : keeps_adj (m_ws_then "!important") (ws_apart css_syntax).
Proof.
  intros p s r k Hm Hs x Hx Hax. unfold m_ws_then in Hm. cbv zeta in Hm.
  destruct (String.prefix _ _); [|done]. apply Some_pair_inj in Hm as [<- _].
  destruct (neutral_apart css_syntax "!important" x) as [H1 H2]; [done | reflexivity | done |].
  split; [done|]. intros u _. apply H2.
Qed.

(** Lines 115-116 find nothing once line 114 has run: their class is part
    of the operator class. *)
Lemma punct_then_ws_keeps (small big : string) :
  all_in big small = true -> keeps_adj (m_punct_then_ws small) (ws_apart big).
Proof.
  intros Hsub. apply keeps_adj_never. intros p [|c t] r n Hs; [done|]. unfold m_punct_then_ws.
  destruct (in_class small c) eqn:Hc; [|done]. destruct t as [|d t]; [done|].
  cbn [ws_prefix_len]. destruct (is_ws d) eqn:Hd; [|done]. intros _.
  rewrite adj_all_cons in Hs. apply andb_prop in Hs as [Hs _]. unfold head_rel, ws_apart in Hs.
  by rewrite (in_class_all_chars _ _ _ Hsub Hc), Hd, andb_false_r in Hs.
Qed.

Lemma ws_then_punct_keeps (small big : string) :
  all_in big small = true -> keeps_adj (m_ws_then_punct small) (ws_apart big).
Proof.
  intros Hsub. apply keeps_adj_never. intros p s r n Hs. unfold m_ws_then_punct.
  destruct (ws_prefix_len s) as [|w] eqn:Hw; [done|].
  destruct (sget (S w) s) as [c|] eqn:Hc; [|done].
  destruct (in_class small c) eqn:Hsc; [|done]. intros _.
  destruct (sget_lt w s) as [a Ha]; [pose proof (ws_prefix_len_le s); lia|].
  assert (is_ws a = true) as Hwa by (apply (ws_prefix_len_ws s w a); [lia | done]).
  pose proof (adj_all_sget _ s w a c Hs Ha Hc) as H. unfold ws_apart in H.
  by rewrite Hwa, (in_class_all_chars _ _ _ Hsub Hsc) in H.
Qed.

Lemma gsub_keeps_adj (m : matcher) `{!Shrinking m} (R : ascii -> ascii -> bool) (s : string) :
  keeps_adj m R -> adj_all R s = true -> adj_all R (gsub m s) = true.
Proof. intros Hk Hs. exact (proj1 (gsub_from_adj_all m (@shrinking_bound m _) R Hk None s Hs)). Qed.

Lemma gsub_spaced_apart (cls s : string) :
  all_chars (fun c => negb (is_ws c)) cls = true ->
  adj_all (ws_apart cls) (gsub (m_spaced_punct cls) s) = true.
Proof. intros H. exact (proj1 (gsub_spaced_punct_apart cls H None s)). Qed.

(** C10: in the JS output no whitespace character stands next to a
    character of the operator class of line 114, whatever the input. The
    rule knows nothing of string literals: the message of
    [alert('Thank you for your message! We will get back to you soon.')]
    ([src/assets/js/main.js] line 161) loses the space after [!]. *)
Theorem minify_js_ops_apart (content : string) :
  adj_all (ws_apart js_ops) (minify_js content) = true.
Proof.
  unfold minify_js. apply adj_all_trim.
  apply gsub_keeps_adj; [tc_solve | by apply ws_then_punct_keeps|].
  apply gsub_keeps_adj; [tc_solve | by apply punct_then_ws_keeps|].
  by apply gsub_spaced_apart.
Qed.

(** C11: in the CSS output no whitespace stands next to one of
    [{ } | : ; ,], whatever the input. The rule of line 101 also applies
    inside selectors: the descendant selector [div :first-child] (a first
    child inside a [div]) becomes [div:first-child] (a [div] that is a
    first child). *)
Theorem minify_css_syntax_apart (content : string) :
  adj_all (ws_apart css_syntax) (minify_css content) = true.
Proof.
  unfold minify_css. apply adj_all_trim.
  apply gsub_keeps_adj; [tc_solve | by apply spaced_punct_keeps|].
  apply gsub_keeps_adj; [tc_solve | by apply spaced_punct_keeps|].
  apply gsub_keeps_adj; [tc_solve | apply important_keeps|].
  apply gsub_keeps_adj; [tc_solve | apply literal_semi_brace_keeps|].
  by apply gsub_spaced_apart.
Qed.

(** ** Three runs on text of the site

    On two statements of which the first ends in [;] followed by a line
    comment, the JS minifier deletes the [;] (C8) and the line break (C9),
    so the output [f()g();] is no longer a valid program. *)
Example minify_js_joins_statements :
  minify_js "f();// call f
g();" = "f()g();".
Proof. vm_compute. reflexivity. Qed.

(** The operator rule (line 114) also rewrites string literals (C10): on the
    [alert] call of [src/assets/js/main.js] line 161 the space after [!]
    disappears from the message shown to the visitor. *)
Example minify_js_edits_alert_message :
  minify_js "alert('Thank you for your message! We will get back to you soon.');"
  = "alert('Thank you for your message!We will get back to you soon.');".
Proof. vm_compute. reflexivity. Qed.

(** The CSS rule of line 101 removes the space before [:] (C11), which turns
    the descendant selector [div :first-child] (any first child inside a
    [div]) into [div:first-child] (a [div] that is a first child). *)
Example minify_css_joins_pseudo_class :
  minify_css "div :first-child { color : red ; }" = "div:first-child{color:red}".
Proof. vm_compute. reflexivity. Qed.
