(* ===== verification/Sitemap.v ===== *)
(** * Generated artifacts: [sitemap.xml], [robots.txt], [sw.js]

    [generateSitemap] (build-simple.js lines 132-164, build.js lines
    184-216, identical text) builds an XML string in a [for] loop over a
    fixed page list; [generateRobotsTxt] (lines 167-178 and 219-230) and
    [generateServiceWorker] (build.js lines 151-181) write a trimmed
    template literal. This file holds the pure part: the strings. The
    writes of build-simple.js are in [SimpleBuild]. The date is the
    input [new Date().toISOString()]: the model takes the ISO string and
    applies [.split('T')[0]] to it.

    Theorems: a reader of the format ([parse_sitemap], the fields a crawler
    extracts) recovers from the generated document exactly one entry per
    page, in order, with the page's URL and the date (a print/parse round
    trip), hence the spec's test for the pages [''] and ['about']. *)

From S2P Require Import Prelude JsString.
From Stdlib Require Import Ascii String.

Definition LF : string := String "010"%char EmptyString.
Definition QT : string := String "034"%char EmptyString.

(** ** [generateSitemap] *)

(** [const pages = [...]] (lines 133-141). *)
Definition sitemap_pages : list string :=
  [""; "about"; "academics"; "admissions"; "gallery"; "news"; "contact"].

(** [const baseUrl] (line 143). *)
Definition base_url : string := "https://excelacademy.edu".

(** [new Date().toISOString().split('T')[0]] (line 144). *)
Definition iso_day (iso : string) : string :=
  match split_on "T" iso with
  | d :: _ => d
  | [] => EmptyString
  end.

(** [page ? `/${page}.html` : '/index.html'] (line 150): the empty string is
    the only falsy string. *)
Definition page_url (page : string) : string :=
  if String.eqb page "" then "/index.html" else "/" +:+ page +:+ ".html".

(** The six [sitemap +=] of one loop iteration (lines 151-156). *)
Definition url_entry (baseUrl date page : string) : string :=
  "  <url>" +:+ LF +:+
  "    <loc>" +:+ baseUrl +:+ page_url page +:+ "</loc>" +:+ LF +:+
  "    <lastmod>" +:+ date +:+ "</lastmod>" +:+ LF +:+
  "    <changefreq>weekly</changefreq>" +:+ LF +:+
  "    <priority>0.8</priority>" +:+ LF +:+
  "  </url>" +:+ LF.

(** Lines 146-147; [QT] is the double quote. *)
Definition sitemap_head : string :=
  "<?xml version=" +:+ QT +:+ "1.0" +:+ QT +:+ " encoding=" +:+ QT +:+ "UTF-8" +:+ QT +:+
  "?>" +:+ LF +:+
  "<urlset xmlns=" +:+ QT +:+ "http://www.sitemaps.org/schemas/sitemap/0.9" +:+ QT +:+
  ">" +:+ LF.

(** Lines 146-159: the accumulator starts with the two header lines, the
    loop appends one entry per page, the footer closes the set. *)
Definition sitemap_xml (pages : list string) (baseUrl date : string) : string :=
  fold_left (fun acc page => acc +:+ url_entry baseUrl date page) pages sitemap_head
  +:+ "</urlset>".

(** The document [generateSitemap] writes for the ISO timestamp [iso]. *)
Definition sitemap_content (iso : string) : string :=
  sitemap_xml sitemap_pages base_url (iso_day iso).

(** ** [generateRobotsTxt] *)

(** The template literal of lines 168-173, then [.trim()] (line 176). *)
Definition robots_template : string :=
  "# https://www.robotstxt.org/robotstxt.html" +:+ LF +:+
  "User-agent: *" +:+ LF +:+
  "Allow: /" +:+ LF +:+ LF +:+
  "Sitemap: https://excelacademy.edu/sitemap.xml" +:+ LF +:+ "  ".

Definition robots_content : string := trim robots_template.

(** ** [generateServiceWorker] (build.js) *)

(** [urlsToCache] (lines 154-160). *)
Definition sw_urls_to_cache : list string :=
  ["/"; "/index.html"; "/assets/css/styles.css"; "/assets/js/main.js";
   "/assets/images/logo.png"].

(** The template literal of lines 152-176, then [.trim()] (line 179): the
    cache name, the URL list, an install handler that adds every URL to the
    cache and a fetch handler that answers from the cache first. *)
Definition sw_template : string :=
  LF +:+ "    const CACHE_NAME = 'excel-academy-v1';" +:+ LF +:+
  "    const urlsToCache = [" +:+ LF +:+
  "      '/'," +:+ LF +:+
  "      '/index.html'," +:+ LF +:+
  "      '/assets/css/styles.css'," +:+ LF +:+
  "      '/assets/js/main.js'," +:+ LF +:+
  "      '/assets/images/logo.png'," +:+ LF +:+
  "      // Add other important assets to cache" +:+ LF +:+
  "    ];" +:+ LF +:+ LF +:+
  "    self.addEventListener('install', event => {" +:+ LF +:+
  "      event.waitUntil(" +:+ LF +:+
  "        caches.open(CACHE_NAME)" +:+ LF +:+
  "          .then(cache => cache.addAll(urlsToCache))" +:+ LF +:+
  "      );" +:+ LF +:+
  "    });" +:+ LF +:+ LF +:+
  "    self.addEventListener('fetch', event => {" +:+ LF +:+
  "      event.respondWith(" +:+ LF +:+
  "        caches.match(event.request)" +:+ LF +:+
  "          .then(response => response || fetch(event.request))" +:+ LF +:+
  "      );" +:+ LF +:+
  "    });" +:+ LF +:+ "  ".

Definition sw_content : string := trim sw_template.

(** ** Reading the sitemap back *)

(** What a crawler extracts from the document: the header, then entries of
    the fixed shape, each with the text of [<loc>] and [<lastmod>] (up to
    the next [<]), then the footer. *)

Definition strip (lit s : string) : option string :=
  if String.prefix lit s then Some (sdrop (String.length lit) s) else None.

Fixpoint take_until_lt (s : string) : string * string :=
  match s with
  | EmptyString => (EmptyString, EmptyString)
  | String c t =>
      if Ascii.eqb c "<" then (EmptyString, s)
      else let '(a, b) := take_until_lt t in (String c a, b)
  end.

Definition parse_entry (s : string) : option ((string * string) * string) :=
  s ← strip "  <url>" s; s ← strip LF s; s ← strip "    <loc>" s;
  let '(loc, s) := take_until_lt s in
  s ← strip "</loc>" s; s ← strip LF s; s ← strip "    <lastmod>" s;
  let '(date, s) := take_until_lt s in
  s ← strip "</lastmod>" s; s ← strip LF s;
  s ← strip "    <changefreq>weekly</changefreq>" s; s ← strip LF s;
  s ← strip "    <priority>0.8</priority>" s; s ← strip LF s;
  s ← strip "  </url>" s; s ← strip LF s;
  Some ((loc, date), s).

Fixpoint parse_entries (fuel : nat) (s : string) : option (list (string * string)) :=
  match fuel with
  | 0 => None
  | S fuel' =>
      if String.eqb s "</urlset>" then Some []
      else '(e, rest) ← parse_entry s; es ← parse_entries fuel' rest; Some (e :: es)
  end.

Definition parse_sitemap (s : string) : option (list (string * string)) :=
  s ← strip sitemap_head s; parse_entries (S (String.length s)) s.

(** No [<] in a field. *)
Definition no_lt (s : string) : bool := negb (in_class s "<").

Lemma strip_app (lit s : string) : strip lit (lit +:+ s) = Some s.
Proof. unfold strip. by rewrite sprefix_app, sdrop_app. Qed.

Lemma take_until_lt_cons (c : ascii) (t : string) :
  take_until_lt (String c t) =
  if Ascii.eqb c "<" then (EmptyString, String c t)
  else let '(a, b) := take_until_lt t in (String c a, b).
Proof. done. Qed.

Lemma take_until_lt_app (t u : string) :
  no_lt t = true ->
  take_until_lt (t +:+ u) = (t +:+ fst (take_until_lt u), snd (take_until_lt u)).
Proof.
  unfold no_lt. induction t as [|c t IH]; intros Ht.
  - rewrite !sapp_nil_l. by destruct (take_until_lt u).
  - rewrite !sapp_cons, take_until_lt_cons. rewrite in_class_cons in Ht.
    destruct (ascii_dec "<" c) as [->|Hc]; [done|].
    rewrite IH by done.
    destruct (Ascii.eqb_spec c "<"); [congruence|]. done.
Qed.

Lemma take_until_lt_stop (u : string) : take_until_lt ("<" +:+ u) = (EmptyString, "<" +:+ u).
Proof. done. Qed.

Lemma page_url_no_lt (page : string) : no_lt page = true -> no_lt (page_url page) = true.
Proof.
  unfold no_lt, page_url. intros Hp. case_match; [done|].
  rewrite !in_class_app. apply negb_true_iff in Hp. by rewrite Hp.
Qed.

Lemma fold_left_sapp {A} (f : A -> string) (xs : list A) (acc : string) :
  fold_left (fun a x => a +:+ f x) xs acc = acc +:+ foldr (fun x r => f x +:+ r) "" xs.
Proof.
  revert acc; induction xs as [|x xs IH]; intros acc; simpl; [by rewrite sapp_nil_r|].
  by rewrite IH, sapp_assoc.
Qed.

Lemma take_until_lt_lt_app (lit X : string) :
  sget 0 lit = Some "<"%char -> take_until_lt (lit +:+ X) = (EmptyString, lit +:+ X).
Proof. destruct lit as [|c lit]; [done|]. intros [= ->]. by rewrite sapp_cons, take_until_lt_cons. Qed.

(** One step of the reader on text that starts with a known literal or a
    field free of [<]. *)
Ltac parse_step :=
  first [ rewrite strip_app
        | rewrite take_until_lt_lt_app by done
        | rewrite take_until_lt_app by auto using page_url_no_lt ];
  cbv beta iota zeta delta [mbind option_bind fst snd].

Lemma parse_entry_url_entry (baseUrl date page rest : string) :
  no_lt baseUrl = true -> no_lt page = true -> no_lt date = true ->
  parse_entry (url_entry baseUrl date page +:+ rest) =
  Some ((baseUrl +:+ page_url page, date), rest).
Proof.
  intros Hb Hp Hd. unfold url_entry. rewrite <- !sapp_assoc.
  unfold parse_entry. repeat parse_step. by rewrite !sapp_nil_r.
Qed.

Definition url_entries (baseUrl date : string) (pages : list string) : string :=
  foldr (fun page r => url_entry baseUrl date page +:+ r) "" pages.

Lemma url_entries_length (baseUrl date : string) (pages : list string) :
  List.length pages <= String.length (url_entries baseUrl date pages).
Proof.
  induction pages as [|p ps IH]; cbn [url_entries foldr List.length]; [lia|].
  fold (url_entries baseUrl date ps). rewrite slen_app.
  unfold url_entry. rewrite sapp_cons. simpl. lia.
Qed.

Lemma parse_entries_url_entries (fuel : nat) (baseUrl date : string) (pages : list string) :
  List.length pages < fuel -> no_lt baseUrl = true -> no_lt date = true ->
  Forall (fun p => no_lt p = true) pages ->
  parse_entries fuel (url_entries baseUrl date pages +:+ "</urlset>") =
  Some (map (fun p => (baseUrl +:+ page_url p, date)) pages).
Proof.
  intros Hf Hb Hd Hps. revert fuel Hf.
  induction Hps as [|p ps Hp Hps IH]; intros [|fuel] Hf; simpl in Hf; try lia; [done|].
  cbn [parse_entries url_entries foldr]. fold (url_entries baseUrl date ps).
  rewrite <- sapp_assoc.
  assert (String.eqb (url_entry baseUrl date p +:+ (url_entries baseUrl date ps +:+ "</urlset>"))
            "</urlset>" = false) as -> by (unfold url_entry; by rewrite sapp_cons).
  rewrite parse_entry_url_entry by done. cbn [mbind option_bind].
  rewrite IH by lia. done.
Qed.

(** C7: reading back the document [generateSitemap] builds gives one
    [(loc, lastmod)] pair per page, in the order of the page list: the
    base URL followed by [/index.html] for the empty slug and by
    [/<slug>.html] otherwise, and the date; provided no field contains [<]. *)
Theorem sitemap_roundtrip (pages : list string) (baseUrl date : string) :
  no_lt baseUrl = true -> no_lt date = true -> Forall (fun p => no_lt p = true) pages ->
  parse_sitemap (sitemap_xml pages baseUrl date) =
  Some (map (fun p => (baseUrl +:+ page_url p, date)) pages).
Proof.
  intros Hb Hd Hps. unfold sitemap_xml, parse_sitemap.
  rewrite fold_left_sapp, <- sapp_assoc, strip_app. cbn [mbind option_bind].
  apply parse_entries_url_entries; auto.
  pose proof (url_entries_length baseUrl date pages) as H.
  unfold url_entries in H. rewrite slen_app. lia.
Qed.

(** The spec's test: pages [''] and ['about'] at the site's base URL give
    exactly two entries, [https://excelacademy.edu/index.html] and
    [https://excelacademy.edu/about.html]. *)
Lemma sitemap_roundtrip_witness :
  parse_sitemap (sitemap_xml [""; "about"] base_url "2026-11-09") =
  Some [("https://excelacademy.edu/index.html", "2026-11-09");
        ("https://excelacademy.edu/about.html", "2026-11-09")].
Proof.
  rewrite (sitemap_roundtrip [""; "about"] base_url "2026-11-09"); [reflexivity|reflexivity|reflexivity|].
  repeat constructor.
Defined.
