(* ===== verification/NodeFs.v ===== *)
(** * Node's [fs] and [path] modules on a file tree

    Both build scripts read and write one file system: they walk ['.'] and
    write into ['dist'], which lies inside ['.']. The model is that single
    store: a finite map from a path (its list of segments, ['.'] being the
    empty list) to an entry, a file with its bytes or a directory. The
    synchronous calls of the scripts ([lstatSync], [existsSync],
    [mkdirSync(..., {recursive: true})], [readdirSync], [readFileSync],
    [writeFileSync], [copyFileSync], [rmSync(..., {recursive: true})],
    [statSync]) are functions of the store that return [Err] where Node
    throws, with Node's error code. [readdirSync] lists the names in byte
    order, as libuv's [scandir] sorts them.

    [path.join(p, name)] for a name returned by [readdirSync] is [p ++
    [name]] (join normalises ['.'] away), [path.basename] is the last
    segment (['.'] for the root), [path.dirname] drops it, and
    [path.extname] follows Node's algorithm on the last segment.

    Well-formedness [fs_wf]: the root is a directory and the parent of every
    entry is a directory. Every operation that succeeds keeps it. *)

From S2P Require Import Prelude JsString.
From Stdlib Require Import Ascii.

Inductive entry : Type :=
| EFile (data : string)
| EDir.

#[export] Instance entry_eq_dec : EqDecision entry.
Proof. solve_decision. Defined.

Abbreviation path := (list string).

Inductive fs_error : Type :=
| ENOENT (p : path)
| ENOTDIR (p : path)
| EEXIST (p : path)
| EISDIR (p : path)
| ENAMETOOLONG (p : path)
(** The model ran out of fuel: not an error of Node, a bound of the model
    that the termination theorems show is not reached. *)
| OutOfFuel.

(** ** [path] *)

(** [path.join(p, name)] for a [name] of [readdirSync]: one more segment. *)
Notation "p </> x" := (p ++ [x]) (at level 50, left associativity) : xa_scope.

(** [path.basename(p)] *)
Definition basename (p : path) : string :=
  match last p with Some x => x | None => "." end.

(** [path.dirname(p)] *)
Definition dirname (p : path) : path := removelast p.

(** [p] rendered as the string the scripts hold: ['.'] for the root,
    segments joined by ['/'] otherwise. *)
Definition render (p : path) : string :=
  match p with [] => "." | _ => String.concat "/" p end.

(** Index of the last ['.'] of a string. *)
Fixpoint last_dot (s : string) : option nat :=
  match s with
  | EmptyString => None
  | String c t =>
      match last_dot t with
      | Some i => Some (S i)
      | None => if Ascii.eqb c "." then Some 0 else None
      end
  end.

(** [path.extname] on a segment (Node's [posix.extname]): from the last dot
    to the end, except when there is no dot, when the only dot starts the
    name (['.gitignore']), or for ['..']. *)
Definition extname_of (b : string) : string :=
  match last_dot b with
  | None | Some 0 => EmptyString
  | Some i => if String.eqb b ".." then EmptyString else sdrop i b
  end.

Definition extname (p : path) : string := extname_of (basename p).

(** ** The store *)

Abbreviation fs := (gmap path entry).

(** Node's error for a missing or wrong-kind path. *)
Definition is_dir (f : fs) (p : path) : bool :=
  bool_decide (f !! p = Some EDir).

(** [fs.existsSync(p)] *)
Definition exists_sync (f : fs) (p : path) : bool :=
  bool_decide (is_Some (f !! p)).

(** [fs.lstatSync(p).isDirectory()] *)
Definition lstat_is_dir (f : fs) (p : path) : res fs_error bool :=
  match f !! p with
  | Some EDir => Ok true
  | Some (EFile _) => Ok false
  | None => Err (ENOENT p)
  end.

(** [fs.mkdirSync(p, { recursive: true })]: create every missing directory
    on the way; an existing file on the way is [ENOTDIR], an existing file
    at [p] is [EEXIST]. *)
Fixpoint mkdir_go (f : fs) (base rest : path) : res fs_error fs :=
  match rest with
  | [] => Ok f
  | x :: rest' =>
      let q := base ++ [x] in
      match f !! q with
      | Some EDir => mkdir_go f q rest'
      | Some (EFile _) => Err (match rest' with [] => EEXIST q | _ => ENOTDIR q end)
      | None => mkdir_go (<[q := EDir]> f) q rest'
      end
  end.

Definition mkdir_p (f : fs) (p : path) : res fs_error fs := mkdir_go f [] p.

(** The name of [k] inside directory [p], if [k] is a child of [p]. *)
Fixpoint child_name (p k : path) : option string :=
  match p, k with
  | [], [x] => Some x
  | y :: p', z :: k' => if String.eq_dec y z then child_name p' k' else None
  | _, _ => None
  end.

Definition children (f : fs) (p : path) : gset string :=
  list_to_set (omap (child_name p) (elements (dom f))).

(** [fs.readdirSync(p)]: the names of the children, in byte order. *)
Definition readdir (f : fs) (p : path) : res fs_error (list string) :=
  match f !! p with
  | Some EDir => Ok (merge_sort String.le (elements (children f p)))
  | Some (EFile _) => Err (ENOTDIR p)
  | None => Err (ENOENT p)
  end.

(** [fs.readFileSync(p)] *)
Definition read_file (f : fs) (p : path) : res fs_error string :=
  match f !! p with
  | Some (EFile d) => Ok d
  | Some EDir => Err (EISDIR p)
  | None => Err (ENOENT p)
  end.

(** [fs.writeFileSync(p, data)]: the parent must be a directory, [p] must
    not be one; an existing file is overwritten. *)
Definition write_file (f : fs) (p : path) (data : string) : res fs_error fs :=
  match f !! dirname p with
  | Some EDir =>
      match f !! p with
      | Some EDir => Err (EISDIR p)
      | _ => Ok (<[p := EFile data]> f)
      end
  | Some (EFile _) => Err (ENOTDIR (dirname p))
  | None => Err (ENOENT (dirname p))
  end.

(** [fs.copyFileSync(src, dst)] *)
Definition copy_file (f : fs) (src dst : path) : res fs_error fs :=
  d ← read_file f src; write_file f dst d.

(** [fs.rmSync(p, { recursive: true })]: [p] and everything below it. *)
Definition rm_rf (f : fs) (p : path) : res fs_error fs :=
  match f !! p with
  | Some _ => Ok (filter (fun kv => ¬ (p `prefix_of` kv.1)) f)
  | None => Err (ENOENT p)
  end.

(** [fs.statSync(p).size] of a file: its number of bytes. *)
Definition file_size (e : entry) : nat :=
  match e with EFile d => String.length d | EDir => 0 end.

(** ** Well-formedness *)

Definition fs_wf (f : fs) : Prop :=
  f !! [] = Some EDir /\
  forall p e, f !! p = Some e -> p <> [] -> f !! dirname p = Some EDir.

(** Well-formedness is decidable: the second half is a [map_Forall]. *)
Lemma fs_wf_alt (f : fs) :
  fs_wf f <-> f !! [] = Some EDir /\ map_Forall (fun p _ => p <> [] -> f !! dirname p = Some EDir) f.
Proof. unfold fs_wf. rewrite map_Forall_lookup. naive_solver. Qed.

#[export] Instance fs_wf_dec (f : fs) : Decision (fs_wf f).
Proof.
  refine (cast_if (decide (f !! [] = Some EDir /\
    map_Forall (fun p _ => p <> [] -> f !! dirname p = Some EDir) f)));
  by rewrite fs_wf_alt.
Defined.

(** ** [path] facts *)

#[export] Instance cons_path_inj (x : string) : Inj (=) (=) (@cons string x).
Proof. by intros ?? [= ->]. Qed.

Lemma snoc_ne_nil (p : path) (x : string) : p ++ [x] <> [].
Proof. by destruct p. Qed.

Lemma dirname_app (p : path) (x : string) : dirname (p ++ [x]) = p.
Proof. unfold dirname. by rewrite removelast_last. Qed.

Lemma basename_app (p : path) (x : string) : basename (p ++ [x]) = x.
Proof. unfold basename. by rewrite last_app. Qed.

Lemma dirname_cons (x : string) (r : path) : r <> [] -> dirname (x :: r) = x :: dirname r.
Proof. unfold dirname. destruct r; [done|]. done. Qed.

Lemma dirname_app_basename (p : path) : p <> [] -> dirname p ++ [basename p] = p.
Proof.
  intros Hp. destruct (exists_last Hp) as (q & x & ->).
  by rewrite dirname_app, basename_app.
Qed.

Lemma dirname_neq (p : path) : p <> [] -> dirname p <> p.
Proof.
  intros Hp Heq. destruct (exists_last Hp) as (q & x & ->).
  rewrite dirname_app in Heq. apply (f_equal length) in Heq. rewrite length_app in Heq. simpl in Heq. lia.
Qed.

Lemma dirname_length (p : path) : p <> [] -> length (dirname p) < length p.
Proof.
  intros Hp. destruct (exists_last Hp) as (q & x & ->).
  rewrite dirname_app, length_app. simpl. lia.
Qed.

(** The last segment of a proper prefix occurs in the parent path. *)
Lemma basename_in_dirname (p q : path) :
  p <> [] -> p `prefix_of` q -> q <> p -> basename p ∈ dirname q.
Proof.
  intros Hp [r ->] Hne. destruct r as [|y r] using rev_ind; [by rewrite app_nil_r in Hne|].
  rewrite app_assoc, dirname_app. rewrite <- (dirname_app_basename p Hp) at 2.
  apply elem_of_app. left. apply elem_of_app. right. by left.
Qed.

Lemma child_name_spec (p k : path) (x : string) :
  child_name p k = Some x <-> k = p ++ [x].
Proof.
  revert k; induction p as [|y p IH]; intros k.
  - destruct k as [|z [|w k]]; simpl; split; congruence.
  - destruct k as [|z k]; simpl; [split; congruence|].
    destruct (String.eq_dec y z) as [->|Hne].
    + rewrite IH. split; [by intros -> | by intros [= ->]].
    + split; [done | intros H; injection H; congruence].
Qed.

(** Two children of [p] that are both prefixes of [q] are the same. *)
Lemma prefix_child_unique (p q : path) (x y : string) :
  p ++ [x] `prefix_of` q -> p ++ [y] `prefix_of` q -> x = y.
Proof.
  intros [r1 ->] [r2 Hr]. rewrite <- !app_assoc in Hr. apply app_inv_head in Hr.
  simpl in Hr. by injection Hr.
Qed.

Lemma prefix_snoc_not (p : path) (x : string) : ~ (p ++ [x] `prefix_of` p).
Proof. intros Hp%prefix_length. rewrite length_app in Hp. simpl in Hp. lia. Qed.

(** A path strictly below [p] goes through one child of [p]. *)
Lemma prefix_strict_child (p q : path) :
  p `prefix_of` q -> q <> p -> exists x, p ++ [x] `prefix_of` q.
Proof.
  intros [[|x r] ->] Hne; [by rewrite app_nil_r in Hne|].
  exists x. exists r. by rewrite <- app_assoc.
Qed.

(** ** The directory listing *)

Lemma elem_of_children (f : fs) (p : path) (x : string) :
  x ∈ children f p <-> is_Some (f !! (p ++ [x])).
Proof.
  unfold children. rewrite elem_of_list_to_set, list_elem_of_omap.
  split.
  - intros (k & Hk%elem_of_elements & Hx%child_name_spec). subst k. by apply elem_of_dom.
  - intros Hs. exists (p ++ [x]). rewrite elem_of_elements, elem_of_dom, child_name_spec. done.
Qed.

(** [readdirSync] lists every child of the directory exactly once. *)
Lemma readdir_spec (f : fs) (p : path) (l : list string) :
  readdir f p = Ok l ->
  f !! p = Some EDir /\ NoDup l /\ (forall x, x ∈ l <-> is_Some (f !! (p ++ [x]))).
Proof.
  unfold readdir. destruct (f !! p) as [[d|]|] eqn:Hp; try done.
  intros [= <-]. split; [done|]. split.
  - rewrite (merge_sort_Permutation _ _). apply NoDup_elements.
  - intros x. rewrite (merge_sort_Permutation _ _), elem_of_elements. apply elem_of_children.
Qed.

(** ** Well-formedness is preserved *)

(** Adding a directory, or a file where there was no directory, under an
    existing directory. *)
Lemma fs_wf_insert (f : fs) (q : path) (e : entry) :
  fs_wf f -> q <> [] -> f !! dirname q = Some EDir ->
  (e = EDir \/ f !! q <> Some EDir) -> fs_wf (<[q := e]> f).
Proof.
  intros [Hroot Hpar] Hq Hdq He. split.
  - by rewrite lookup_insert_ne.
  - intros p e' Hp Hpne. rewrite lookup_insert_Some in Hp.
    destruct Hp as [[<- <-] | [Hne Hp]].
    + rewrite lookup_insert_ne; [done|].
      intros Heq. pose proof (dirname_length q Hq) as Hl. rewrite <- Heq in Hl. lia.
    + specialize (Hpar p e' Hp Hpne).
      rewrite lookup_insert_Some. destruct (decide (q = dirname p)) as [Heq|Hne'].
      * left. split; [done|]. destruct He as [-> | He]; [done|].
        exfalso. apply He. by rewrite Heq.
      * by right.
Qed.

Lemma mkdir_go_wf (f f' : fs) (base rest : path) :
  fs_wf f -> f !! base = Some EDir -> mkdir_go f base rest = Ok f' -> fs_wf f'.
Proof.
  revert f base; induction rest as [|x rest IH]; intros f base Hwf Hb; simpl.
  - by intros [= <-].
  - destruct (f !! (base ++ [x])) as [[d|]|] eqn:Hq.
    + by destruct rest.
    + by apply IH.
    + apply IH; [|by rewrite lookup_insert_eq].
      apply fs_wf_insert; [done | apply snoc_ne_nil | by rewrite dirname_app | right; by rewrite Hq].
Qed.

Lemma mkdir_p_wf (f f' : fs) (p : path) :
  fs_wf f -> mkdir_p f p = Ok f' -> fs_wf f'.
Proof. intros Hwf. apply mkdir_go_wf; [done | apply Hwf]. Qed.

Lemma write_file_wf (f f' : fs) (p : path) (d : string) :
  fs_wf f -> write_file f p d = Ok f' -> fs_wf f'.
Proof.
  unfold write_file. intros Hwf.
  destruct (f !! dirname p) as [[?|]|] eqn:Hd; try done.
  destruct (decide (p = [])) as [->|Hp].
  { destruct Hwf as [Hroot _]. by rewrite Hroot. }
  destruct (f !! p) as [[?|]|] eqn:Hq; try done;
    intros [= <-]; apply fs_wf_insert; auto; right; congruence.
Qed.

Lemma copy_file_wf (f f' : fs) (src dst : path) :
  fs_wf f -> copy_file f src dst = Ok f' -> fs_wf f'.
Proof.
  unfold copy_file. intros Hwf. destruct (read_file f src); [|done].
  simpl. by apply write_file_wf.
Qed.

Lemma rm_rf_wf (f f' : fs) (p : path) :
  fs_wf f -> p <> [] -> rm_rf f p = Ok f' -> fs_wf f'.
Proof.
  unfold rm_rf. intros [Hroot Hpar] Hp. destruct (f !! p); [|done]. intros [= <-]. split.
  - rewrite map_lookup_filter_Some. split; [done|]. simpl.
    intros Hpre. apply Hp. by apply prefix_nil_inv.
  - intros q e0 Hq Hqne. apply map_lookup_filter_Some in Hq as [Hq Hnp]. simpl in Hnp.
    apply map_lookup_filter_Some. split; [by eapply Hpar|]. simpl.
    intros Hpre. apply Hnp. rewrite <- (dirname_app_basename q Hqne).
    by apply prefix_app_r.
Qed.

(** [writeFileSync] succeeds under a directory, where no directory is. *)
Lemma write_file_ok (f : fs) (p : path) (d : string) :
  f !! dirname p = Some EDir -> f !! p <> Some EDir ->
  write_file f p d = Ok (<[p := EFile d]> f).
Proof.
  intros Hd Hp. unfold write_file. rewrite Hd.
  destruct (f !! p) as [[?|]|]; [done | by destruct Hp | done].
Qed.

(** ** Ancestors, [mkdirSync] and [readdirSync] on a well-formed store *)

(** Every proper prefix of an entry's path is a directory. *)
Lemma wf_ancestor_dir (f : fs) (p q : path) (e : entry) :
  fs_wf f -> f !! p = Some e -> q `prefix_of` p -> q <> p -> f !! q = Some EDir.
Proof.
  intros [Hroot Hpar]. remember (length p) as n eqn:Hn.
  revert p e Hn; induction n as [n IH] using lt_wf_ind; intros p e Hn Hp Hqp Hne.
  destruct (decide (p = [])) as [->|Hpne].
  { apply prefix_nil_inv in Hqp. congruence. }
  pose proof (Hpar p e Hp Hpne) as Hd.
  rewrite <- (dirname_app_basename p Hpne) in Hqp.
  destruct (decide (q = dirname p)) as [->|Hqd]; [done|].
  apply (IH (length (dirname p)) ltac:(pose proof (dirname_length p Hpne); lia) (dirname p) EDir);
    auto.
  destruct Hqp as [r Hr]. destruct r as [|y r] using rev_ind.
  - rewrite app_nil_r in Hr. exfalso. apply Hne. rewrite <- (dirname_app_basename p Hpne). done.
  - rewrite app_assoc in Hr. apply app_inj_tail in Hr as [Hr _]. by exists r.
Qed.

Lemma mkdir_go_last (f : fs) (base rest : path) (x : string) :
  (forall i, i < length rest -> f !! (base ++ take (S i) rest) = Some EDir) ->
  f !! (base ++ rest ++ [x]) = None ->
  mkdir_go f base (rest ++ [x]) = Ok (<[base ++ rest ++ [x] := EDir]> f).
Proof.
  revert base; induction rest as [|y rest IH]; intros base Hdirs Hnone; simpl.
  - simpl in Hnone. by rewrite Hnone.
  - assert (f !! (base ++ [y]) = Some EDir) as Hy by exact (Hdirs 0 ltac:(simpl; lia)).
    rewrite Hy.
    rewrite (IH (base ++ [y])); [by rewrite <- app_assoc|..].
    + intros i Hi. rewrite <- app_assoc. apply (Hdirs (S i)). simpl. lia.
    + by rewrite <- app_assoc.
Qed.

(** [mkdirSync(p, { recursive: true })] under an existing directory creates
    exactly [p]. *)
Lemma mkdir_p_fresh (f : fs) (p : path) :
  fs_wf f -> p <> [] -> f !! dirname p = Some EDir -> f !! p = None ->
  mkdir_p f p = Ok (<[p := EDir]> f).
Proof.
  intros Hwf Hp Hd Hn. unfold mkdir_p.
  rewrite <- (dirname_app_basename p Hp) in Hn |- *.
  apply mkdir_go_last; [|done].
  intros i Hi. simpl.
  destruct (decide (take (S i) (dirname p) = dirname p)) as [->|Hne]; [done|].
  eapply wf_ancestor_dir; [done | exact Hd | | exact Hne].
  exists (drop (S i) (dirname p)). by rewrite take_drop.
Qed.

(** [readdirSync] only looks at the directory and its children. *)
Lemma readdir_ext (f g : fs) (p : path) :
  f !! p = g !! p -> (forall x, f !! (p ++ [x]) = g !! (p ++ [x])) ->
  readdir f p = readdir g p.
Proof.
  intros Hp Hc. unfold readdir. rewrite Hp.
  assert (children f p = children g p) as ->; [|done].
  apply set_eq. intros x. rewrite !elem_of_children, Hc. done.
Qed.

(** ** Growth: no call of the scripts but [rmSync] removes an entry

    [fs_grows g g']: every entry of [g] is still there in [g'], and a
    directory is still a directory ([writeFileSync] replaces a file only,
    [mkdirSync] adds directories only). *)
Definition fs_grows (g g' : fs) : Prop :=
  forall p e, g !! p = Some e -> exists e', g' !! p = Some e' /\ (e = EDir -> e' = EDir).

#[export] Instance fs_grows_preorder : PreOrder fs_grows.
Proof.
  split.
  - intros g p e He. by exists e.
  - intros g1 g2 g3 H12 H23 p e He.
    destruct (H12 p e He) as (e2 & He2 & Hd2). destruct (H23 p e2 He2) as (e3 & He3 & Hd3).
    exists e3. naive_solver.
Qed.

Lemma fs_grows_insert (g : fs) (p : path) (e : entry) :
  (g !! p = Some EDir -> e = EDir) -> fs_grows g (<[p := e]> g).
Proof.
  intros Hd q e0 Hq. destruct (decide (p = q)) as [<-|Hne].
  - exists e. rewrite lookup_insert_eq. split; [done|]. intros ->. by apply Hd.
  - exists e0. by rewrite lookup_insert_ne.
Qed.

Lemma mkdir_go_grows (g g' : fs) (base rest : path) :
  mkdir_go g base rest = Ok g' -> fs_grows g g'.
Proof.
  revert g base; induction rest as [|x rest IH]; intros g base; simpl; [by intros [= <-]|].
  destruct (g !! (base ++ [x])) as [[d|]|] eqn:Hq; [by destruct rest | apply IH|].
  intros H. etrans; [|exact (IH _ _ H)]. apply fs_grows_insert. done.
Qed.

Lemma mkdir_p_grows (g g' : fs) (p : path) : mkdir_p g p = Ok g' -> fs_grows g g'.
Proof. apply mkdir_go_grows. Qed.

(** [mkdirSync(p, { recursive: true })] that returns leaves a directory at
    [p]. *)
Lemma mkdir_go_made (g g' : fs) (base rest : path) :
  rest <> [] -> mkdir_go g base rest = Ok g' -> g' !! (base ++ rest) = Some EDir.
Proof.
  revert g base; induction rest as [|x rest IH]; intros g base Hne; [done|]. simpl.
  destruct (decide (rest = [])) as [->|Hr].
  - destruct (g !! (base ++ [x])) as [[d|]|] eqn:Hq; [done| |]; simpl; intros [= <-];
      [done | by rewrite lookup_insert_eq].
  - replace (base ++ x :: rest) with ((base ++ [x]) ++ rest) by (by rewrite <- app_assoc).
    destruct (g !! (base ++ [x])) as [[d|]|] eqn:Hq; [by destruct rest | by apply IH | by apply IH].
Qed.

Lemma write_file_grows (g g' : fs) (p : path) (d : string) :
  write_file g p d = Ok g' -> fs_grows g g'.
Proof.
  unfold write_file. destruct (g !! dirname p) as [[?|]|]; try done.
  destruct (g !! p) as [[?|]|] eqn:Hp; try done; intros [= <-]; apply fs_grows_insert; congruence.
Qed.

Lemma copy_file_grows (g g' : fs) (src dst : path) :
  copy_file g src dst = Ok g' -> fs_grows g g'.
Proof.
  unfold copy_file. destruct (read_file g src); [|done]. simpl. apply write_file_grows.
Qed.

(** ** What an operation changes

    [changes_within P g g']: [g'] differs from [g] only at paths satisfying
    [P]. *)
Definition changes_within (P : path -> Prop) (g g' : fs) : Prop :=
  forall x, g' !! x <> g !! x -> P x.

Lemma changes_within_refl (P : path -> Prop) (g : fs) : changes_within P g g.
Proof. by intros x []. Qed.

Lemma changes_within_trans (P : path -> Prop) (g1 g2 g3 : fs) :
  changes_within P g1 g2 -> changes_within P g2 g3 -> changes_within P g1 g3.
Proof.
  intros H12 H23 x Hx.
  destruct (decide (g2 !! x = g1 !! x)) as [E|E]; [apply H23; by rewrite E | by apply H12].
Qed.

Lemma changes_within_mono (P Q : path -> Prop) (g g' : fs) :
  (forall x, P x -> Q x) -> changes_within P g g' -> changes_within Q g g'.
Proof. intros HPQ H x Hx. by apply HPQ, H. Qed.

Lemma changes_within_insert (P : path -> Prop) (g : fs) (p : path) (e : entry) :
  P p -> changes_within P g (<[p := e]> g).
Proof.
  intros Hp x Hx. destruct (decide (p = x)) as [<-|Hne]; [done|].
  by rewrite lookup_insert_ne in Hx.
Qed.

Lemma mkdir_go_changes (g g' : fs) (base rest : path) :
  mkdir_go g base rest = Ok g' -> changes_within (fun x => x `prefix_of` base ++ rest) g g'.
Proof.
  revert g base; induction rest as [|y rest IH]; intros g base; simpl.
  - intros [= <-]. apply changes_within_refl.
  - replace (base ++ y :: rest) with ((base ++ [y]) ++ rest) by (by rewrite <- app_assoc).
    destruct (g !! (base ++ [y])) as [[d|]|]; [by destruct rest | apply IH |].
    intros H. eapply changes_within_trans; [|exact (IH _ _ H)].
    apply changes_within_insert. by exists rest.
Qed.

Lemma mkdir_p_changes (g g' : fs) (p : path) :
  mkdir_p g p = Ok g' -> changes_within (fun x => x `prefix_of` p) g g'.
Proof. apply mkdir_go_changes. Qed.

Lemma write_file_changes (g g' : fs) (p : path) (d : string) :
  write_file g p d = Ok g' -> changes_within (eq p) g g'.
Proof.
  unfold write_file. destruct (g !! dirname p) as [[?|]|]; try done.
  destruct (g !! p) as [[?|]|]; try done; intros [= <-]; by apply changes_within_insert.
Qed.

Lemma copy_file_changes (g g' : fs) (src dst : path) :
  copy_file g src dst = Ok g' -> changes_within (eq dst) g g'.
Proof. unfold copy_file. destruct (read_file g src); [|done]. simpl. apply write_file_changes. Qed.

(** ** Substrings of a rendered path *)

Lemma concat_elem (sep y : string) (l : list string) :
  y ∈ l -> exists a b, String.concat sep l = a +:+ y +:+ b.
Proof.
  induction l as [|x l IH]; [by intros ?%elem_of_nil|]. intros [->|Hy]%elem_of_cons.
  - destruct l as [|x' l]; [exists "", ""; by rewrite sapp_nil_r|].
    exists "", (sep +:+ String.concat sep (x' :: l)). done.
  - destruct (IH Hy) as (a & b & Hab). destruct l as [|x' l]; [by apply elem_of_nil in Hy|].
    exists (x +:+ sep +:+ a), b. change (String.concat sep (x :: x' :: l))
      with (x +:+ sep +:+ String.concat sep (x' :: l)).
    by rewrite Hab, !sapp_assoc.
Qed.

(** A pattern found in one segment is found in the rendered path: the
    scripts test substrings of the whole path. *)
Lemma includes_render (p : path) (y pat : string) :
  y ∈ p -> includes y pat = true -> includes (render p) pat = true.
Proof.
  intros Hy (a & b & ->)%includes_elim.
  destruct (concat_elem "/" _ p Hy) as (a' & b' & Hp).
  destruct p as [|x p]; [by apply elem_of_nil in Hy|]. unfold render. rewrite Hp.
  replace (a' +:+ (a +:+ pat +:+ b) +:+ b') with ((a' +:+ a) +:+ pat +:+ (b +:+ b'))
    by (by rewrite !sapp_assoc).
  apply includes_intro.
Qed.
