(* ===== verification/SimpleBuild.v ===== *)
(** * [src/build-simple.js]: walk, copy, minify, generate, measure

    The script's state is the file system ([NodeFs]); every function of the
    script is a function of the store returning [Err] where Node throws.
    - [config] and [simple_config]: the configuration object (lines 6-18).
    - [minifyFile] (lines 82-129): read, minify ([SimpleMinify]), write back
      only when shorter; a failed write is caught (lines 126-128).
    - [copyFiles] (lines 26-79): the recursive walk, with fuel; the
      [try/catch] of lines 67-77 around the minification is
      [minify_copied].
    - [generateSitemap], [generateRobotsTxt] (lines 132-178).
    - [getDirectorySize] (lines 215-235).
    - [build] (lines 181-212) and [main] (the module-level [mkdirSync] of
      lines 21-23 followed by [build()]); [exit_code] is what
      [process.exit(1)] or a normal end gives.

    The theorems about the walk are in the section [Walk]. *)

From S2P Require Import Prelude JsString JsRegex SimpleMinify Sitemap NodeFs.
From Stdlib Require Import Ascii.

(** ** Configuration (lines 6-18) *)

Record config : Type := {
  sourceDir : path;
  buildDir : path;
  excludeDirs : list string;
  excludeFiles : list string;
  ft_html : list string;
  ft_css : list string;
  ft_js : list string;
  ft_images : list string;
  ft_fonts : list string
}.

Definition simple_config : config := {|
  sourceDir := [];
  buildDir := ["dist"];
  excludeDirs := ["node_modules"; ".git"; "dist"; ".github"];
  excludeFiles := [".DS_Store"; "Thumbs.db"; "package-lock.json"; "yarn.lock"];
  ft_html := [".html"; ".htm"];
  ft_css := [".css"];
  ft_js := [".js"];
  ft_images := [".jpg"; ".jpeg"; ".png"; ".svg"; ".gif"; ".webp"];
  ft_fonts := [".woff"; ".woff2"; ".eot"; ".ttf"; ".otf"]
|}.

Section Script.
Context (cfg : config).

(** ** [minifyFile] (lines 82-129) *)

(** Lines 83-128: the read is outside the inner [try], so a failed read
    reaches the caller; a failed write is caught and logged. *)
Definition minifyFile (f : fs) (filePath : path) (type : string) : res fs_error fs :=
  content ← read_file f filePath;
  let minified := minify_by_type type content in
  if String.length minified <? String.length content then
    match write_file f filePath minified with
    | Ok f' => Ok f'
    | Err _ => Ok f
    end
  else Ok f.

(** Lines 68-74: the type of a lower-cased extension. *)
Definition file_type (ext : string) : option string :=
  if bool_decide (ext ∈ ft_html cfg) then Some "html"
  else if bool_decide (ext ∈ ft_css cfg) then Some "css"
  else if bool_decide (ext ∈ ft_js cfg) then Some "js"
  else None.

(** Lines 67-77: the dispatch inside [try]; an exception leaves the copy. *)
Definition minify_copied (f : fs) (target : path) (ext : string) : fs :=
  match file_type ext with
  | Some type =>
      match minifyFile f target type with
      | Ok f' => f'
      | Err _ => f
      end
  | None => f
  end.

(** ** [copyFiles] (lines 26-79) *)

(** Create the directory if [existsSync] says it is missing (lines 35-37
    and 57-60). *)
Definition ensure_dir (f : fs) (p : path) : res fs_error fs :=
  if exists_sync f p then Ok f else mkdir_p f p.

Fixpoint copyFiles (fuel : nat) (source target : path) (f : fs) : res fs_error fs :=
  match fuel with
  | 0 => Err OutOfFuel
  | S fuel' =>
      lstat_is_dir f source ≫= fun isDir : bool =>
      if isDir then
        if bool_decide (basename source ∈ excludeDirs cfg) then Ok f
        else
          ensure_dir f target ≫= fun f1 : fs =>
          readdir f1 source ≫= fun items : list string =>
          res_foldl (fun g item => copyFiles fuel' (source </> item) (target </> item) g)
            f1 items
      else
        if bool_decide (basename source ∈ excludeFiles cfg) then Ok f
        else
          let ext := to_lower (extname source) in
          ensure_dir f (dirname target) ≫= fun f1 : fs =>
          copy_file f1 source target ≫= fun f2 : fs =>
          Ok (minify_copied f2 target ext)
  end.

(** ** Generated files (lines 132-178) *)

Definition generateSitemap (f : fs) (iso : string) : res fs_error fs :=
  write_file f (buildDir cfg ++ ["sitemap.xml"]) (sitemap_content iso).

Definition generateRobotsTxt (f : fs) : res fs_error fs :=
  write_file f (buildDir cfg ++ ["robots.txt"]) robots_content.

(** ** [getDirectorySize] (lines 215-235) *)

(** The [reduce] over [readdirSync(dir, { withFileTypes: true })]: a
    directory adds its own totals, a file its [statSync] size and one. *)
Fixpoint getDirectorySize (fuel : nat) (f : fs) (dir : path) : res fs_error (nat * nat) :=
  match fuel with
  | 0 => Err OutOfFuel
  | S fuel' =>
      readdir f dir ≫= fun names : list string =>
      res_foldl (fun (acc : nat * nat) name =>
        let p := dir </> name in
        match f !! p with
        | Some EDir =>
            getDirectorySize fuel' f p ≫= fun sub : nat * nat =>
            Ok (acc.1 + sub.1, acc.2 + sub.2)
        | Some (EFile d) => Ok (acc.1 + String.length d, acc.2 + 1)
        | None => Err (ENOENT p)
        end) (0, 0) names
  end.

(** ** [build] (lines 181-212) and the module body *)

(** Lines 186-190. *)
Definition clean (f : fs) : res fs_error fs :=
  if exists_sync f (buildDir cfg) then
    f' ← rm_rf f (buildDir cfg); mkdir_p f' (buildDir cfg)
  else Ok f.

(** The result of a run: the final store and the [{ size, files }] of
    [dist] that line 205 reads. *)
Definition build (fuel : nat) (iso : string) (f : fs) : res fs_error (fs * (nat * nat)) :=
  f1 ← clean f;
  f2 ← copyFiles fuel (sourceDir cfg) (buildDir cfg) f1;
  f3 ← generateSitemap f2 iso;
  f4 ← generateRobotsTxt f3;
  size ← getDirectorySize fuel f4 (buildDir cfg);
  Ok (f4, size).

(** Lines 21-23 then line 238. *)
Definition main (fuel : nat) (iso : string) (f : fs) : res fs_error (fs * (nat * nat)) :=
  f0 ← ensure_dir f (buildDir cfg);
  build fuel iso f0.

(** [process.exit(1)] in the [catch] of [build], or an uncaught exception
    of lines 21-23, both end the process with status 1. *)
Definition exit_code {A} (r : res fs_error A) : nat :=
  match r with Ok _ => 0 | Err _ => 1 end.

End Script.

(** ** Every step keeps the store well formed *)

Lemma ensure_dir_wf (f f' : fs) (p : path) :
  fs_wf f -> ensure_dir f p = Ok f' -> fs_wf f'.
Proof. unfold ensure_dir. case_match; [by intros ? [= <-] | apply mkdir_p_wf]. Qed.

Lemma minifyFile_wf (f f' : fs) (p : path) (type : string) :
  fs_wf f -> minifyFile f p type = Ok f' -> fs_wf f'.
Proof.
  unfold minifyFile. intros Hwf. destruct (read_file f p); [|done]. simpl.
  case_match; [|by intros [= <-]].
  destruct (write_file f p _) eqn:E; intros [= <-]; [by eapply write_file_wf | done].
Qed.

Lemma minify_copied_wf (cfg : config) (f : fs) (p : path) (ext : string) :
  fs_wf f -> fs_wf (minify_copied cfg f p ext).
Proof.
  unfold minify_copied. intros Hwf. repeat case_match; try done. by eapply minifyFile_wf.
Qed.

(** Whatever the configuration, a walk that returns leaves a store whose
    root is a directory and in which the parent of every entry is a
    directory. *)
Theorem copyFiles_wf (cfg : config) (fuel : nat) (src tgt : path) (f f' : fs) :
  fs_wf f -> copyFiles cfg fuel src tgt f = Ok f' -> fs_wf f'.
Proof.
  revert src tgt f f'; induction fuel as [|fuel IH]; intros src tgt f f' Hwf; [done|].
  cbn [copyFiles]. destruct (lstat_is_dir f src) as [[|]|]; simpl; [| |done].
  - case_match; [by intros [= <-]|].
    destruct (ensure_dir f tgt) as [f1|] eqn:E1; [|done]. simpl.
    destruct (readdir f1 src) as [items|]; [|done]. simpl.
    apply res_foldl_preserves; [|by eapply ensure_dir_wf].
    intros g x g' Hg. by apply IH.
  - case_match; [by intros [= <-]|].
    destruct (ensure_dir f (dirname tgt)) as [f1|] eqn:E1; [|done]. simpl.
    destruct (copy_file f1 src tgt) as [f2|] eqn:E2; [|done]. simpl.
    intros [= <-]. apply minify_copied_wf. eapply copy_file_wf; [|done].
    by eapply ensure_dir_wf.
Qed.

Lemma clean_wf (cfg : config) (f f' : fs) :
  buildDir cfg <> [] -> fs_wf f -> clean cfg f = Ok f' -> fs_wf f'.
Proof.
  unfold clean. intros Hb Hwf. case_match; [|by intros [= <-]].
  destruct (rm_rf f (buildDir cfg)) as [f1|] eqn:E; [|done]. simpl.
  apply mkdir_p_wf. by eapply rm_rf_wf.
Qed.

#[export] Hint Resolve ensure_dir_wf write_file_wf copy_file_wf mkdir_p_wf clean_wf copyFiles_wf : xa.

(** ** The walk: what [copyFiles] puts into the build directory

    In the section below the configuration builds into the single directory
    [bd], which the walk itself excludes, and ['.'] is not excluded: both
    hold of [simple_config]. [S] is the store when the walk starts. *)

Section Walk.
Context (cfg : config) (bd : string).

Definition dir_ok (x : string) : bool := bool_decide (x ∉ excludeDirs cfg).

(** [q] is copied: no directory on the way to it is excluded, and it is not
    an excluded directory or file itself. *)
Definition shown (T : fs) (q : path) : bool :=
  forallb dir_ok (dirname q) &&
  match T !! q with
  | Some EDir => dir_ok (basename q)
  | Some (EFile _) => bool_decide (basename q ∉ excludeFiles cfg)
  | None => false
  end.

(** The content a copied file ends with: the minified text when it is
    shorter, the original otherwise. *)
Definition processed (q : path) (c : string) : string :=
  match file_type cfg (to_lower (extname q)) with
  | Some type =>
      let m := minify_by_type type c in
      if String.length m <? String.length c then m else c
  | None => c
  end.

Definition out_entry (e : entry) (q : path) : entry :=
  match e with EDir => EDir | EFile c => EFile (processed q c) end.

(** The entries the walk from [src] writes: [bd :: q] for every [q] below
    [src] that is copied. *)
Definition walk_out (T : fs) (src : path) : fs :=
  kmap (cons bd)
    (map_imap (fun q e => if bool_decide (src `prefix_of` q) && shown T q
                          then Some (out_entry e q) else None) T).

Lemma walk_out_lookup (T : fs) (src q : path) :
  walk_out T src !! (bd :: q) =
  T !! q ≫= fun e => if bool_decide (src `prefix_of` q) && shown T q
                     then Some (out_entry e q) else None.
Proof. unfold walk_out. rewrite (lookup_kmap (cons bd)). apply map_lookup_imap. Qed.

Lemma walk_out_lookup_other (T : fs) (src k : path) :
  (forall q, k <> bd :: q) -> walk_out T src !! k = None.
Proof.
  intros Hk. unfold walk_out. apply (lookup_kmap_None (cons bd)). intros q ->. by destruct (Hk q).
Qed.

Lemma walk_out_lookup_Some (T : fs) (src k : path) (e : entry) :
  walk_out T src !! k = Some e ->
  exists q e0, k = bd :: q /\ T !! q = Some e0 /\ src `prefix_of` q /\
               shown T q = true /\ e = out_entry e0 q.
Proof.
  destruct k as [|x q]; [rewrite walk_out_lookup_other; [done | by intros q]|].
  destruct (decide (x = bd)) as [->|Hx].
  - rewrite walk_out_lookup. destruct (T !! q) as [e0|] eqn:Hq; [|done]. simpl.
    case_bool_decide; simpl; [|done]. destruct (shown T q) eqn:Hs; [|done].
    intros [= <-]. eauto 10.
  - rewrite walk_out_lookup_other; [done|]. by intros q' [= -> _].
Qed.

Hypothesis bd_excluded : bd ∈ excludeDirs cfg.
Hypothesis dot_not_excluded : "." ∉ excludeDirs cfg.

(** The state of the store when the walk reaches [src]: the source part
    agrees with [T], nothing has been written below the target yet, the
    target's parent exists, and no directory on the way is excluded. *)
Record walk_inv (T f : fs) (src : path) : Prop := {
  wi_wf : fs_wf f;
  wi_S_wf : fs_wf T;
  wi_frame : forall k, (forall q, k <> bd :: q) -> f !! k = T !! k;
  wi_bd : f !! [bd] = Some EDir;
  wi_S_bd : T !! [bd] = Some EDir;
  wi_fresh : forall q, src `prefix_of` q -> q <> [] -> f !! (bd :: q) = None;
  wi_parent : f !! (bd :: dirname src) = Some EDir;
  wi_vis : forallb dir_ok (dirname src) = true;
  wi_src : is_Some (T !! src)
}.

Lemma dir_ok_bd : dir_ok bd = false.
Proof. unfold dir_ok. apply bool_decide_eq_false_2. intros H. by apply H. Qed.

(** A visible path below [bd] can only be [[bd]] itself. *)
Lemma vis_not_below_bd (r : path) :
  forallb dir_ok (dirname (bd :: r)) = true -> r = [].
Proof.
  destruct r as [|y r]; [done|]. rewrite dirname_cons by done. simpl.
  by rewrite dir_ok_bd.
Qed.

Lemma wi_src_lookup (T f : fs) (src : path) :
  walk_inv T f src -> f !! src = T !! src.
Proof.
  intros Hi. destruct src as [|x r].
  - apply (wi_frame _ _ _ Hi). by intros q.
  - destruct (decide (x = bd)) as [->|Hx].
    + rewrite (vis_not_below_bd r (wi_vis _ _ _ Hi)). by rewrite (wi_bd _ _ _ Hi), (wi_S_bd _ _ _ Hi).
    + apply (wi_frame _ _ _ Hi). by intros q [= -> _].
Qed.

Lemma wi_child_lookup (T f : fs) (src : path) (x : string) :
  walk_inv T f src -> dir_ok (basename src) = true ->
  f !! (src ++ [x]) = T !! (src ++ [x]).
Proof.
  intros Hi Hok. destruct src as [|y r].
  - simpl. destruct (decide (x = bd)) as [->|Hx].
    + by rewrite (wi_bd _ _ _ Hi), (wi_S_bd _ _ _ Hi).
    + apply (wi_frame _ _ _ Hi). by intros q [= -> _].
  - destruct (decide (y = bd)) as [->|Hy].
    + pose proof (vis_not_below_bd r (wi_vis _ _ _ Hi)) as ->.
      unfold basename in Hok. simpl in Hok. by rewrite dir_ok_bd in Hok.
    + apply (wi_frame _ _ _ Hi). by intros q [= -> _].
Qed.

(** Nothing at or below an excluded directory is copied. *)
Lemma walk_out_excluded_dir (T : fs) (src : path) :
  T !! src = Some EDir -> dir_ok (basename src) = false -> walk_out T src = ∅.
Proof.
  intros Hsrc Hex. apply map_eq. intros k. rewrite lookup_empty.
  destruct (walk_out T src !! k) as [e|] eqn:Hk; [|done].
  apply walk_out_lookup_Some in Hk as (q & e0 & -> & Hq & Hpre & Hs & ->).
  exfalso. unfold shown in Hs. apply andb_prop in Hs as [Hvis Hlast].
  destruct (decide (src = [])) as [->|Hne].
  { unfold dir_ok, basename in Hex. simpl in Hex. by apply bool_decide_eq_false in Hex. }
  destruct (decide (q = src)) as [->|Hqne].
  - rewrite Hsrc in Hlast. by rewrite Hex in Hlast.
  - pose proof (basename_in_dirname src q Hne Hpre Hqne) as Hin.
    rewrite forallb_forall in Hvis. rewrite list_elem_of_In in Hin.
    specialize (Hvis _ Hin). by rewrite Hex in Hvis.
Qed.

(** A file has nothing below it: the walk from a file writes at most the
    file itself. *)
Lemma walk_out_file (T : fs) (src : path) (c : string) :
  fs_wf T -> T !! src = Some (EFile c) ->
  walk_out T src =
  if shown T src then {[bd :: src := EFile (processed src c)]} else ∅.
Proof.
  intros HS Hc. apply map_eq. intros k.
  destruct (decide (k = bd :: src)) as [->|Hk].
  - rewrite walk_out_lookup, Hc. simpl. rewrite bool_decide_eq_true_2 by done. simpl.
    destruct (shown T src); [by rewrite lookup_singleton_eq | by rewrite lookup_empty].
  - assert (walk_out T src !! k = None) as ->.
    { destruct (walk_out T src !! k) as [e|] eqn:He; [|done]. exfalso.
      apply walk_out_lookup_Some in He as (q & e0 & -> & Hq & Hpre & _ & _).
      destruct (decide (q = src)) as [->|Hne]; [done|].
      pose proof (wf_ancestor_dir T q src e0 HS Hq Hpre (not_eq_sym Hne)). congruence. }
    destruct (shown T src); [by rewrite lookup_singleton_ne | by rewrite lookup_empty].
Qed.

(** The walk on a file (lines 46-78): skipped when its name is excluded,
    otherwise copied next to its mirror directory and minified in place. *)
Lemma copyFiles_file (fuel : nat) (T f : fs) (src : path) (c : string) :
  walk_inv T f src -> T !! src = Some (EFile c) ->
  copyFiles cfg (S fuel) src (bd :: src) f = Ok (walk_out T src ∪ f).
Proof.
  intros Hi Hc.
  assert (src <> []) as Hne.
  { intros ->. pose proof (proj1 (wi_S_wf _ _ _ Hi)). congruence. }
  rewrite (walk_out_file T src c (wi_S_wf _ _ _ Hi) Hc).
  cbn [copyFiles]. unfold lstat_is_dir. rewrite (wi_src_lookup _ _ _ Hi), Hc, res_bind_Ok_l.
  unfold shown. rewrite (wi_vis _ _ _ Hi), Hc, andb_true_l.
  case_bool_decide as Hex.
  { rewrite bool_decide_eq_false_2; [by rewrite map_empty_union|]. intros H. by apply H. }
  rewrite bool_decide_eq_true_2 by done.
  unfold ensure_dir. rewrite dirname_cons by done.
  unfold exists_sync. rewrite bool_decide_eq_true_2 by (rewrite (wi_parent _ _ _ Hi); eauto).
  rewrite res_bind_Ok_l. unfold copy_file, read_file.
  rewrite (wi_src_lookup _ _ _ Hi), Hc, res_bind_Ok_l.
  unfold write_file. rewrite dirname_cons, (wi_parent _ _ _ Hi) by done.
  rewrite (wi_fresh _ _ _ Hi src) by done. rewrite res_bind_Ok_l.
  rewrite <- insert_union_singleton_l. f_equal.
  unfold minify_copied, processed.
  destruct (file_type cfg (to_lower (extname src))) as [type|]; [|done].
  unfold minifyFile, read_file, write_file. rewrite lookup_insert_eq, res_bind_Ok_l.
  destruct (String.length (minify_by_type type c) <? String.length c); [|done].
  rewrite dirname_cons, lookup_insert_ne, (wi_parent _ _ _ Hi) by
    (done || (intros [=]; by apply (dirname_neq src Hne))).
  by rewrite insert_insert_eq.
Qed.

(** ** The outputs of the children of a directory *)

Definition children_out (T : fs) (src : path) (items : list string) : fs :=
  union_family (fun x => walk_out T (src ++ [x])) items.

Lemma walk_out_lookup_prefix (T : fs) (src q : path) (e : entry) :
  walk_out T src !! (bd :: q) = Some e -> src `prefix_of` q.
Proof.
  intros (q' & e0 & [= <-] & _ & Hpre & _)%walk_out_lookup_Some. done.
Qed.

(** Deeper starting points agree on the paths below them. *)
Lemma walk_out_lookup_deeper (T : fs) (src src' q : path) :
  src `prefix_of` src' -> src' `prefix_of` q ->
  walk_out T src !! (bd :: q) = walk_out T src' !! (bd :: q).
Proof.
  intros H1 H2. rewrite !walk_out_lookup.
  rewrite (bool_decide_eq_true_2 (src `prefix_of` q)) by (by etrans).
  by rewrite (bool_decide_eq_true_2 (src' `prefix_of` q)).
Qed.

Lemma walk_out_lookup_not_prefix (T : fs) (src q : path) :
  ~ src `prefix_of` q -> walk_out T src !! (bd :: q) = None.
Proof.
  intros Hn. destruct (walk_out T src !! (bd :: q)) eqn:E; [|done].
  by apply walk_out_lookup_prefix in E.
Qed.

Lemma children_out_lookup_in (T : fs) (src : path) (items : list string) (x : string) (q : path) :
  x ∈ items -> src ++ [x] `prefix_of` q ->
  children_out T src items !! (bd :: q) = walk_out T (src ++ [x]) !! (bd :: q).
Proof.
  intros Hx Hq. apply (union_family_lookup_in (fun y => walk_out T (src ++ [y]))); [done|].
  intros y _ Hy. apply walk_out_lookup_not_prefix. intros Hy'.
  by apply Hy, (prefix_child_unique _ _ _ _ Hy' Hq).
Qed.

Lemma walk_out_lookup_absent (T : fs) (src q : path) :
  T !! q = None -> walk_out T src !! (bd :: q) = None.
Proof. intros Hq. by rewrite walk_out_lookup, Hq. Qed.

(** At a copied directory, the walk writes the directory and what the walks
    from its children write. *)
Lemma walk_out_dir (T : fs) (src : path) (items : list string) :
  fs_wf T -> T !! src = Some EDir -> shown T src = true ->
  (forall x, x ∈ items <-> is_Some (T !! (src ++ [x]))) ->
  walk_out T src = children_out T src items ∪ {[bd :: src := EDir]}.
Proof.
  intros HT Hsrc Hsh Hitems. apply map_eq. intros k.
  assert (forall q, q <> src -> ({[bd :: src := EDir]} : fs) !! (bd :: q) = None) as Hsing.
  { intros q Hq. rewrite lookup_singleton_ne; [done|]. by intros [= ->]. }
  destruct k as [|y q].
  { rewrite walk_out_lookup_other by (by intros ?).
    symmetry. apply lookup_union_None. split.
    - apply union_family_lookup_None. intros x _. apply walk_out_lookup_other. by intros ?.
    - by rewrite lookup_singleton_ne. }
  destruct (decide (y = bd)) as [->|Hy].
  2:{ rewrite walk_out_lookup_other by (by intros ? [= -> _]).
      symmetry. apply lookup_union_None. split.
      - apply union_family_lookup_None. intros x _. apply walk_out_lookup_other. by intros ? [= -> _].
      - rewrite lookup_singleton_ne; [done|]. by intros [= -> _]. }
  destruct (decide (q = src)) as [->|Hne].
  { rewrite walk_out_lookup, Hsrc. simpl. rewrite bool_decide_eq_true_2, Hsh by done.
    rewrite lookup_union_r, lookup_singleton_eq; [done|].
    apply union_family_lookup_None. intros x _.
    apply walk_out_lookup_not_prefix, prefix_snoc_not. }
  rewrite lookup_union_l by (by apply Hsing).
  destruct (decide (src `prefix_of` q)) as [Hpre|Hnpre].
  - destruct (prefix_strict_child src q Hpre Hne) as [x Hx].
    destruct (T !! q) as [e|] eqn:Hq.
    + assert (x ∈ items) as Hin.
      { apply Hitems. destruct (decide (src ++ [x] = q)) as [->|Hxq]; [by eauto|].
        erewrite wf_ancestor_dir; eauto. }
      rewrite (children_out_lookup_in T src items x q Hin Hx).
      apply walk_out_lookup_deeper; [by exists [x] | done].
    + rewrite walk_out_lookup_absent by done. symmetry.
      apply union_family_lookup_None. intros z _. by apply walk_out_lookup_absent.
  - rewrite walk_out_lookup_not_prefix by done. symmetry.
    apply union_family_lookup_None. intros z _. apply walk_out_lookup_not_prefix.
    intros Hz. apply Hnpre. etrans; [|exact Hz]. by exists [z].
Qed.

(** The invariant still holds for a child after a sibling was walked. *)
Lemma walk_inv_sibling (T g : fs) (src : path) (x y : string) :
  walk_inv T g (src ++ [y]) -> x <> y -> fs_wf (walk_out T (src ++ [x]) ∪ g) ->
  walk_inv T (walk_out T (src ++ [x]) ∪ g) (src ++ [y]).
Proof.
  intros Hi Hxy Hwf.
  assert (forall q, walk_out T (src ++ [x]) !! (bd :: q) = None \/ src ++ [x] `prefix_of` q)
    as Hout.
  { intros q. destruct (walk_out T (src ++ [x]) !! (bd :: q)) eqn:E; [|by left].
    right. by eapply walk_out_lookup_prefix. }
  constructor; try apply Hi; [done|..].
  - intros k Hk. rewrite lookup_union_r by (by apply walk_out_lookup_other). by apply Hi.
  - rewrite lookup_union_r; [apply Hi|]. destruct (Hout []) as [?|Hp]; [done|].
    apply prefix_nil_inv in Hp. by destruct src.
  - intros q Hq Hqn. rewrite lookup_union_r; [by apply Hi|].
    destruct (Hout q) as [?|Hp]; [done|]. by destruct Hxy; apply (prefix_child_unique _ _ _ _ Hp Hq).
  - rewrite dirname_app. rewrite lookup_union_r.
    + pose proof (wi_parent _ _ _ Hi) as Hpar. by rewrite dirname_app in Hpar.
    + apply walk_out_lookup_not_prefix, prefix_snoc_not.
Qed.

(** Lines 57-60 at a directory: its mirror is created under the existing
    parent mirror ([[bd]] itself already exists). *)
Lemma ensure_target (T f : fs) (src : path) :
  walk_inv T f src -> ensure_dir f (bd :: src) = Ok (<[bd :: src := EDir]> f).
Proof.
  intros Hi. unfold ensure_dir. destruct (decide (src = [])) as [->|Hne].
  - unfold exists_sync. rewrite (wi_bd _ _ _ Hi), bool_decide_eq_true_2 by eauto.
    by rewrite insert_id by apply Hi.
  - unfold exists_sync. rewrite (wi_fresh _ _ _ Hi src) by done.
    rewrite bool_decide_eq_false_2 by (by intros []).
    apply mkdir_p_fresh; [apply Hi | done | |by apply Hi].
    rewrite dirname_cons by done. apply Hi.
Qed.

Lemma walk_inv_child (T f : fs) (src : path) (x : string) :
  walk_inv T f src -> dir_ok (basename src) = true -> is_Some (T !! (src ++ [x])) ->
  walk_inv T (<[bd :: src := EDir]> f) (src ++ [x]).
Proof.
  intros Hi Hok Hx. constructor; try apply Hi.
  - eapply ensure_dir_wf; [apply Hi | exact (ensure_target _ _ _ Hi)].
  - intros k Hk. rewrite lookup_insert_ne by (intros <-; by apply (Hk src)). by apply Hi.
  - destruct (decide (bd :: src = [bd])) as [<-|Hne]; [by rewrite lookup_insert_eq|].
    rewrite lookup_insert_ne by done. apply Hi.
  - intros q Hq Hqn. rewrite lookup_insert_ne.
    + apply (wi_fresh _ _ _ Hi); [|done]. etrans; [|exact Hq]. by exists [x].
    + intros [= ->]. by apply (prefix_snoc_not q x).
  - by rewrite dirname_app, lookup_insert_eq.
  - rewrite dirname_app. destruct (decide (src = [])) as [->|Hne]; [done|].
    rewrite <- (dirname_app_basename src Hne), forallb_app. simpl.
    by rewrite (wi_vis _ _ _ Hi), Hok.
  - exact Hx.
Qed.

(** The walks from two different children write disjoint parts. *)
Lemma children_out_disjoint (T : fs) (src : path) (x : string) (l : list string) :
  x ∉ l -> walk_out T (src ++ [x]) ##ₘ children_out T src l.
Proof.
  intros Hx. apply (union_family_disjoint (fun y => walk_out T (src ++ [y]))).
  intros y Hy. apply map_disjoint_spec. intros k e1 e2 He1 He2.
  apply walk_out_lookup_Some in He1 as (q & e0 & -> & _ & Hpre & _).
  apply walk_out_lookup_prefix in He2.
  rewrite (prefix_child_unique _ _ _ _ He2 Hpre) in Hy. by apply Hx.
Qed.

(** Lines 62-64: the loop over the entries of a directory, each child
    walked in turn on the store the previous one left. *)
Lemma fold_children (fuel : nat) (T f : fs) (src : path) (items : list string) :
  (forall x g, x ∈ items -> walk_inv T g (src ++ [x]) ->
     copyFiles cfg fuel (src ++ [x]) (bd :: src ++ [x]) g = Ok (walk_out T (src ++ [x]) ∪ g)) ->
  NoDup items -> (forall x, x ∈ items -> walk_inv T f (src ++ [x])) ->
  res_foldl (fun g item => copyFiles cfg fuel (src ++ [item]) ((bd :: src) ++ [item]) g) f items
  = Ok (children_out T src items ∪ f).
Proof.
  revert f; induction items as [|x l IH]; intros f Hc Hnd Hinv; simpl.
  { by rewrite map_empty_union. }
  apply NoDup_cons in Hnd as [Hxl Hnd].
  assert (walk_inv T f (src ++ [x])) as Hix by (apply Hinv; by left).
  rewrite (Hc x f) by (done || by left). simpl.
  rewrite IH.
  - f_equal. rewrite map_union_assoc, (map_union_comm (children_out T src l)); [done|].
    by apply map_disjoint_sym, children_out_disjoint.
  - intros y g Hy. apply Hc. by right.
  - done.
  - intros y Hy. apply walk_inv_sibling; [by apply Hinv; right | by intros -> |].
    eapply copyFiles_wf; [apply Hix | apply Hc; [by left | done]].
Qed.

(** After the mirror of [src] is created, the source side of [src] and its
    children still reads as in [T]. *)
Lemma target_src_lookup (T f : fs) (src : path) :
  walk_inv T f src -> <[bd :: src := EDir]> f !! src = T !! src.
Proof.
  intros Hi. rewrite lookup_insert_ne; [by apply wi_src_lookup|].
  intros H. apply (f_equal length) in H. simpl in H. lia.
Qed.

Lemma target_child_lookup (T f : fs) (src : path) (x : string) :
  walk_inv T f src -> dir_ok (basename src) = true ->
  <[bd :: src := EDir]> f !! (src ++ [x]) = T !! (src ++ [x]).
Proof.
  intros Hi Hok. destruct (decide (bd :: src = src ++ [x])) as [Heq|Hne].
  - destruct src as [|y r]; simpl in Heq.
    + injection Heq as <-. rewrite lookup_insert_eq. symmetry. apply Hi.
    + injection Heq as <- _. pose proof (vis_not_below_bd r (wi_vis _ _ _ Hi)) as ->.
      unfold basename in Hok. simpl in Hok. by rewrite dir_ok_bd in Hok.
  - rewrite lookup_insert_ne by done. by apply wi_child_lookup.
Qed.

(** The walk with enough fuel: from any point where the invariant holds,
    [copyFiles] returns and adds exactly [walk_out T src] to the store. The
    fuel must exceed the depth of the tree below [src]. *)
Lemma copyFiles_walk (fuel : nat) (T f : fs) (src : path) :
  walk_inv T f src ->
  (forall q, is_Some (T !! q) -> src `prefix_of` q -> length q < length src + fuel) ->
  copyFiles cfg fuel src (bd :: src) f = Ok (walk_out T src ∪ f).
Proof.
  revert f src; induction fuel as [|fuel IH]; intros f src Hi Hdepth.
  { exfalso. specialize (Hdepth src (wi_src _ _ _ Hi) ltac:(done)). lia. }
  destruct (wi_src _ _ _ Hi) as [[c|] Hsrc]; [by eapply copyFiles_file|].
  cbn [copyFiles]. unfold lstat_is_dir. rewrite (wi_src_lookup _ _ _ Hi), Hsrc, res_bind_Ok_l.
  case_bool_decide as Hex.
  { rewrite walk_out_excluded_dir by (done || (apply bool_decide_eq_false_2; intros H; by apply H)).
    by rewrite map_empty_union. }
  assert (dir_ok (basename src) = true) as Hok by (by apply bool_decide_eq_true_2).
  rewrite (ensure_target _ _ _ Hi), res_bind_Ok_l.
  assert (readdir T src = Ok (merge_sort String.le (elements (children T src)))) as Hrd
    by (unfold readdir; by rewrite Hsrc).
  rewrite (readdir_ext _ T src (target_src_lookup _ _ _ Hi) (fun x => target_child_lookup _ _ _ x Hi Hok)).
  rewrite Hrd, res_bind_Ok_l.
  destruct (readdir_spec _ _ _ Hrd) as (_ & Hnd & Hitems).
  rewrite (fold_children fuel T); [|by intros; apply IH; [done|]; intros q Hq Hpre;
    pose proof (Hdepth q Hq ltac:(etrans; [|exact Hpre]; by exists [x])); rewrite length_app; simpl; lia
    | done | intros x Hx; apply walk_inv_child; [done | done | by apply Hitems]].
  rewrite (walk_out_dir T src _ (wi_S_wf _ _ _ Hi) Hsrc) by
    (done || unfold shown; by rewrite (wi_vis _ _ _ Hi), Hsrc, Hok).
  by rewrite insert_union_singleton_l, map_union_assoc.
Qed.

End Walk.
