(* ===== verification/DirSize.v ===== *)
(** * [getDirectorySize] computes the size and the file count of a tree

    [src/build-simple.js] lines 215-235 sum, recursively, the [statSync]
    size of every file below a directory and count them. The specification
    is a fold over the part of the store strictly below the directory:
    [stats (below f dir)], a pair (bytes, files) in which a directory
    counts for nothing. [getDirectorySize_spec] shows that the recursive
    reduction with fuel greater than the depth of the tree computes it. *)

From S2P Require Import Prelude NodeFs SimpleBuild.

(** ** The specification *)

Definition padd (a b : nat * nat) : nat * nat := (a.1 + b.1, a.2 + b.2).

Definition entry_stat (e : entry) : nat * nat :=
  match e with EFile d => (String.length d, 1) | EDir => (0, 0) end.

Definition stats (m : fs) : nat * nat :=
  map_fold (fun _ e acc => padd (entry_stat e) acc) (0, 0) m.

(** The entries strictly below [dir]. *)
Definition below (f : fs) (dir : path) : fs :=
  filter (fun kv => dir `prefix_of` kv.1 /\ kv.1 <> dir) f.

(** The entry [p] and everything below it. *)
Definition subtree (f : fs) (p : path) : fs :=
  filter (fun kv => p `prefix_of` kv.1) f.

Ltac padd_solve := intros; unfold padd; simpl; f_equal; lia.

(** ** [stats] is additive *)

Lemma padd_0_r (a : nat * nat) : padd a (0, 0) = a.
Proof. destruct a; padd_solve. Qed.

Lemma padd_0_l (a : nat * nat) : padd (0, 0) a = a.
Proof. destruct a; padd_solve. Qed.

Lemma stats_empty : stats ∅ = (0, 0).
Proof. apply map_fold_empty. Qed.

Lemma stats_acc (a b : nat * nat) (m : fs) :
  map_fold (fun _ e acc => padd (entry_stat e) acc) (padd a b) m =
  padd a (map_fold (fun _ e acc => padd (entry_stat e) acc) b m).
Proof. apply (map_fold_comm_acc _ (padd a)). padd_solve. Qed.

Lemma stats_union (m1 m2 : fs) :
  m1 ##ₘ m2 -> stats (m1 ∪ m2) = padd (stats m1) (stats m2).
Proof.
  intros Hd. unfold stats. rewrite map_fold_disj_union by (done || padd_solve).
  rewrite <- (padd_0_r (map_fold _ (0, 0) m2)) at 1. rewrite stats_acc.
  padd_solve.
Qed.

Lemma stats_insert (m : fs) (p : path) (e : entry) :
  m !! p = None -> stats (<[p := e]> m) = padd (entry_stat e) (stats m).
Proof. intros Hp. unfold stats. by rewrite map_fold_insert_L by (done || padd_solve). Qed.

Lemma stats_family (F : string -> fs) (l : list string) :
  NoDup l -> (forall x y, x <> y -> F x ##ₘ F y) ->
  stats (union_family F l) = foldr (fun x acc => padd (stats (F x)) acc) (0, 0) l.
Proof.
  intros Hnd Hd. induction Hnd as [|x l Hx Hnd IH]; simpl; [done|].
  rewrite stats_union, IH; [done|].
  apply union_family_disjoint. intros y Hy. apply Hd. by intros ->.
Qed.

(** ** The tree below a directory, by entries *)

Lemma subtree_lookup (f : fs) (p k : path) :
  subtree f p !! k = if bool_decide (p `prefix_of` k) then f !! k else None.
Proof.
  unfold subtree. rewrite map_lookup_filter.
  destruct (f !! k); simpl; case_bool_decide;
    [rewrite option_guard_True | rewrite option_guard_False | done | done]; auto.
Qed.

Lemma below_lookup (f : fs) (p k : path) :
  below f p !! k = if bool_decide (p `prefix_of` k /\ k <> p) then f !! k else None.
Proof.
  unfold below. rewrite map_lookup_filter.
  destruct (f !! k); simpl; case_bool_decide;
    [rewrite option_guard_True | rewrite option_guard_False | done | done]; auto.
Qed.

Lemma subtree_entry (f : fs) (p : path) (e : entry) :
  f !! p = Some e -> subtree f p = <[p := e]> (below f p).
Proof.
  intros Hp. apply map_eq. intros k. rewrite subtree_lookup.
  destruct (decide (k = p)) as [->|Hk].
  - rewrite lookup_insert_eq, bool_decide_eq_true_2 by done. done.
  - rewrite lookup_insert_ne, below_lookup by done.
    rewrite (bool_decide_ext (p `prefix_of` k /\ k <> p) (p `prefix_of` k)); [done|].
    split; [by intros [? _] | by intros ?; split].
Qed.

(** Nothing lies below a file. *)
Lemma below_file (f : fs) (p : path) (d : string) :
  fs_wf f -> f !! p = Some (EFile d) -> below f p = ∅.
Proof.
  intros Hwf Hp. apply map_eq. intros k. rewrite below_lookup, lookup_empty.
  case_bool_decide as Hk; [|done]. destruct Hk as [Hpre Hne].
  destruct (f !! k) as [e|] eqn:Hke; [|done].
  pose proof (wf_ancestor_dir f k p e Hwf Hke Hpre (not_eq_sym Hne)). congruence.
Qed.

(** What is strictly below a directory is what is at or below its
    entries. *)
Lemma below_children (f : fs) (dir : path) (names : list string) :
  fs_wf f -> (forall x, x ∈ names <-> is_Some (f !! (dir ++ [x]))) ->
  below f dir = union_family (fun x => subtree f (dir ++ [x])) names.
Proof.
  intros Hwf Hn. apply map_eq. intros k. rewrite below_lookup.
  case_bool_decide as Hk.
  - destruct Hk as [Hpre Hne]. destruct (prefix_strict_child dir k Hpre Hne) as [x Hx].
    destruct (f !! k) as [e|] eqn:Hke.
    + assert (x ∈ names) as Hin.
      { apply Hn. destruct (decide (dir ++ [x] = k)) as [->|Hxk]; [by eauto|].
        erewrite wf_ancestor_dir; eauto. }
      rewrite (union_family_lookup_in _ _ x); [by rewrite subtree_lookup, bool_decide_eq_true_2 | done|].
      intros y _ Hy. rewrite subtree_lookup, bool_decide_eq_false_2; [done|].
      intros Hy'. by apply Hy, (prefix_child_unique _ _ _ _ Hy' Hx).
    + symmetry. apply union_family_lookup_None. intros y _.
      rewrite subtree_lookup. by case_bool_decide.
  - symmetry. apply union_family_lookup_None. intros y _.
    rewrite subtree_lookup, bool_decide_eq_false_2; [done|].
    intros Hy. apply Hk. split.
    + etrans; [|exact Hy]. by exists [y].
    + intros ->. by apply (prefix_snoc_not dir y).
Qed.

Lemma subtree_children_disjoint (f : fs) (dir : path) (x y : string) :
  x <> y -> subtree f (dir ++ [x]) ##ₘ subtree f (dir ++ [y]).
Proof.
  intros Hxy. apply map_disjoint_spec. intros k e1 e2.
  rewrite !subtree_lookup. do 2 case_bool_decide; try done.
  intros _ _. by apply Hxy, (prefix_child_unique dir k).
Qed.

(** ** The recursive reduction (lines 215-235) *)

(** The [reduce] of line 219 when each entry adds a fixed amount. *)
Lemma res_foldl_sum {E} (step : nat * nat -> string -> res E (nat * nat))
    (h : string -> nat * nat) (a : nat * nat) (l : list string) :
  (forall acc x, x ∈ l -> step acc x = Ok (padd acc (h x))) ->
  res_foldl step a l = Ok (padd a (foldr (fun x acc => padd (h x) acc) (0, 0) l)).
Proof.
  revert a; induction l as [|x l IH]; intros a Hs; simpl; [by rewrite padd_0_r|].
  rewrite Hs by (by left). simpl. rewrite IH by (intros; apply Hs; by right).
  f_equal. padd_solve.
Qed.

(** With fuel greater than the depth of the tree below [dir],
    [getDirectorySize] returns the total size and the number of the files
    strictly below [dir]. *)
Lemma getDirectorySize_spec (fuel : nat) (f : fs) (dir : path) :
  fs_wf f -> f !! dir = Some EDir ->
  (forall q, is_Some (f !! q) -> dir `prefix_of` q -> length q < length dir + fuel) ->
  getDirectorySize fuel f dir = Ok (stats (below f dir)).
Proof.
  intros Hwf. revert dir. induction fuel as [|fuel IH]; intros dir Hdir Hdepth.
  { exfalso. specialize (Hdepth dir ltac:(by eauto) ltac:(done)). lia. }
  cbn [getDirectorySize].
  assert (readdir f dir = Ok (merge_sort String.le (elements (children f dir)))) as Hrd
    by (unfold readdir; by rewrite Hdir).
  rewrite Hrd, res_bind_Ok_l. destruct (readdir_spec _ _ _ Hrd) as (_ & Hnd & Hn).
  rewrite (res_foldl_sum _ (fun x => stats (subtree f (dir ++ [x])))).
  { rewrite (below_children f dir _ Hwf Hn), stats_family, padd_0_l; [done..|].
    intros x y. apply subtree_children_disjoint. }
  intros acc x Hx. destruct (proj1 (Hn x) Hx) as [e He]. cbv beta zeta. rewrite He.
  rewrite (subtree_entry f _ e He), stats_insert
    by (rewrite below_lookup, bool_decide_eq_false_2; [done | by intros [_ []]]).
  destruct e as [d|].
  - rewrite (below_file f _ d Hwf He), stats_empty. f_equal. padd_solve.
  - rewrite IH; [simpl; f_equal; padd_solve | done |].
    intros q Hq Hpre. pose proof (Hdepth q Hq ltac:(etrans; [|exact Hpre]; by exists [x])).
    rewrite length_app. simpl. lia.
Qed.
