(* ===== verification/SimpleMain.v ===== *)
(** * A run of [src/build-simple.js] with its own configuration

    What [node build-simple.js] leaves in the file system: the theorems of
    this file instantiate the walk of [SimpleBuild] at [simple_config]
    (source [.], build directory [dist]) and follow [main] through its
    steps: the module-level [mkdirSync] (lines 21-23), [clean] (lines
    186-190), [copyFiles] (line 193), the two generators (lines 196-197) and
    [getDirectorySize] (line 205). *)

From S2P Require Import Prelude JsString Sitemap NodeFs SimpleBuild DirSize.
From Stdlib Require Import Ascii.

Abbreviation dist := "dist".

(** What [rmSync] then [mkdirSync] leave: the store without the old build,
    and an empty [dist]. *)
Definition fresh_build (f : fs) : fs :=
  <[[dist] := EDir]> (filter (fun kv => ¬ ([dist] `prefix_of` kv.1)) f).

(** The store after [copyFiles] (line 193). *)
Definition walked (f : fs) : fs :=
  walk_out simple_config dist (fresh_build f) [] ∪ fresh_build f.

(** The store at the end of a successful run. *)
Definition build_output (iso : string) (f : fs) : fs :=
  <[[dist; "robots.txt"] := EFile robots_content]>
    (<[[dist; "sitemap.xml"] := EFile (sitemap_content iso)]> (walked f)).

Lemma filter_dist_lookup (f : fs) (k : path) :
  filter (fun kv => ¬ ([dist] `prefix_of` kv.1)) f !! k =
  if bool_decide ([dist] `prefix_of` k) then None else f !! k.
Proof.
  rewrite map_lookup_filter. destruct (f !! k); simpl; case_bool_decide;
    [rewrite option_guard_False | rewrite option_guard_True | done | done]; auto.
Qed.

Lemma fresh_build_lookup (f : fs) (k : path) :
  fresh_build f !! k =
  if bool_decide (k = [dist]) then Some EDir
  else if bool_decide ([dist] `prefix_of` k) then None else f !! k.
Proof.
  unfold fresh_build. case_bool_decide as Hk; [subst; apply lookup_insert_eq|].
  rewrite lookup_insert_ne by done. apply filter_dist_lookup.
Qed.

Lemma fresh_build_ext (f g : fs) :
  (forall k, ~ [dist] `prefix_of` k -> g !! k = f !! k) -> fresh_build g = fresh_build f.
Proof.
  intros Hk. apply map_eq. intros k. rewrite !fresh_build_lookup.
  repeat case_bool_decide; auto.
Qed.

(** Lines 186-190 on a store where [dist] exists. *)
Lemma clean_fresh (f0 : fs) :
  fs_wf f0 -> is_Some (f0 !! [dist]) -> clean simple_config f0 = Ok (fresh_build f0).
Proof.
  intros Hwf [e He]. unfold clean, exists_sync. cbn [buildDir simple_config].
  rewrite bool_decide_eq_true_2 by eauto. unfold rm_rf. rewrite He, res_bind_Ok_l.
  apply mkdir_p_fresh.
  - eapply (rm_rf_wf f0 _ [dist]); [exact Hwf | done | unfold rm_rf; by rewrite He].
  - done.
  - rewrite filter_dist_lookup, bool_decide_eq_false_2; [apply Hwf|].
    by intros ?%prefix_nil_inv.
  - by rewrite filter_dist_lookup, bool_decide_eq_true_2.
Qed.

(** Lines 21-23 then 186-190: whether or not [dist] existed, and whatever
    it held, the build starts from [fresh_build f]. *)
Lemma main_clean (f : fs) :
  fs_wf f -> exists f0, ensure_dir f [dist] = Ok f0 /\ fs_wf f0 /\
    clean simple_config f0 = Ok (fresh_build f).
Proof.
  intros Hwf. unfold ensure_dir, exists_sync.
  destruct (decide (is_Some (f !! [dist]))) as [Hd|Hd].
  - exists f. rewrite bool_decide_eq_true_2 by done. split_and!; [done..|by apply clean_fresh].
  - rewrite bool_decide_eq_false_2 by done.
    assert (mkdir_p f [dist] = Ok (<[[dist] := EDir]> f)) as Hmk.
    { apply mkdir_p_fresh; [done | done | apply Hwf | by apply eq_None_not_Some]. }
    exists (<[[dist] := EDir]> f). split_and!; [done | by eapply mkdir_p_wf|].
    rewrite clean_fresh by (by eapply mkdir_p_wf || by rewrite lookup_insert_eq).
    f_equal. apply fresh_build_ext. intros k Hk. apply lookup_insert_ne.
    intros <-. by apply Hk.
Qed.

Lemma fresh_build_wf (f : fs) : fs_wf f -> fs_wf (fresh_build f).
Proof.
  intros Hwf. destruct (main_clean f Hwf) as (f0 & _ & Hwf0 & Hc).
  by eapply clean_wf; [| exact Hwf0 | exact Hc].
Qed.

Lemma dist_excluded : dist ∈ excludeDirs simple_config.
Proof. by apply (bool_decide_unpack _). Qed.

Lemma dot_not_excluded : "." ∉ excludeDirs simple_config.
Proof. by apply (bool_decide_unpack _). Qed.

(** The walk of line 193 starts in a state where its invariant holds. *)
Lemma walk_start (f : fs) :
  fs_wf f -> walk_inv simple_config dist (fresh_build f) (fresh_build f) [].
Proof.
  intros Hwf. pose proof (fresh_build_wf f Hwf) as HT.
  assert (fresh_build f !! [dist] = Some EDir) as Hd by apply lookup_insert_eq.
  constructor; try done.
  - intros q _ Hq. rewrite fresh_build_lookup, bool_decide_eq_false_2 by (by intros [= ->]).
    by rewrite bool_decide_eq_true_2 by (by exists q).
  - by exists EDir; apply HT.
Qed.

(** The source tree's root is copied, so [dist] stays a directory. *)
Lemma walk_out_root (T : fs) :
  fs_wf T -> walk_out simple_config dist T [] !! [dist] = Some EDir.
Proof.
  intros [Hroot _]. rewrite walk_out_lookup. unfold shown. rewrite Hroot. reflexivity.
Qed.

Lemma fresh_build_outside (f : fs) (k : path) :
  ~ [dist] `prefix_of` k -> fresh_build f !! k = f !! k.
Proof.
  intros Hk. rewrite fresh_build_lookup, !bool_decide_eq_false_2; [done..|]. by intros ->.
Qed.

Lemma fresh_build_inside (f : fs) (q : path) :
  q <> [] -> fresh_build f !! (dist :: q) = None.
Proof.
  intros Hq. rewrite fresh_build_lookup, bool_decide_eq_false_2 by (by intros [= ->]).
  by rewrite bool_decide_eq_true_2 by (by exists q).
Qed.

Lemma not_under_dist (x : string) (r : path) : x <> dist -> ~ [dist] `prefix_of` x :: r.
Proof. intros Hx [r' [= Hxd _]]. by apply Hx. Qed.

(** The two generated files land in [dist] unless the source tree has a
    directory of that name at its top. *)
Lemma output_top (f : fs) (x : string) :
  x <> dist -> f !! [x] <> Some EDir ->
  walked f !! [dist; x] <> Some EDir.
Proof.
  intros Hx Hf. unfold walked. rewrite lookup_union_l by (by apply fresh_build_inside).
  rewrite walk_out_lookup, fresh_build_outside by (by apply not_under_dist).
  destruct (f !! [x]) as [[d|]|]; simpl; [by case_match | done | done].
Qed.

(** The walk of line 193 on the fresh build directory. *)
Lemma main_walk (fuel : nat) (f : fs) :
  fs_wf f -> 1 < fuel -> (forall q, is_Some (f !! q) -> length q < fuel) ->
  copyFiles simple_config fuel [] [dist] (fresh_build f) = Ok (walked f).
Proof.
  intros Hwf Hfuel Hdepth.
  apply (copyFiles_walk simple_config dist dist_excluded dot_not_excluded); [by apply walk_start|].
  intros q Hq _. simpl. rewrite fresh_build_lookup in Hq.
  repeat case_bool_decide; subst; [simpl; lia | by destruct Hq | by apply Hdepth].
Qed.

(** The tree after the walk is at most one level deeper than the source
    tree. *)
Lemma walk_depth (fuel : nat) (f : fs) :
  1 < fuel -> (forall q, is_Some (f !! q) -> length q < fuel) ->
  forall q, is_Some (walked f !! q) ->
  length q < 1 + fuel.
Proof.
  intros Hfuel Hdepth q [Hq|Hq]%lookup_union_is_Some.
  - destruct Hq as [e He]. apply walk_out_lookup_Some in He as (q' & e0 & -> & Hq' & _).
    rewrite fresh_build_lookup in Hq'. simpl.
    repeat case_bool_decide; subst; [simpl; lia | done |].
    pose proof (Hdepth q' ltac:(by rewrite Hq')). lia.
  - rewrite fresh_build_lookup in Hq.
    repeat case_bool_decide; subst; [simpl; lia | by destruct Hq |].
    pose proof (Hdepth q Hq). lia.
Qed.

(** Lines 21-23, 186-190 and 193: on a well-formed tree the run reaches
    the generators with the store [walked f]. *)
Lemma main_generate (fuel : nat) (iso : string) (f : fs) :
  fs_wf f -> 1 < fuel -> (forall q, is_Some (f !! q) -> length q < fuel) ->
  main simple_config fuel iso f =
  (f3 ← write_file (walked f) [dist; "sitemap.xml"] (sitemap_content iso);
   f4 ← write_file f3 [dist; "robots.txt"] robots_content;
   size ← getDirectorySize fuel f4 [dist];
   Ok (f4, size)).
Proof.
  intros Hwf Hfuel Hdepth.
  destruct (main_clean f Hwf) as (f0 & He & _ & Hc).
  unfold main, build, generateSitemap, generateRobotsTxt.
  change (buildDir simple_config) with [dist]. change (sourceDir simple_config) with (@nil string).
  by rewrite He, res_bind_Ok_l, Hc, res_bind_Ok_l, main_walk, res_bind_Ok_l.
Qed.

Lemma walked_wf (fuel : nat) (f : fs) :
  fs_wf f -> 1 < fuel -> (forall q, is_Some (f !! q) -> length q < fuel) -> fs_wf (walked f).
Proof.
  intros Hwf ??. eapply copyFiles_wf; [apply fresh_build_wf, Hwf | by apply (main_walk fuel)].
Qed.

Lemma walked_dist (f : fs) : fs_wf f -> walked f !! [dist] = Some EDir.
Proof.
  intros Hwf. unfold walked. rewrite lookup_union_l'; [apply walk_out_root, fresh_build_wf, Hwf|].
  by rewrite walk_out_root by (apply fresh_build_wf, Hwf).
Qed.

Lemma map_Forall_depth (f : fs) (fuel : nat) :
  map_Forall (fun q _ => length q < fuel) f -> forall q, is_Some (f !! q) -> length q < fuel.
Proof. intros Hd q [e He]. exact (map_Forall_lookup_1 _ _ _ _ Hd He). Qed.

(** ** What the run leaves *)

Lemma build_output_frame (iso : string) (f : fs) (k : path) :
  ~ [dist] `prefix_of` k -> build_output iso f !! k = f !! k.
Proof.
  intros Hk. unfold build_output, walked.
  rewrite !lookup_insert_ne by (intros <-; apply Hk; by eexists).
  rewrite lookup_union_r by (apply walk_out_lookup_other; intros q ->; apply Hk; by exists q).
  by apply fresh_build_outside.
Qed.

Lemma build_output_copied (iso : string) (f : fs) (x : string) (r : path) :
  x <> dist -> x :: r <> ["sitemap.xml"] -> x :: r <> ["robots.txt"] ->
  build_output iso f !! (dist :: x :: r) =
  f !! (x :: r) ≫= fun e => if shown simple_config f (x :: r)
                            then Some (out_entry simple_config e (x :: r)) else None.
Proof.
  intros Hx Hs Hr. unfold build_output, walked.
  rewrite !lookup_insert_ne by (intros [= ??]; by subst).
  rewrite lookup_union_l by (by apply fresh_build_inside).
  rewrite walk_out_lookup. unfold shown.
  by rewrite !fresh_build_outside by (by apply not_under_dist).
Qed.

(** The old build is not copied into the new one. *)
Lemma build_output_dist_dist (iso : string) (f : fs) (r : path) :
  build_output iso f !! (dist :: dist :: r) = None.
Proof.
  unfold build_output, walked.
  rewrite !lookup_insert_ne by (intros [=]).
  rewrite lookup_union_l by (by apply fresh_build_inside).
  rewrite walk_out_lookup. destruct r as [|y r].
  - assert (fresh_build f !! [dist] = Some EDir) as Hd by apply lookup_insert_eq.
    unfold shown. by rewrite Hd.
  - by rewrite fresh_build_inside.
Qed.

(** A run depends on the tree outside [dist] only. *)
Lemma build_output_ext (iso : string) (f g : fs) :
  (forall k, ~ [dist] `prefix_of` k -> g !! k = f !! k) ->
  build_output iso g = build_output iso f.
Proof. intros Hk. unfold build_output, walked. by rewrite (fresh_build_ext f g Hk). Qed.

(** ** A run on a tree the script can build *)

Section Run.
Context (fuel : nat) (iso : string) (f : fs).
Hypothesis Hwf : fs_wf f.
Hypothesis Hfuel : 1 < fuel.
Hypothesis Hdepth : map_Forall (fun q _ => length q < fuel) f.
Hypothesis Hsm : f !! ["sitemap.xml"] <> Some EDir.
Hypothesis Hrb : f !! ["robots.txt"] <> Some EDir.

Lemma run_depth : forall q, is_Some (f !! q) -> length q < fuel.
Proof. by apply map_Forall_depth. Qed.

Lemma build_output_wf : fs_wf (build_output iso f).
Proof.
  pose proof (walked_wf fuel f Hwf Hfuel run_depth) as HW.
  unfold build_output. apply fs_wf_insert; [|done| |].
  - apply fs_wf_insert; [done | done | by apply walked_dist | right; by apply output_top].
  - rewrite lookup_insert_ne by done. by apply walked_dist.
  - right. rewrite lookup_insert_ne by done. by apply output_top.
Qed.

Lemma main_result :
  main simple_config fuel iso f = Ok (build_output iso f, stats (below (build_output iso f) [dist])).
Proof.
  pose proof run_depth as Hdepth'.
  rewrite main_generate by done.
  pose proof (write_file_ok (walked f) [dist; "sitemap.xml"] (sitemap_content iso)
    (walked_dist f Hwf) ltac:(by apply output_top)) as Hw1.
  pose proof (write_file_ok (<[[dist; "sitemap.xml"] := EFile (sitemap_content iso)]> (walked f))
    [dist; "robots.txt"] robots_content
    ltac:(rewrite lookup_insert_ne by done; by apply walked_dist)
    ltac:(rewrite lookup_insert_ne by done; by apply output_top)) as Hw2.
  rewrite Hw1, res_bind_Ok_l, Hw2, res_bind_Ok_l.
  rewrite getDirectorySize_spec; [done | apply build_output_wf |..].
  - unfold build_output. rewrite !lookup_insert_ne by done. by apply walked_dist.
  - intros q Hq _. unfold build_output in Hq. rewrite !lookup_insert_is_Some' in Hq.
    destruct Hq as [<-|[<-|Hq]]; [simpl; lia..|]. by apply (walk_depth fuel f).
Qed.

(** The output is one level deeper than the source. *)
Lemma build_output_depth : map_Forall (fun q _ => length q < S fuel) (build_output iso f).
Proof.
  apply map_Forall_lookup_2. intros q e Hq.
  assert (is_Some (build_output iso f !! q)) as Hs by eauto.
  unfold build_output in Hs. rewrite !lookup_insert_is_Some' in Hs.
  destruct Hs as [<-|[<-|Hs]]; [simpl; lia..|].
  pose proof (walk_depth fuel f Hfuel run_depth q Hs). lia.
Qed.
End Run.

(** C1: [node build-simple.js] on a well-formed tree whose depth is below
    the fuel, with no directory named [sitemap.xml] or [robots.txt] at its
    top, returns normally. The store it leaves has a directory [dist] that
    holds the generated [sitemap.xml] and [robots.txt], nothing of the old
    build, and for every other path exactly the source entry when it is
    shown (no excluded directory on the way, not an excluded name), a file
    with its minified content when that is shorter. The size it reports is
    the total size and the number of the files in [dist]. *)
Theorem main_spec (fuel : nat) (iso : string) (f : fs) :
  fs_wf f -> 1 < fuel -> map_Forall (fun q _ => length q < fuel) f ->
  f !! ["sitemap.xml"] <> Some EDir -> f !! ["robots.txt"] <> Some EDir ->
  exists f' s, main simple_config fuel iso f = Ok (f', s) /\
    f' !! [dist] = Some EDir /\
    f' !! [dist; "sitemap.xml"] = Some (EFile (sitemap_content iso)) /\
    f' !! [dist; "robots.txt"] = Some (EFile robots_content) /\
    (forall r, f' !! (dist :: dist :: r) = None) /\
    (forall x r, x <> dist -> x :: r <> ["sitemap.xml"] -> x :: r <> ["robots.txt"] ->
       f' !! (dist :: x :: r) =
       f !! (x :: r) ≫= fun e => if shown simple_config f (x :: r)
                                 then Some (out_entry simple_config e (x :: r)) else None) /\
    s = stats (below f' [dist]).
Proof.
  intros Hwf Hfuel Hdepth Hsm Hrb.
  eexists _, _. split; [by apply main_result|].
  split_and!; [| | | apply build_output_dist_dist | apply build_output_copied | done].
  - unfold build_output. rewrite !lookup_insert_ne by done. by apply walked_dist.
  - unfold build_output. by rewrite lookup_insert_ne, lookup_insert_eq.
  - apply lookup_insert_eq.
Qed.

(** A small site: a page, a style sheet, an excluded directory and an
    excluded file. *)
Definition example_site : fs :=
  list_to_map [([], EDir); (["index.html"], EFile "<p>  Hi  </p>");
               (["css"], EDir); (["css"; "a.css"], EFile "a { color : red ; }");
               (["node_modules"], EDir); (["node_modules"; "x.js"], EFile "x");
               ([".DS_Store"], EFile "junk")].

Lemma main_spec_witness :
  exists f' s, main simple_config 3 "2026-11-09T10:00:00.000Z" example_site = Ok (f', s) /\
    f' !! [dist; "css"; "a.css"] = Some (EFile "a{color:red}").
Proof.
  destruct (main_spec 3 "2026-11-09T10:00:00.000Z" example_site)
    as (f' & s & Hrun & _ & _ & _ & _ & Hcopy & _); [decide_it | lia | decide_it | decide_it | decide_it |].
  exists f', s. split; [done|]. rewrite Hcopy; [vm_compute; reflexivity | discriminate..].
Defined.

(** C2: the run changes nothing outside [dist]. *)
Theorem main_frame (fuel : nat) (iso : string) (f : fs) :
  fs_wf f -> 1 < fuel -> map_Forall (fun q _ => length q < fuel) f ->
  f !! ["sitemap.xml"] <> Some EDir -> f !! ["robots.txt"] <> Some EDir ->
  exists f' s, main simple_config fuel iso f = Ok (f', s) /\
    forall k, ~ [dist] `prefix_of` k -> f' !! k = f !! k.
Proof.
  intros. eexists _, _. split; [by apply main_result | apply build_output_frame].
Qed.

Lemma main_frame_witness :
  exists f' s, main simple_config 3 "2026-11-09" example_site = Ok (f', s) /\
    f' !! ["index.html"] = Some (EFile "<p>  Hi  </p>").
Proof.
  destruct (main_frame 3 "2026-11-09" example_site) as (f' & s & Hrun & Hframe);
    [decide_it | lia | decide_it | decide_it | decide_it |].
  exists f', s. split; [done|]. rewrite Hframe; [reflexivity | by apply not_under_dist].
Defined.

(** C3: running the script again on the store it left (with one more unit
    of fuel for the one more level) gives the same store and the same
    report: the build is idempotent. *)
Theorem main_idempotent (fuel : nat) (iso : string) (f : fs) :
  fs_wf f -> 1 < fuel -> map_Forall (fun q _ => length q < fuel) f ->
  f !! ["sitemap.xml"] <> Some EDir -> f !! ["robots.txt"] <> Some EDir ->
  exists f' s, main simple_config fuel iso f = Ok (f', s) /\
    main simple_config (S fuel) iso f' = Ok (f', s).
Proof.
  intros Hwf Hfuel Hdepth Hsm Hrb.
  pose proof (build_output_frame iso f) as Hfr.
  eexists _, _. split; [by apply main_result|].
  rewrite main_result; [|by apply (build_output_wf fuel) | lia | by apply build_output_depth
    | by rewrite Hfr by (by apply not_under_dist) ..].
  by rewrite (build_output_ext iso f (build_output iso f) Hfr).
Qed.

Lemma main_idempotent_witness :
  exists f' s, main simple_config 3 "2026-11-09" example_site = Ok (f', s) /\
    main simple_config 4 "2026-11-09" f' = Ok (f', s).
Proof.
  apply main_idempotent; [decide_it | lia | decide_it | decide_it | decide_it].
Defined.

(** C4: a directory named [sitemap.xml] at the top of the source tree is
    copied into [dist], and [writeFileSync] then fails on it: the run ends
    with [EISDIR] and exit status 1. *)
Theorem main_sitemap_dir (fuel : nat) (iso : string) (f : fs) :
  fs_wf f -> 1 < fuel -> map_Forall (fun q _ => length q < fuel) f ->
  f !! ["sitemap.xml"] = Some EDir ->
  main simple_config fuel iso f = Err (EISDIR [dist; "sitemap.xml"]).
Proof.
  intros Hwf Hfuel Hdepth Hsm.
  rewrite main_generate by (done || by apply map_Forall_depth).
  unfold write_file. cbn [dirname removelast]. rewrite walked_dist by done.
  unfold walked. rewrite lookup_union_l by (by apply fresh_build_inside).
  rewrite walk_out_lookup. unfold shown.
  by rewrite !fresh_build_outside, Hsm by (by apply not_under_dist).
Qed.

Lemma main_sitemap_dir_witness :
  main simple_config 3 "2026-11-09" (<[["sitemap.xml"] := EDir]> example_site) =
  Err (EISDIR [dist; "sitemap.xml"]).
Proof. apply main_sitemap_dir; [decide_it | lia | decide_it | reflexivity]. Defined.

