(* ===== verification/FullBuild.v ===== *)
(** * [src/build.js]: the build with external minifiers and compression

    The script walks the source tree like [build-simple.js], with three
    differences the model keeps: it never skips a directory (only files,
    by a substring test on the whole path, lines 55-61); it hands HTML, CSS,
    JS and images to external packages and writes the result without
    comparing lengths; it writes [.gz] and [.br] sidecars for a minified
    text longer than 1024 (lines 81-90, three times). It has no clean step.

    The packages are the class [Toolchain]: what a theorem proves holds for
    every minifier and compressor. A minifier that rejects its input is
    [None], which the script does not catch: the error reaches [build]'s
    [catch] (line 247) and the process exits with status 1.

    - [full_excluded] (lines 55-61), [write_sidecars] (81-90),
      [process_text] (74-127), [copyFilesFull] (42-148),
      [generateServiceWorker] (151-181), [buildFull] (233-251) and
      [mainFull] (36-39, 254). *)

From S2P Require Import Prelude JsString Sitemap NodeFs SimpleBuild.
From Stdlib Require Import Ascii.

(** ** The external packages *)

Class Toolchain : Type := {
  (** [await minify(html, config.htmlOptions)] (html-minifier-terser) *)
  html_minify : string -> option string;
  (** [new CleanCSS(config.cssOptions).minify(css).styles]: clean-css
      reports errors in its result and does not throw. *)
  clean_css : string -> string;
  (** [(await Terser.minify(js, config.jsOptions)).code] *)
  terser : string -> option string;
  (** [gzipSync(minified)] *)
  gzip : string -> string;
  (** [brotli.compress(Buffer.from(minified))]: [null] on failure. *)
  brotli_compress : string -> option string;
  (** imagemin with jpegtran, pngquant and svgo: the bytes it writes. *)
  imagemin_opt : string -> string
}.

(** The errors of a run: Node's, or a package's rejection. *)
Inductive berror : Type :=
| FsError (e : fs_error)
| ToolError (p : path).

Definition lift {A} (r : res fs_error A) : res berror A :=
  match r with Ok a => Ok a | Err e => Err (FsError e) end.

Lemma lift_Ok {A} (r : res fs_error A) (a : A) : lift r = Ok a <-> r = Ok a.
Proof. destruct r; simpl; split; congruence. Qed.

(** [`${target}.gz`]: the suffix on the last segment. *)
Definition with_suffix (p : path) (suf : string) : path :=
  dirname p ++ [basename p +:+ suf].

(** The configuration of lines 14-16. *)
Definition full_source_dir : path := [].
Definition full_build_dir : path := ["dist"].

Section Full.
Context `{TC : Toolchain}.

(** ** Lines 55-61: the files left out *)

(** [source] is the path as the script holds it ([path.join] output). The
    test is on substrings of the whole path. *)
Definition full_excluded (source : string) : bool :=
  includes source "node_modules" || includes source ".git" ||
  includes source ".github" || ends_with source ".md" ||
  (ends_with source ".json" && negb (ends_with source "manifest.json")).

(** ** Lines 81-90: the sidecars of a minified text *)

Definition write_sidecars (f : fs) (target : path) (minified : string) : res berror fs :=
  if 1024 <? String.length minified then
    f1 ← lift (write_file f (with_suffix target ".gz") (gzip minified));
    match brotli_compress minified with
    | Some b => lift (write_file f1 (with_suffix target ".br") b)
    | None => Ok f1
    end
  else Ok f.

(** ** Lines 74-127: one text branch, with its minifier *)

Definition process_text (tool : string -> option string) (f : fs) (source target : path) :
    res berror fs :=
  text ← lift (read_file f source);
  minified ← (match tool text with Some m => Ok m | None => Err (ToolError source) end);
  f1 ← lift (write_file f target minified);
  write_sidecars f1 target minified.

(** ** Lines 42-148 *)

Fixpoint copyFilesFull (fuel : nat) (source target : path) (f : fs) : res berror fs :=
  match fuel with
  | 0 => Err (FsError OutOfFuel)
  | S fuel' =>
      lift (lstat_is_dir f source) ≫= fun isDir : bool =>
      if isDir then
        lift (ensure_dir f target) ≫= fun f1 : fs =>
        lift (readdir f1 source) ≫= fun files : list string =>
        res_foldl (fun g file => copyFilesFull fuel' (source </> file) (target </> file) g)
          f1 files
      else if full_excluded (render source) then Ok f
      else
        lift (ensure_dir f (dirname target)) ≫= fun f1 : fs =>
        let ext := to_lower (extname source) in
        if bool_decide (ext ∈ [".html"]) then process_text html_minify f1 source target
        else if bool_decide (ext ∈ [".css"]) then
          process_text (fun s => Some (clean_css s)) f1 source target
        else if bool_decide (ext ∈ [".js"]) then process_text terser f1 source target
        else if bool_decide (ext ∈ [".jpg"; ".jpeg"; ".png"; ".svg"; ".gif"]) then
          lift (read_file f1 source) ≫= fun data : string =>
          lift (write_file f1 target (imagemin_opt data))
        else lift (copy_file f1 source target)
  end.

(** ** Lines 151-230: the generated files *)

Definition generateServiceWorker (f : fs) : res berror fs :=
  lift (write_file f (full_build_dir ++ ["sw.js"]) sw_content).

Definition generateSitemapFull (f : fs) (iso : string) : res berror fs :=
  lift (write_file f (full_build_dir ++ ["sitemap.xml"]) (sitemap_content iso)).

Definition generateRobotsTxtFull (f : fs) : res berror fs :=
  lift (write_file f (full_build_dir ++ ["robots.txt"]) robots_content).

(** ** Lines 233-251 and the module body (36-39, 254) *)

Definition buildFull (fuel : nat) (iso : string) (f : fs) : res berror fs :=
  f1 ← copyFilesFull fuel full_source_dir full_build_dir f;
  f2 ← generateServiceWorker f1;
  f3 ← generateSitemapFull f2 iso;
  generateRobotsTxtFull f3.

Definition mainFull (fuel : nat) (iso : string) (f : fs) : res berror fs :=
  f0 ← lift (ensure_dir f full_build_dir);
  buildFull fuel iso f0.

End Full.

(** ** The store only grows *)

Lemma ensure_dir_grows (g g' : fs) (p : path) : ensure_dir g p = Ok g' -> fs_grows g g'.
Proof. unfold ensure_dir. case_match; [by intros [= <-] | apply mkdir_p_grows]. Qed.

Lemma ensure_dir_made (g g' : fs) (p : path) :
  p <> [] -> ensure_dir g p = Ok g' -> is_Some (g' !! p).
Proof.
  unfold ensure_dir, exists_sync. intros Hp. case_bool_decide; [by intros [= <-]|].
  intros Hm. pose proof (mkdir_go_made g g' [] p Hp Hm) as Hd. simpl in Hd. by rewrite Hd.
Qed.

Section Grows.
Context `{TC : Toolchain}.

Lemma write_sidecars_grows (g g' : fs) (t : path) (m : string) :
  write_sidecars g t m = Ok g' -> fs_grows g g'.
Proof.
  unfold write_sidecars. case_match; [|by intros [= <-]].
  intros (g1 & E1%lift_Ok & Hk)%res_bind_Ok. apply write_file_grows in E1.
  destruct (brotli_compress m); [|by injection Hk as <-].
  etrans; [exact E1|]. apply lift_Ok, write_file_grows in Hk. done.
Qed.

Lemma process_text_grows (tool : string -> option string) (g g' : fs) (s t : path) :
  process_text tool g s t = Ok g' -> fs_grows g g'.
Proof.
  unfold process_text. intros (text & _ & Hk)%res_bind_Ok.
  apply res_bind_Ok in Hk as (m & _ & Hk). apply res_bind_Ok in Hk as (g1 & E1%lift_Ok & Hk).
  etrans; [by eapply write_file_grows | by eapply write_sidecars_grows].
Qed.

Lemma copyFilesFull_grows (fuel : nat) (s t : path) (g g' : fs) :
  copyFilesFull fuel s t g = Ok g' -> fs_grows g g'.
Proof.
  revert s t g g'; induction fuel as [|fuel IH]; intros s t g g'; [done|]. cbn [copyFilesFull].
  intros (isDir & _ & Hk)%res_bind_Ok. destruct isDir.
  - apply res_bind_Ok in Hk as (g1 & E1%lift_Ok & Hk). apply res_bind_Ok in Hk as (items & _ & Hk).
    etrans; [by eapply ensure_dir_grows|].
    revert Hk. apply (res_foldl_preserves (fs_grows g1)); [|done].
    intros a x a' Ha Hs. etrans; [exact Ha | by eapply IH].
  - case_match; [by injection Hk as <-|].
    apply res_bind_Ok in Hk as (g1 & E1%lift_Ok & Hk). etrans; [by eapply ensure_dir_grows|].
    repeat case_match; try by eapply process_text_grows.
    + apply res_bind_Ok in Hk as (d & _ & Hk). by eapply lift_Ok, write_file_grows in Hk.
    + by eapply lift_Ok, copy_file_grows in Hk.
Qed.
End Grows.

(** ** The walk enters [dist] *)

(** [dist], [dist/dist], ...: the paths the walk of [build.js] reaches
    inside its own output. *)
Lemma dirname_dist_chain (n : nat) : dirname (replicate (S n) "dist") = replicate n "dist".
Proof. by rewrite replicate_S_end, dirname_app. Qed.

Lemma basename_dist_chain (n : nat) : basename (replicate (S n) "dist") = "dist".
Proof. by rewrite replicate_S_end, basename_app. Qed.

Lemma all_in_dist_chain (n : nat) : all_in "dist/" (render (replicate (S n) "dist")) = true.
Proof.
  induction n as [|n IH]; [reflexivity|]. cbn [replicate render] in *.
  change (String.concat "/" ("dist" :: "dist" :: replicate n "dist"))
    with ("dist" +:+ ("/" +:+ String.concat "/" ("dist" :: replicate n "dist"))).
  by rewrite !all_chars_app, IH.
Qed.

(** No path of the chain is left out by lines 55-61: none of the tested
    patterns is made of the letters of ["dist/"]. *)
Lemma full_excluded_dist_chain (n : nat) : full_excluded (render (replicate (S n) "dist")) = false.
Proof.
  pose proof (all_in_dist_chain n) as Ha. unfold full_excluded.
  repeat match goal with
  | |- context [includes ?s ?p] =>
      let E := fresh in destruct (includes s p) eqn:E;
      [apply (includes_all_chars (in_class "dist/")) in E; [by vm_compute in E | done] |]
  | |- context [ends_with ?s ".json"] =>
      let E := fresh in destruct (ends_with s ".json") eqn:E;
      [apply (ends_with_all_chars (in_class "dist/")) in E; [by vm_compute in E | done] |]
  | |- context [ends_with ?s ?p] =>
      let E := fresh in destruct (ends_with s p) eqn:E;
      [apply (ends_with_all_chars (in_class "dist/")) in E; [by vm_compute in E | done] |]
  end.
  done.
Qed.

Section Diverge.
Context `{TC : Toolchain}.

(** At every level of the chain the walk fails: a directory [dist^i] has
    the child [dist^(i+1)] (the mirror the walk itself creates, line 45),
    into which it descends; a file [dist^i] cannot be copied to
    [dist^(i+1)], whose parent is that file. *)
Lemma full_chain_err (fuel : nat) : forall (i : nat) (g g' : fs) (e : entry),
  g !! replicate i "dist" = Some e -> (i = 0 -> e = EDir) ->
  copyFilesFull fuel (replicate i "dist") (replicate (S i) "dist") g <> Ok g'.
Proof.
  induction fuel as [|fuel IH]; intros i g g' e Hs Hi Hk; [done|].
  cbn [copyFilesFull] in Hk. unfold lstat_is_dir in Hk. rewrite Hs in Hk.
  destruct e as [d|].
  - destruct i as [|i]; [by specialize (Hi eq_refl)|].
    cbn [lift] in Hk. rewrite res_bind_Ok_l, full_excluded_dist_chain, dirname_dist_chain in Hk.
    assert (exists_sync g (replicate (S i) "dist") = true) as Hex
      by (apply bool_decide_eq_true_2; eexists; exact Hs).
    unfold ensure_dir in Hk. rewrite Hex in Hk.
    cbn [lift] in Hk. rewrite res_bind_Ok_l in Hk.
    unfold extname in Hk. rewrite basename_dist_chain in Hk.
    change (to_lower (extname_of "dist")) with "" in Hk.
    change (bool_decide ("" ∈ [".html"])) with false in Hk.
    change (bool_decide ("" ∈ [".css"])) with false in Hk.
    change (bool_decide ("" ∈ [".js"])) with false in Hk.
    change (bool_decide ("" ∈ [".jpg"; ".jpeg"; ".png"; ".svg"; ".gif"])) with false in Hk.
    cbv iota in Hk. apply lift_Ok in Hk.
    unfold copy_file, read_file, write_file in Hk. rewrite Hs, dirname_dist_chain, Hs in Hk.
    done.
  - cbn [lift] in Hk. rewrite res_bind_Ok_l in Hk.
    apply res_bind_Ok in Hk as (g1 & E1%lift_Ok & Hk).
    apply res_bind_Ok in Hk as (items & E2%lift_Ok & Hk).
    destruct (readdir_spec _ _ _ E2) as (_ & _ & Hitems).
    assert (is_Some (g1 !! replicate (S i) "dist")) as Hmade by (eapply ensure_dir_made; [done | exact E1]).
    assert ("dist" ∈ items) as Hd by (apply Hitems; by rewrite <- replicate_S_end).
    destruct (@res_foldl_Ok_elem berror fs string (fun h : fs => is_Some (h !! replicate (S i) "dist"))
      (fun g file => copyFilesFull fuel (replicate i "dist" ++ [file]) (replicate (S i) "dist" ++ [file]) g)
      g1 g' items "dist")
      as (h & h' & [e' He'] & Hstep); [| exact Hmade | exact Hk | exact Hd |].
    + intros a x a' [e0 He0] Hs'. destruct (copyFilesFull_grows _ _ _ _ _ Hs' _ _ He0) as (e1 & He1 & _).
      by exists e1.
    + rewrite <- !replicate_S_end in Hstep. by apply (IH (S i) h h' e').
Qed.
End Diverge.

(** C12: [node build.js] never completes, whatever the packages do and
    however much fuel the model is given: the walk from ['.'] reaches the
    build directory [dist] it has just created (lines 36-39), mirrors it
    into [dist/dist], walks that, and so on. (Node stops it with
    [ENAMETOOLONG]; either way [build] exits with status 1.) *)
Theorem mainFull_fails `{TC : Toolchain} (fuel : nat) (iso : string) (f : fs) :
  f !! [] = Some EDir -> exists e, mainFull fuel iso f = Err e.
Proof.
  intros Hroot. unfold mainFull, buildFull.
  destruct (ensure_dir f full_build_dir) as [f0|e] eqn:E0; [|by eexists]. cbn [lift].
  rewrite res_bind_Ok_l.
  destruct (copyFilesFull fuel full_source_dir full_build_dir f0) as [g|e] eqn:E1; [|by eexists].
  exfalso. destruct (ensure_dir_grows _ _ _ E0 [] EDir Hroot) as (e0 & He0 & Hd).
  rewrite Hd in He0 by done. by apply (full_chain_err fuel 0 f0 g EDir).
Qed.

(** A toolchain that changes nothing, to run the model on examples. *)
#[local] Instance id_toolchain : Toolchain := {|
  html_minify := Some; clean_css := fun s => s; terser := Some;
  gzip := fun s => s; brotli_compress := Some; imagemin_opt := fun s => s
|}.

Lemma mainFull_fails_witness :
  exists e, mainFull 10 "2026-11-09T10:00:00.000Z" {[ [] := EDir ]} = Err e.
Proof. apply mainFull_fails. decide_it. Defined.

(** ** The sidecars (lines 81-90) *)

Lemma with_suffix_neq (p : path) (suf : string) :
  suf <> "" -> with_suffix p suf <> p.
Proof.
  intros Hs Heq. apply (f_equal basename) in Heq. unfold with_suffix in Heq.
  rewrite basename_app in Heq. apply (f_equal String.length) in Heq.
  rewrite slen_app in Heq. destruct suf; [done|]. simpl in Heq. lia.
Qed.

Lemma with_suffix_inj (p : path) (a b : string) : with_suffix p a = with_suffix p b -> a = b.
Proof.
  intros Heq. apply (f_equal basename) in Heq. unfold with_suffix in Heq.
  rewrite !basename_app in Heq. by apply sapp_inv_l in Heq.
Qed.

Lemma dirname_with_suffix (p : path) (suf : string) : dirname (with_suffix p suf) = dirname p.
Proof. apply dirname_app. Qed.

Lemma dirname_neq_with_suffix (p : path) (suf : string) : dirname p <> with_suffix p suf.
Proof.
  intros Heq. apply (dirname_neq (with_suffix p suf)); [apply snoc_ne_nil|].
  by rewrite dirname_with_suffix.
Qed.

Section Sidecars.
Context `{TC : Toolchain}.

(** [write_sidecars] under an existing directory, where no sidecar is
    yet: the [.gz] and [.br] files exist exactly when the text is longer
    than 1024, and nothing else changes. *)
Lemma write_sidecars_spec (g : fs) (t : path) (m : string) :
  g !! dirname t = Some EDir ->
  g !! with_suffix t ".gz" = None -> g !! with_suffix t ".br" = None ->
  exists g', write_sidecars g t m = Ok g' /\
    (forall p, p <> with_suffix t ".gz" -> p <> with_suffix t ".br" -> g' !! p = g !! p) /\
    g' !! with_suffix t ".gz" = (if 1024 <? String.length m then Some (EFile (gzip m)) else None) /\
    g' !! with_suffix t ".br" =
      (if 1024 <? String.length m then EFile <$> brotli_compress m else None).
Proof.
  intros Hd Hgz Hbr. unfold write_sidecars.
  assert (with_suffix t ".br" <> with_suffix t ".gz") as Hne by (by intros ?%with_suffix_inj).
  assert (with_suffix t ".gz" <> with_suffix t ".br") as Hne' by (by intros ?%with_suffix_inj).
  pose proof (dirname_neq_with_suffix t ".gz") as Hdg.
  pose proof (dirname_neq_with_suffix t ".br") as Hdb.
  destruct (1024 <? String.length m); [|by exists g].
  rewrite write_file_ok; [|by rewrite dirname_with_suffix | by rewrite Hgz].
  cbn [lift]. rewrite res_bind_Ok_l.
  destruct (brotli_compress m) as [b|]; simpl.
  - rewrite write_file_ok; [| by rewrite dirname_with_suffix, lookup_insert_ne
                            | by rewrite lookup_insert_ne, Hbr].
    eexists; split; [done|]. split_and!.
    + intros p H1 H2. by rewrite !lookup_insert_ne.
    + by rewrite lookup_insert_ne, lookup_insert_eq.
    + by rewrite lookup_insert_eq.
  - eexists; split; [done|]. split_and!.
    + intros p H1 H2. by rewrite lookup_insert_ne.
    + by rewrite lookup_insert_eq.
    + by rewrite lookup_insert_ne.
Qed.
End Sidecars.

(** C13: an HTML file that is not left out is written minified, with a
    [.gz] sidecar holding [gzipSync] of the minified text and a [.br]
    sidecar holding the brotli output (when brotli succeeds) exactly when
    the minified text is longer than 1024; at 1024 or less there is no
    sidecar. *)
Theorem full_html_sidecars `{TC : Toolchain} (fuel : nat) (f : fs) (src tgt : path) (text m : string) :
  f !! src = Some (EFile text) -> full_excluded (render src) = false ->
  to_lower (extname src) = ".html" -> html_minify text = Some m ->
  f !! dirname tgt = Some EDir -> f !! tgt <> Some EDir ->
  f !! with_suffix tgt ".gz" = None -> f !! with_suffix tgt ".br" = None ->
  exists f', copyFilesFull (S fuel) src tgt f = Ok f' /\
    f' !! tgt = Some (EFile m) /\
    f' !! with_suffix tgt ".gz" = (if 1024 <? String.length m then Some (EFile (gzip m)) else None) /\
    f' !! with_suffix tgt ".br" = (if 1024 <? String.length m then EFile <$> brotli_compress m else None).
Proof.
  intros Hs Hex Hext Hm Hd Ht Hgz Hbr.
  assert (dirname tgt <> tgt) as Hdt by (intros Heq; rewrite Heq in Hd; by apply Ht).
  assert (exists_sync f (dirname tgt) = true) as Hexd by (apply bool_decide_eq_true_2; by rewrite Hd).
  cbn [copyFilesFull]. unfold lstat_is_dir. rewrite Hs. cbn [lift]. rewrite res_bind_Ok_l, Hex.
  unfold ensure_dir at 1. rewrite Hexd. cbn [lift]. rewrite res_bind_Ok_l. cbv beta zeta.
  rewrite Hext. change (bool_decide (".html" ∈ [".html"])) with true. cbv iota.
  unfold process_text, read_file at 1. rewrite Hs. cbn [lift]. rewrite res_bind_Ok_l, Hm, res_bind_Ok_l.
  rewrite (write_file_ok f tgt m Hd Ht). cbn [lift]. rewrite res_bind_Ok_l.
  destruct (write_sidecars_spec (<[tgt := EFile m]> f) tgt m) as (g' & Hw & Hsame & Hg & Hb).
  - by rewrite lookup_insert_ne.
  - rewrite lookup_insert_ne; [done|]. apply not_eq_sym, with_suffix_neq. done.
  - rewrite lookup_insert_ne; [done|]. apply not_eq_sym, with_suffix_neq. done.
  - exists g'. split_and!; [done | | done | done].
    rewrite Hsame; [apply lookup_insert_eq | apply not_eq_sym, with_suffix_neq.. ]; done.
Qed.

(** [n] copies of ['a']. *)
Fixpoint a_text (n : nat) : string :=
  match n with 0 => EmptyString | S n' => String "a" (a_text n') end.

Definition page_store (n : nat) : fs :=
  list_to_map [([], EDir); (["index.html"], EFile (a_text n)); (["dist"], EDir)].

Lemma full_html_sidecars_witness :
  exists f', copyFilesFull 1 ["index.html"] ["dist"; "index.html"] (page_store 1025) = Ok f' /\
    f' !! ["dist"; "index.html.gz"] = Some (EFile (a_text 1025)).
Proof.
  destruct (full_html_sidecars 0 (page_store 1025) ["index.html"] ["dist"; "index.html"]
              (a_text 1025) (a_text 1025)) as (f' & Hrun & _ & Hgz & _);
    [decide_it | reflexivity | reflexivity | reflexivity | decide_it | decide_it | decide_it
    | decide_it |].
  exists f'. split; [done|]. exact Hgz.
Defined.

(** The spec's test at the threshold: a page of exactly 1024 characters
    gets no sidecar. *)
Example full_no_sidecar_at_1024 :
  (f' ← copyFilesFull 1 ["index.html"] ["dist"; "index.html"] (page_store 1024);
   Ok (f' !! ["dist"; "index.html.gz"], f' !! ["dist"; "index.html.br"])) = Ok (None, None).
Proof. vm_compute. reflexivity. Qed.

(** ** What the walk of build.js leaves out *)

(** The test of lines 55-61 looks for substrings of the whole path:
    a script whose name merely contains [.git] is left out, as is every
    [.json] file but a manifest, while [node_modules] itself is walked
    (the test is only made on files). *)
Example full_excluded_substring :
  full_excluded "assets/js/widget.gitlab.js" = true /\
  full_excluded "assets/data/events.json" = true /\
  full_excluded "site.webmanifest.json" = false /\
  full_excluded "README.MD" = false.
Proof. vm_compute. repeat split. Qed.

(** C15: no directory is skipped: every directory the walk reaches,
    [node_modules] and [.git] included, is mirrored in the build directory
    (lines 43-46), even when nothing below it is copied. *)
Theorem full_dirs_mirrored `{TC : Toolchain} (fuel : nat) (f f' : fs) (src tgt : path) :
  f !! src = Some EDir -> tgt <> [] -> copyFilesFull (S fuel) src tgt f = Ok f' ->
  is_Some (f' !! tgt).
Proof.
  intros Hs Ht. cbn [copyFilesFull]. unfold lstat_is_dir. rewrite Hs. cbn [lift].
  rewrite res_bind_Ok_l. intros (g1 & E1%lift_Ok & Hk)%res_bind_Ok.
  apply res_bind_Ok in Hk as (items & _ & Hk).
  destruct (ensure_dir_made _ _ _ Ht E1) as [e He].
  apply (res_foldl_preserves (fs_grows g1)) in Hk; [| |done].
  - destruct (Hk _ _ He) as (e' & He' & _). by exists e'.
  - intros a x a' Ha Hs'. etrans; [exact Ha | by eapply copyFilesFull_grows].
Qed.

Definition modules_store : fs :=
  list_to_map [([], EDir); (["node_modules"], EDir); (["node_modules"; "lib.js"], EFile "x");
               (["node_modules"; "README.md"], EFile "doc"); (["dist"], EDir)].

Lemma full_dirs_mirrored_witness :
  exists f', copyFilesFull 2 ["node_modules"] ["dist"; "node_modules"] modules_store = Ok f' /\
    is_Some (f' !! ["dist"; "node_modules"]).
Proof.
  destruct (copyFilesFull 2 ["node_modules"] ["dist"; "node_modules"] modules_store) as [f'|e] eqn:E;
    [|vm_compute in E; discriminate].
  exists f'. split; [done|].
  apply (full_dirs_mirrored 1 modules_store f' ["node_modules"] ["dist"; "node_modules"]);
    [reflexivity | discriminate | exact E].
Defined.
