(* ===== verification/FullExclude.v ===== *)
(** * [src/build.js]: what the walk leaves out

    [copyFilesFull] (lines 42-148) never skips a directory: it mirrors every
    directory it reaches (C15) and leaves a file out when the test of lines
    55-61 holds of the file's whole path. This file bounds what one walk may
    change in the store ([copyFilesFull_touch]) and concludes that a file
    lying under a directory whose name contains [node_modules] or [.git]
    gets nothing in the build directory: no copy, no minified text, no
    sidecar. The walk is taken between two directories that lie apart
    ([apart]): the call of [build] walks ['.'] into ['dist'], inside it,
    and never returns (C12). *)

From S2P Require Import Prelude JsString NodeFs SimpleBuild FullBuild.

(** ** Paths *)

(** Source and target lie apart: neither is below the other, and they are
    not two entries of one directory. *)
Definition apart (src tgt : path) : Prop :=
  ~ src `prefix_of` tgt /\ ~ tgt `prefix_of` src /\ dirname src <> dirname tgt.

#[export] Instance apart_dec (src tgt : path) : Decision (apart src tgt).
Proof. unfold apart. apply _. Defined.

Lemma snoc_prefix_inv (p q : path) (y : string) : p ++ [y] `prefix_of` q ++ [y] -> p `prefix_of` q.
Proof.
  intros [k Hk]. destruct k as [|z k _] using rev_ind.
  - rewrite app_nil_r in Hk. apply app_inj_tail in Hk as [-> _]. done.
  - rewrite !app_assoc in Hk. apply app_inj_tail in Hk as [-> _].
    exists ([y] ++ k). by rewrite app_assoc.
Qed.

Lemma prefix_snoc_inv (p l : path) (z : string) :
  p `prefix_of` l ++ [z] -> p `prefix_of` l \/ p = l ++ [z].
Proof.
  intros [k Hk]. destruct k as [|w k _] using rev_ind.
  - right. by rewrite app_nil_r in Hk.
  - left. rewrite app_assoc in Hk. apply app_inj_tail in Hk as [-> _]. by exists k.
Qed.

Lemma apart_child (src tgt : path) (y : string) : apart src tgt -> apart (src ++ [y]) (tgt ++ [y]).
Proof.
  intros (H1 & H2 & _). split_and!.
  - by intros ?%snoc_prefix_inv.
  - by intros ?%snoc_prefix_inv.
  - rewrite !dirname_app. intros ->. by apply H1.
Qed.

Lemma dirname_prefix (p : path) : dirname p `prefix_of` p.
Proof.
  destruct (decide (p = [])) as [->|Hp]; [done|].
  rewrite <- (dirname_app_basename p Hp) at 2. by exists [basename p].
Qed.

Lemma with_suffix_app (t r : path) (suf : string) :
  r <> [] -> with_suffix (t ++ r) suf = t ++ with_suffix r suf.
Proof.
  intros Hr. destruct r as [|y r _] using rev_ind; [done|]. unfold with_suffix.
  by rewrite app_assoc, dirname_app, basename_app, dirname_app, basename_app, <- app_assoc.
Qed.

Lemma with_suffix_length (p : path) (suf : string) : length (with_suffix p suf) <= S (length p - 1).
Proof.
  unfold with_suffix. rewrite length_app. simpl.
  destruct (decide (p = [])) as [->|Hp]; [simpl; lia|].
  pose proof (dirname_length p Hp). lia.
Qed.

(** ** What one walk may change *)

Lemma ensure_dir_changes (g g' : fs) (p : path) :
  ensure_dir g p = Ok g' -> changes_within (fun x => x `prefix_of` p) g g'.
Proof.
  unfold ensure_dir. case_match; [intros [= <-]; apply changes_within_refl | apply mkdir_p_changes].
Qed.

Section Exclude.
Context `{TC : Toolchain}.

Lemma write_sidecars_changes (g g' : fs) (t : path) (m : string) :
  write_sidecars g t m = Ok g' -> changes_within (fun x => exists suf, x = with_suffix t suf) g g'.
Proof.
  unfold write_sidecars. case_match; [|intros [= <-]; apply changes_within_refl].
  intros (g1 & E1%lift_Ok & Hk)%res_bind_Ok. eapply changes_within_trans.
  - eapply changes_within_mono; [|exact (write_file_changes _ _ _ _ E1)]. intros x <-. by eexists.
  - destruct (brotli_compress m); [|injection Hk as <-; apply changes_within_refl].
    apply lift_Ok, write_file_changes in Hk.
    eapply changes_within_mono; [|exact Hk]. intros x <-. by eexists.
Qed.

Lemma process_text_changes (tool : string -> option string) (g g' : fs) (s t : path) :
  process_text tool g s t = Ok g' ->
  changes_within (fun x => x = t \/ exists suf, x = with_suffix t suf) g g'.
Proof.
  unfold process_text. intros H. res_inv H. apply lift_Ok in E1.
  eapply changes_within_trans.
  - eapply changes_within_mono; [|exact (write_file_changes _ _ _ _ E1)]. intros y <-. by left.
  - eapply changes_within_mono; [|exact (write_sidecars_changes _ _ _ _ H)]. intros y ?. by right.
Qed.

(** The paths the walk from [src] to [tgt] may change, for a source path
    [src ++ r] of the store it starts from: the prefixes of the mirror
    [tgt ++ r] of a directory (lines 43-46); for a file the test of lines
    55-61 does not leave out, the prefixes of its mirror (line 65 and the
    writes) and its sidecars (lines 81-90). *)
Definition walk_touch (f : fs) (src tgt x : path) : Prop :=
  exists r,
    (f !! (src ++ r) = Some EDir /\ x `prefix_of` tgt ++ r) \/
    (exists d, f !! (src ++ r) = Some (EFile d) /\ full_excluded (render (src ++ r)) = false /\
       (x `prefix_of` tgt ++ r \/ exists suf, x = with_suffix (tgt ++ r) suf)).

(** Nothing the walk may change lies below its source. *)
Lemma touch_not_under (f : fs) (src tgt x : path) :
  apart src tgt -> walk_touch f src tgt x -> ~ src `prefix_of` x.
Proof.
  intros (H1 & H2 & H3) (r & Hr) Hsx.
  assert (forall k, ~ src `prefix_of` tgt ++ k) as Hin.
  { intros k Hk. destruct (prefix_weak_total src tgt (tgt ++ k)) as [?|?];
      [done | by exists k | by apply H1 | by apply H2]. }
  destruct Hr as [[_ Hx] | (d & _ & _ & [Hx | [suf ->]])]; [apply (Hin r); by etrans ..|].
  destruct (decide (r = [])) as [->|Hne].
  - rewrite app_nil_r in Hsx. unfold with_suffix in Hsx.
    destruct (prefix_snoc_inv _ _ _ Hsx) as [Hd | ->].
    + apply H1. etrans; [exact Hd | apply dirname_prefix].
    + apply H3. by rewrite dirname_app.
  - rewrite with_suffix_app in Hsx by done. by apply (Hin (with_suffix r suf)).
Qed.

(** A walk leaves the store unchanged below its source. *)
Lemma touch_agree (f g : fs) (src tgt : path) :
  apart src tgt -> changes_within (walk_touch f src tgt) f g ->
  forall r, g !! (src ++ r) = f !! (src ++ r).
Proof.
  intros Hap Hg r. destruct (decide (g !! (src ++ r) = f !! (src ++ r))) as [|Hne]; [done|].
  exfalso. apply (touch_not_under f src tgt (src ++ r) Hap (Hg _ Hne)). by exists r.
Qed.

(** What the walk of an entry may change, the walk of its directory may. *)
Lemma touch_child (f g : fs) (src tgt x : path) (y : string) :
  (forall r, g !! (src ++ r) = f !! (src ++ r)) ->
  walk_touch g (src ++ [y]) (tgt ++ [y]) x -> walk_touch f src tgt x.
Proof.
  intros Hag (r & Hr). exists (y :: r). rewrite <- Hag.
  rewrite <- !app_assoc in Hr. exact Hr.
Qed.

(** Everything a walk between two paths that lie apart changes is a
    mirror, a parent of a mirror, or a sidecar, of a directory or of a
    file that is not left out. *)
Lemma copyFilesFull_touch (fuel : nat) : forall (src tgt : path) (f f' : fs),
  apart src tgt -> copyFilesFull fuel src tgt f = Ok f' ->
  changes_within (walk_touch f src tgt) f f'.
Proof.
  induction fuel as [|fuel IH]; intros src tgt f f' Hap Hk; [done|]. cbn [copyFilesFull] in Hk.
  apply res_bind_Ok in Hk as (isDir & E0%lift_Ok & Hk). unfold lstat_is_dir in E0.
  destruct (f !! src) as [[d|]|] eqn:Hs; try done; injection E0 as <-.
  - destruct (full_excluded (render src)) eqn:Hex; [injection Hk as <-; apply changes_within_refl|].
    apply res_bind_Ok in Hk as (f1 & E1%lift_Ok & Hk).
    assert (forall x, x `prefix_of` tgt \/ (exists suf, x = with_suffix tgt suf) ->
              walk_touch f src tgt x) as Ht.
    { intros x Hx. exists []. right. exists d. rewrite !app_nil_r. by split_and!. }
    apply (changes_within_trans _ _ f1).
    { eapply changes_within_mono; [|exact (ensure_dir_changes _ _ _ E1)].
      intros x Hx. apply Ht. left. etrans; [exact Hx | apply dirname_prefix]. }
    assert (forall tool, process_text tool f1 src tgt = Ok f' ->
              changes_within (walk_touch f src tgt) f1 f') as Hpt.
    { intros tool Hp. eapply changes_within_mono; [|exact (process_text_changes _ _ _ _ _ Hp)].
      intros x [->|Hx]; apply Ht; [by left | by right]. }
    assert (changes_within (eq tgt) f1 f' -> changes_within (walk_touch f src tgt) f1 f') as Hw.
    { apply changes_within_mono. intros x <-. apply Ht. by left. }
    cbv zeta in Hk.
    destruct (bool_decide (_ ∈ [".html"])); [by apply (Hpt html_minify)|].
    destruct (bool_decide (_ ∈ [".css"])); [by apply (Hpt (fun s => Some (clean_css s)))|].
    destruct (bool_decide (_ ∈ [".js"])); [by apply (Hpt terser)|].
    destruct (bool_decide (_ ∈ _)).
    + apply res_bind_Ok in Hk as (data & _ & Hk). apply Hw. by eapply write_file_changes, lift_Ok.
    + apply Hw. by eapply copy_file_changes, lift_Ok.
  - apply res_bind_Ok in Hk as (f1 & E1%lift_Ok & Hk). apply res_bind_Ok in Hk as (items & _ & Hk).
    assert (changes_within (walk_touch f src tgt) f f1) as H1.
    { eapply changes_within_mono; [|exact (ensure_dir_changes _ _ _ E1)].
      intros x Hx. exists []. left. rewrite !app_nil_r. by split. }
    revert Hk. apply (res_foldl_preserves (changes_within (walk_touch f src tgt) f)); [|done].
    intros g y g' Hg Hstep. eapply changes_within_trans; [exact Hg|].
    eapply changes_within_mono; [|exact (IH _ _ _ _ (apart_child _ _ y Hap) Hstep)].
    intros x Hx. exact (touch_child f g src tgt x y (touch_agree f g src tgt Hap Hg) Hx).
Qed.

End Exclude.

(** A file lies strictly below no entry of a well-formed store. *)
Lemma file_not_strict_prefix (f : fs) (p q : path) (d : string) :
  fs_wf f -> f !! p = Some (EFile d) -> is_Some (f !! q) -> p `prefix_of` q -> p = q.
Proof.
  intros Hwf Hp [e Hq] Hpq. destruct (decide (p = q)) as [|Hne]; [done|].
  by rewrite (wf_ancestor_dir f q p e Hwf Hq Hpq Hne) in Hp.
Qed.

(** The test of lines 55-61 holds of every path with a directory whose
    name contains [node_modules] or [.git]. *)
Lemma full_excluded_under (src r : path) (y : string) :
  y ∈ dirname r -> includes y "node_modules" || includes y ".git" = true ->
  full_excluded (render (src ++ r)) = true.
Proof.
  intros Hy Hpat.
  assert (y ∈ src ++ r) as Hin.
  { apply elem_of_app. right. destruct (decide (r = [])) as [->|Hr]; [by apply elem_of_nil in Hy|].
    rewrite <- (dirname_app_basename r Hr). apply elem_of_app. by left. }
  unfold full_excluded. apply orb_true_iff in Hpat as [Hp|Hp];
    rewrite (includes_render _ _ _ Hin Hp); by rewrite ?orb_true_r.
Qed.

(** C14: a walk of build.js writes nothing for a file that lies under a
    directory whose name contains [node_modules] or [.git]: the mirror
    path of the file keeps what it had, so there is no copy, no minified
    text and no sidecar. The directories themselves are mirrored (C15).
    The test is on substrings of the path, so this holds for [.git],
    [.github] and [node_modules], and as well for a directory such as
    [my.github.io], whose pages are left out of the site. *)
Theorem full_excluded_dir_empty `{TC : Toolchain} (fuel : nat) (src tgt : path) (f f' : fs)
    (r : path) (y d : string) :
  fs_wf f -> apart src tgt -> copyFilesFull fuel src tgt f = Ok f' ->
  f !! (src ++ r) = Some (EFile d) -> y ∈ dirname r ->
  includes y "node_modules" || includes y ".git" = true ->
  f' !! (tgt ++ r) = f !! (tgt ++ r).
Proof.
  intros Hwf Hap Hk Hq Hy Hpat.
  destruct (decide (f' !! (tgt ++ r) = f !! (tgt ++ r))) as [|Hne]; [done|]. exfalso.
  pose proof (full_excluded_under src r y Hy Hpat) as Hex.
  destruct (copyFilesFull_touch fuel src tgt f f' Hap Hk _ Hne)
    as (r' & [[Hd Hx] | (d' & Hf & Hex' & [Hx | [suf Hx]])]).
  - apply prefix_app_inv in Hx.
    rewrite (file_not_strict_prefix f (src ++ r) (src ++ r') d Hwf Hq) in Hq;
      [congruence | by eexists | by apply prefix_app].
  - apply prefix_app_inv in Hx.
    assert (src ++ r = src ++ r') as Heq
      by (eapply file_not_strict_prefix; [done | exact Hq | by eexists | by apply prefix_app]).
    rewrite Heq in Hex. congruence.
  - destruct (decide (r' = [])) as [->|Hr'].
    + (* a sidecar of the walk's own source: [r] has at most one segment *)
      rewrite app_nil_r in Hx. pose proof (with_suffix_length tgt suf) as Hl.
      rewrite <- Hx, length_app in Hl.
      destruct r as [|z [|z' r]]; simpl in Hy, Hl; [by apply elem_of_nil in Hy | by apply elem_of_nil in Hy | lia].
    + rewrite with_suffix_app in Hx by done. apply app_inv_head in Hx. subst r.
      rewrite dirname_with_suffix in Hy. by rewrite (full_excluded_under src r' y Hy Hpat) in Hex'.
Qed.

#[local] Existing Instance id_toolchain.

(** A site with a directory [my.github.io]. *)
Definition docs_store : fs :=
  list_to_map [([], EDir); (["site"], EDir); (["site"; "my.github.io"], EDir);
               (["site"; "my.github.io"; "index.html"], EFile "<p>docs</p>"); (["dist"], EDir)].

Lemma full_excluded_dir_empty_witness :
  exists f', copyFilesFull 4 ["site"] ["dist"; "site"] docs_store = Ok f' /\
    f' !! ["dist"; "site"; "my.github.io"; "index.html"] = None.
Proof.
  destruct (copyFilesFull 4 ["site"] ["dist"; "site"] docs_store) as [f'|e] eqn:E;
    [|vm_compute in E; discriminate].
  exists f'. split; [done|].
  change ["dist"; "site"; "my.github.io"; "index.html"]
    with (["dist"; "site"] ++ ["my.github.io"; "index.html"]).
  rewrite (full_excluded_dir_empty 4 ["site"] ["dist"; "site"] docs_store f'
             ["my.github.io"; "index.html"] "my.github.io" "<p>docs</p>");
    [reflexivity | decide_it | decide_it | exact E | reflexivity | decide_it | reflexivity].
Defined.

