(* ===== verification/Frontend.v ===== *)
(** * [src/assets/js/main.js]: the page script

    Each feature of the script keeps its state in the DOM: a set of
    classes, an attribute, a [style.display]. The model gives each feature
    a record of exactly the DOM state its handlers read and write, one
    function per handler, and a step relation for the clicks a user can
    make. A class list is a [gset string]; [classList.add], [remove] and
    [toggle] are union, difference and the test below.

    - Module [Menu]: the mobile menu (lines 8-19) and the anchor handler
      that closes it (lines 22-43).
    - Module [Nav]: the active link of the navigation (lines 45-58).
    - Module [Gallery]: the filter buttons and "load more" (lines 87-138).
    - Module [Contact]: the form object built on submit (lines 143-165).
    - Module [Faq]: the accordion (lines 170-193).
    - [init_page_scripts] (lines 67-82): which features a page starts.

    Not modelled: scrolling itself (the target offset is returned), the
    selector syntax of [document.querySelector] (the target lookup is an
    input), and the errors of a page whose markup lacks an element a
    handler dereferences ([nextElementSibling], [querySelector('i')]). *)

From S2P Require Import Prelude JsString.
From stdpp Require Import gmap sets.
From Stdlib Require Import Ascii ZArith.

(** [classList.toggle(c)] *)
Definition class_toggle (c : string) (cs : gset string) : gset string :=
  if bool_decide (c ∈ cs) then cs ∖ {[c]} else {[c]} ∪ cs.

Lemma elem_of_class_toggle (c d : string) (cs : gset string) :
  d ∈ class_toggle c cs <-> (d = c /\ c ∉ cs) \/ (d <> c /\ d ∈ cs).
Proof.
  unfold class_toggle. destruct (decide (d = c)) as [->|Hne]; case_bool_decide as Hc;
    rewrite ?elem_of_difference, ?elem_of_union, ?elem_of_singleton; intuition congruence.
Qed.

(** ** The mobile menu *)

Module Menu.

(** Whether [#mobile-menu] has the class [hidden], and the
    [aria-expanded] attribute of [#mobile-menu-button]. *)
Record state : Type := mk_state { hidden : bool; aria_expanded : option string }.

(** Lines 12-18: the click on the menu button. [setAttribute] turns the
    boolean [!isExpanded] into the string ["true"] or ["false"]. *)
Definition toggle (s : state) : state :=
  let isExpanded := bool_decide (aria_expanded s = Some "true") in
  mk_state (negb (hidden s)) (Some (if isExpanded then "false" else "true")).

(** Lines 23-42: a click on an anchor [href]; [target] is the [offsetTop]
    of the element [document.querySelector(href)] finds. The result is
    the scroll position asked for, if any, and the menu. *)
Definition anchor_click (href : string) (target : option Z) (s : state) : option Z * state :=
  if String.eqb href "#" then (None, s)
  else match target with
       | Some top =>
           (Some (top - 80)%Z, if negb (hidden s) then mk_state true (Some "false") else s)
       | None => (None, s)
       end.

(** The clicks on a page that has both the menu and its button. *)
Inductive step : state -> state -> Prop :=
| step_toggle s : step s (toggle s)
| step_anchor s href target : step s (anchor_click href target s).2.

(** The attribute says the truth about the menu. *)
Definition consistent (s : state) : Prop :=
  if hidden s then aria_expanded s <> Some "true" else aria_expanded s = Some "true".

Lemma toggle_consistent (s : state) : consistent s -> consistent (toggle s).
Proof.
  destruct s as [[] a]; unfold consistent, toggle; simpl; intros Hc.
  - by rewrite bool_decide_eq_false_2.
  - by rewrite bool_decide_eq_true_2.
Qed.

Lemma anchor_consistent (s : state) (href : string) (target : option Z) :
  consistent s -> consistent (anchor_click href target s).2.
Proof.
  unfold anchor_click. destruct (String.eqb href "#"); [done|].
  destruct target; [|done]. destruct (hidden s) eqn:Hh; simpl; [done|].
  intros _. unfold consistent. simpl. done.
Qed.

Lemma step_consistent (s s' : state) : step s s' -> consistent s -> consistent s'.
Proof. intros []; [apply toggle_consistent | apply anchor_consistent]. Qed.

(** C16: from a page whose menu button tells the truth about the menu,
    every sequence of clicks on the button and on anchors keeps
    [aria-expanded] equal to ["true"] exactly when the menu is shown. *)
Theorem reachable_consistent (s0 s : state) :
  consistent s0 -> rtc step s0 s -> consistent s.
Proof. intros H0 Hr. induction Hr as [|x y z Hxy _ IH]; [done|]. apply IH. by eapply step_consistent. Qed.

Lemma reachable_consistent_witness :
  consistent (toggle (mk_state true None)).
Proof.
  apply (reachable_consistent (mk_state true None)); [by unfold consistent | apply rtc_once, step_toggle].
Defined.

End Menu.

(** ** The active navigation link *)

Module Nav.

(** Line 46: [window.location.pathname.split('/').pop() || 'index.html']:
    the last segment, or ['index.html'] when it is empty. *)
Definition current_page (pathname : string) : string :=
  match last (split_on "/"%char pathname) with
  | Some p => if String.eqb p "" then "index.html" else p
  | None => "index.html"
  end.

(** Lines 48-51: [linkHref && (...)]; an empty [href] is falsy. *)
Definition is_current (currentPage : string) (linkHref : option string) : bool :=
  match linkHref with
  | None => false
  | Some h =>
      negb (String.eqb h "") &&
      (String.eqb h currentPage ||
       (String.eqb currentPage "" && String.eqb h "index.html") ||
       (String.eqb currentPage "index.html" && String.eqb h "./"))
  end.

Record link : Type := mk_link {
  href : option string;
  lclasses : gset string;
  aria_current : option string
}.

Definition active_classes : gset string := {["text-blue-600"; "font-medium"]}.

(** Lines 52-56 on one link. *)
Definition mark (currentPage : string) (l : link) : link :=
  if is_current currentPage (href l)
  then mk_link (href l) (lclasses l ∪ active_classes) (Some "page")
  else mk_link (href l) (lclasses l ∖ active_classes) None.

(** Lines 46-58 *)
Definition update_nav (pathname : string) (links : list link) : list link :=
  map (mark (current_page pathname)) links.

Lemma current_page_nonempty (pathname : string) : current_page pathname <> "".
Proof.
  unfold current_page. destruct (last _) as [p|]; [|done].
  destruct (String.eqb p "") eqn:E; [done|]. intros ->. done.
Qed.

(** C17: the page name of line 46 is never empty, so the test
    [currentPage === ''] of line 50 never holds: a link is marked current
    exactly when its [href] is the page name, or is ['./'] on
    [index.html]. *)
Theorem is_current_dead_branch (pathname : string) (h : string) :
  is_current (current_page pathname) (Some h) =
  negb (String.eqb h "") &&
  (String.eqb h (current_page pathname) ||
   (String.eqb (current_page pathname) "index.html" && String.eqb h "./")).
Proof.
  unfold is_current. pose proof (current_page_nonempty pathname) as Hne.
  destruct (String.eqb (current_page pathname) "") eqn:E; [by apply String.eqb_eq in E|].
  by rewrite andb_false_l, orb_false_r.
Qed.

(** C18: after the update every link of the navigation carries
    [aria-current="page"] exactly when it carries the active classes, and
    exactly when it is the current page's link. *)
Theorem update_nav_marks (pathname : string) (links : list link) (i : nat) (l : link) :
  update_nav pathname links !! i = Some l ->
  (aria_current l = Some "page" <-> is_current (current_page pathname) (href l) = true) /\
  (active_classes ⊆ lclasses l <-> is_current (current_page pathname) (href l) = true).
Proof.
  unfold update_nav. rewrite list_lookup_fmap. destruct (links !! i) as [l0|]; [|done].
  intros [= <-]. unfold mark. destruct (is_current _ (href l0)) eqn:E; simpl; rewrite E.
  - split; [done|]. split; [intros _; done | intros _; apply union_subseteq_r].
  - split; [done|]. split; [|done]. intros Hsub.
    assert ("text-blue-600" ∈ active_classes) as Hact
      by (unfold active_classes; rewrite elem_of_union, elem_of_singleton; by left).
    apply Hsub, elem_of_difference in Hact as [_ Hn]. exfalso. apply Hn.
    unfold active_classes; rewrite elem_of_union, elem_of_singleton; by left.
Qed.

Lemma update_nav_marks_witness :
  (aria_current (mark "about.html" (mk_link (Some "about.html") ∅ None)) = Some "page" <->
   is_current (current_page "/pages/about.html") (Some "about.html") = true).
Proof.
  apply (proj1 (update_nav_marks "/pages/about.html" [mk_link (Some "about.html") ∅ None] 0 _
                  ltac:(reflexivity))).
Defined.

End Nav.

(** ** The gallery *)

Module Gallery.

Record button : Type := mk_button { bclasses : gset string; data_filter : option string }.
Record item : Type := mk_item { category : option string; display : option string }.

(** The filter buttons, the gallery items (in document order), the
    counter [currentItems] of line 119 and the [style.display] of
    [#load-more]. *)
Record state : Type := mk_state {
  buttons : list button;
  items : list item;
  current_items : nat;
  load_more_display : option string
}.

Definition on_classes : gset string := {["active"; "bg-blue-600"; "text-white"]}.
Definition off_classes : gset string := {["border-gray-200"; "hover:bg-gray-100"]}.

(** Lines 96-97 *)
Definition deactivate (b : button) : button :=
  mk_button ((bclasses b ∖ on_classes) ∪ off_classes) (data_filter b).

(** Lines 100-101 *)
Definition activate (b : button) : button :=
  mk_button ((bclasses b ∪ on_classes) ∖ off_classes) (data_filter b).

(** Lines 106-112: [filter === 'all' || data-category === filter]; two
    missing attributes are both [null], hence equal. *)
Definition selects (filter : option string) (it : item) : bool :=
  bool_decide (filter = Some "all") || bool_decide (category it = filter).

Definition show_item (filter : option string) (it : item) : item :=
  mk_item (category it) (Some (if selects filter it then "block" else "none")).

(** Lines 93-113: the click on the [i]-th filter button. *)
Definition filter_click (i : nat) (s : state) : state :=
  match buttons s !! i with
  | None => s
  | Some b =>
      mk_state (alter activate i (map deactivate (buttons s)))
               (map (show_item (data_filter b)) (items s))
               (current_items s) (load_more_display s)
  end.

(** Lines 121-136: "load more" shows the next four items in document
    order and hides itself once the counter reaches the number of items. *)
Definition load_more_click (s : state) : state :=
  let cur := current_items s in
  mk_state (buttons s)
    (imap (fun i it => if bool_decide (cur <= i < cur + 4)
                       then mk_item (category it) (Some "block") else it) (items s))
    (cur + 4)
    (if bool_decide (length (items s) <= cur + 4) then Some "none" else load_more_display s).

Inductive step : state -> state -> Prop :=
| step_filter s i : step s (filter_click i s)
| step_load_more s : step s (load_more_click s).

(** Exactly the [i]-th button is active. *)
Definition active_is (i : nat) (s : state) : Prop :=
  i < length (buttons s) /\
  forall j b, buttons s !! j = Some b -> ("active" ∈ bclasses b <-> j = i).

Lemma active_in_on : "active" ∈ on_classes.
Proof. unfold on_classes. rewrite !elem_of_union, !elem_of_singleton. by left; left. Qed.

Lemma active_not_off : "active" ∉ off_classes.
Proof. unfold off_classes. rewrite !elem_of_union, !elem_of_singleton. by intros [?|?]. Qed.

Lemma filter_click_active (i : nat) (s : state) :
  i < length (buttons s) -> active_is i (filter_click i s).
Proof.
  intros Hi. unfold filter_click.
  destruct (buttons s !! i) as [b|] eqn:Hb; [|apply lookup_ge_None in Hb; lia].
  split; [simpl; by rewrite length_alter, length_map|].
  intros j b'. simpl. destruct (decide (j = i)) as [->|Hne].
  - rewrite list_lookup_alter, list_lookup_fmap, Hb. simpl. rewrite decide_True by done. intros [= <-]. simpl.
    split; [done|]. intros _. rewrite elem_of_difference, elem_of_union.
    split; [right; apply active_in_on | apply active_not_off].
  - rewrite list_lookup_alter_ne, list_lookup_fmap by done.
    destruct (buttons s !! j); [|done]. intros [= <-]. simpl.
    rewrite elem_of_union, elem_of_difference. split; [|done].
    intros [[_ Hn]|Hoff]; exfalso; [by apply Hn, active_in_on | by apply active_not_off].
Qed.

(** C19: once a filter button has been clicked, exactly one button is
    active, whatever the user clicks next (filters or "load more"). *)
Theorem one_active_invariant (i : nat) (s s' : state) :
  i < length (buttons s) -> rtc step (filter_click i s) s' ->
  exists j, active_is j s'.
Proof.
  intros Hi Hr. pose proof (filter_click_active i s Hi) as H0.
  remember (filter_click i s) as s0 eqn:E. clear E Hi.
  revert i H0. induction Hr as [x|x y z Hxy _ IH]; intros i Hx; [by exists i|].
  destruct Hxy as [x k|x].
  - destruct (decide (k < length (buttons x))) as [Hk|Hk].
    + by apply (IH k), filter_click_active.
    + apply (IH i). unfold filter_click.
      by rewrite (lookup_ge_None_2 (buttons x) k) by lia.
  - by apply (IH i).
Qed.

Definition example_gallery : state :=
  mk_state [mk_button ∅ (Some "all"); mk_button ∅ (Some "events")]
    (replicate 9 (mk_item (Some "events") None) ++ [mk_item (Some "sports") (Some "none")])
    8 None.

Lemma one_active_invariant_witness :
  exists j, active_is j (load_more_click (filter_click 1 example_gallery)).
Proof.
  apply (one_active_invariant 1 example_gallery); [simpl; lia | apply rtc_once, step_load_more].
Defined.

Lemma load_more_length (s : state) : length (items (load_more_click s)) = length (items s).
Proof. apply length_imap. Qed.

(** One click: the items at [cur .. cur+3] are shown, the others keep their
    display. *)
Lemma load_more_lookup (s : state) (i : nat) :
  items (load_more_click s) !! i =
  (fun it => if bool_decide (current_items s <= i < current_items s + 4)
             then mk_item (category it) (Some "block") else it) <$> items s !! i.
Proof. apply list_lookup_imap. Qed.

(** C20: "load more" always makes progress: after [k] clicks the counter
    has grown by [4 k], every item from the starting counter up to it is
    shown, and once the counter reaches the number of items the button is
    hidden; so ⌈(n - 8) / 4⌉ clicks show every item of the gallery. *)
Theorem load_more_progress (k : nat) (s : state) :
  let s' := Nat.iter k load_more_click s in
  current_items s' = current_items s + 4 * k /\
  length (items s') = length (items s) /\
  (forall i it, current_items s <= i < current_items s + 4 * k -> items s' !! i = Some it ->
     display it = Some "block") /\
  (0 < k -> length (items s) <= current_items s + 4 * k -> load_more_display s' = Some "none").
Proof.
  induction k as [|k (IHc & IHl & IHd & IHh)]; [simpl; split_and!; try done; intros; lia|].
  cbv zeta in *. set (t := Nat.iter k load_more_click s) in *.
  change (Nat.iter (S k) load_more_click s) with (load_more_click t).
  split_and!.
  - change (current_items (load_more_click t)) with (current_items t + 4). rewrite IHc. lia.
  - by rewrite load_more_length.
  - intros i it Hi. rewrite load_more_lookup. destruct (items t !! i) as [it0|] eqn:E; [|done].
    simpl. case_bool_decide; intros [= <-]; [done|]. apply (IHd i); [lia | done].
  - intros _ Hn.
    change (load_more_display (load_more_click t)) with
      (if bool_decide (length (items t) <= current_items t + 4) then Some "none"
       else load_more_display t).
    rewrite bool_decide_eq_true_2; [done|].
    rewrite IHl, IHc. lia.
Qed.

Lemma load_more_progress_witness :
  load_more_display (Nat.iter 1 load_more_click example_gallery) = Some "none".
Proof. apply (load_more_progress 1 example_gallery); simpl; lia. Defined.

(** The items show exactly what the filter [fl] selects. *)
Definition filter_shown (fl : option string) (s : state) : Prop :=
  forall j it, items s !! j = Some it -> display it = Some (if selects fl it then "block" else "none").

Lemma selects_mk (fl : option string) (it : item) (d : option string) :
  selects fl (mk_item (category it) d) = selects fl it.
Proof. done. Qed.

Lemma filter_click_items (i : nat) (s : state) (b : button) :
  buttons s !! i = Some b ->
  items (filter_click i s) = map (show_item (data_filter b)) (items s) /\
  current_items (filter_click i s) = current_items s.
Proof. unfold filter_click. by intros ->. Qed.

(** C21: a click on a filter button leaves the gallery showing exactly the
    items of that filter; the next "load more" keeps it so only if every
    item it reveals belongs to the filter, because lines 121-136 set
    [display: block] on the next four items whatever filter is active. *)
Theorem load_more_breaks_filter (i : nat) (s : state) (b : button) :
  buttons s !! i = Some b ->
  filter_shown (data_filter b) (filter_click i s) /\
  (filter_shown (data_filter b) (load_more_click (filter_click i s)) <->
   forall j it, current_items s <= j < current_items s + 4 -> items s !! j = Some it ->
     selects (data_filter b) it = true).
Proof.
  intros Hb. destruct (filter_click_items i s b Hb) as [Hi Hc]. split; [|split].
  - intros j it. rewrite Hi, list_lookup_fmap. destruct (items s !! j); [|done]. by intros [= <-].
  - intros Hl j it Hj Hit. specialize (Hl j (mk_item (category it) (Some "block"))).
    rewrite load_more_lookup, Hc, Hi, list_lookup_fmap, Hit in Hl. simpl in Hl.
    rewrite bool_decide_eq_true_2 in Hl by lia. specialize (Hl eq_refl).
    rewrite selects_mk in Hl. by destruct (selects _ it).
  - intros Hr j it. rewrite load_more_lookup, Hc, Hi, list_lookup_fmap.
    destruct (items s !! j) as [it0|] eqn:E; [|done]. simpl.
    case_bool_decide as Hj; intros [= <-]; simpl; [|done].
    by rewrite selects_mk, (Hr j it0 Hj E).
Qed.

Lemma load_more_breaks_filter_witness :
  ~ filter_shown (Some "events") (load_more_click (filter_click 1 example_gallery)).
Proof.
  intros H.
  pose proof (proj1 (proj2 (load_more_breaks_filter 1 example_gallery
    (mk_button ∅ (Some "events")) eq_refl)) H 9 (mk_item (Some "sports") (Some "none"))
    ltac:(simpl; lia) eq_refl) as E.
  vm_compute in E. discriminate.
Defined.

End Gallery.

(** ** The contact form *)

Module Contact.

(** Lines 151-155: [formData.forEach((value, key) => formObject[key] = value)]
    over the entries in document order. The object is a map from names to
    strings: a field named [__proto__] (whose assignment a plain object
    turns into a prototype change) and [File] values are not modelled. *)
Definition form_object (entries : list (string * string)) : gmap string string :=
  foldl (fun m kv => <[kv.1 := kv.2]> m) ∅ entries.

(** The entries of the form's fields and the values [reset()] restores. *)
Record form : Type := mk_form { entries : list (string * string); defaults : list (string * string) }.

Definition thanks : string := "Thank you for your message! We will get back to you soon.".

(** Lines 147-163: the object logged, the alert shown, the form after
    [this.reset()]. *)
Definition submit (fm : form) : gmap string string * string * form :=
  (form_object (entries fm), thanks, mk_form (defaults fm) (defaults fm)).

(** C22: the logged object holds, for each field name, the value of the
    last field of that name: a name used by several fields (a group of
    checkboxes) keeps only its last value. *)
Theorem form_object_lookup (es : list (string * string)) (k : string) :
  form_object es !! k = snd <$> last (filter (fun kv => kv.1 = k) es).
Proof.
  unfold form_object. induction es as [|[k' v] es IH] using rev_ind; [done|].
  rewrite foldl_app, filter_app. simpl. destruct (decide (k' = k)) as [->|Hne].
  - rewrite filter_cons_True by done. simpl. rewrite last_app. simpl.
    by rewrite lookup_insert_eq.
  - rewrite filter_cons_False by done. simpl. rewrite app_nil_r, lookup_insert_ne by done.
    exact IH.
Qed.

End Contact.

(** ** The FAQ accordion *)

Module Faq.

(** One question: whether its answer has the class [hidden], and the
    classes of its icon. *)
Record entry : Type := mk_entry { closed : bool; icon : gset string }.

(** Lines 172-191: the click on the [i]-th question. *)
Definition click (i : nat) (es : list entry) : list entry :=
  imap (fun j e =>
          if decide (j = i)
          then mk_entry (negb (closed e)) (class_toggle "rotate-180" (class_toggle "transform" (icon e)))
          else mk_entry true (icon e ∖ {["rotate-180"]})) es.

(** At most one answer is shown. *)
Definition at_most_one_open (es : list entry) : Prop :=
  forall j k ej ek, es !! j = Some ej -> es !! k = Some ek ->
    closed ej = false -> closed ek = false -> j = k.

(** The icon is turned exactly when the answer is shown. *)
Definition icon_follows (es : list entry) : Prop :=
  forall j e, es !! j = Some e -> ("rotate-180" ∈ icon e <-> closed e = false).

Lemma click_lookup (i j : nat) (es : list entry) :
  click i es !! j =
  (fun e => if decide (j = i)
            then mk_entry (negb (closed e)) (class_toggle "rotate-180" (class_toggle "transform" (icon e)))
            else mk_entry true (icon e ∖ {["rotate-180"]})) <$> es !! j.
Proof. apply list_lookup_imap. Qed.

Lemma click_one_open (i : nat) (es : list entry) : at_most_one_open (click i es).
Proof.
  intros j k ej ek. rewrite !click_lookup.
  destruct (es !! j) as [e1|]; [|done]. destruct (es !! k) as [e2|]; [|done]. simpl.
  intros [= <-] [= <-]. do 2 case_decide; simpl; intros; subst; done.
Qed.

Lemma click_icon_follows (i : nat) (es : list entry) : icon_follows es -> icon_follows (click i es).
Proof.
  intros Hf j e. rewrite click_lookup. destruct (es !! j) as [e0|] eqn:E; [|done]. simpl.
  intros [= <-]. specialize (Hf j e0 E). case_decide; simpl.
  - rewrite elem_of_class_toggle, elem_of_class_toggle.
    destruct (closed e0); simpl; intuition congruence.
  - rewrite elem_of_difference, elem_of_singleton. intuition congruence.
Qed.

(** The states reachable from a page whose answers are all hidden and
    whose icons are not turned. *)
Inductive reachable : list entry -> Prop :=
| reach_init es : Forall (fun e => closed e = true /\ "rotate-180" ∉ icon e) es -> reachable es
| reach_click es i : reachable es -> i < length es -> reachable (click i es).

(** C23: whatever the questions clicked, at most one answer is shown and
    each icon is turned exactly when its answer is shown. *)
Theorem reachable_inv (es : list entry) :
  reachable es -> at_most_one_open es /\ icon_follows es.
Proof.
  induction 1 as [es Hinit|es i _ [_ IH] _].
  - rewrite Forall_lookup in Hinit. split.
    + intros j k ej ek Hj _ Hc _. destruct (Hinit j ej Hj) as [Hcl _]. congruence.
    + intros j e Hj. destruct (Hinit j e Hj) as [-> Hn]. split; [done|discriminate].
  - split; [apply click_one_open | by apply click_icon_follows].
Qed.

Lemma reachable_inv_witness :
  at_most_one_open (click 1 (click 0 [mk_entry true ∅; mk_entry true ∅])) /\
  icon_follows (click 1 (click 0 [mk_entry true ∅; mk_entry true ∅])).
Proof.
  apply reachable_inv. apply reach_click; [apply reach_click|]; simpl; try lia.
  apply reach_init. repeat constructor; set_solver.
Defined.

End Faq.

(** ** Lines 67-82: which features a page starts *)

Record page : Type := mk_page {
  has_gallery_grid : bool;  (** [#gallery-grid] *)
  has_contact_form : bool;  (** [#contactForm] *)
  has_faq_toggle : bool     (** [.faq-toggle] *)
}.

Inductive feature : Type := GalleryFeature | ContactFeature | FaqFeature.

Definition init_page_scripts (p : page) : list feature :=
  (if has_gallery_grid p then [GalleryFeature] else []) ++
  (if has_contact_form p then [ContactFeature] else []) ++
  (if has_faq_toggle p then [FaqFeature] else []).
